(** * Distributed SSE delivery for LLM responses: a shallow embedding

    Four Go programs of the repository are embedded here:
    - [Proxy] and [ProxyServer] : the LLM stream proxy ([streamFromLLM],
      [publishToken], [handleChat]);
    - [Bridge] : the Redis to NATS bridge ([loadConfig], [main]);
    - [Stream] and [Chat] : the two handlers of the SSE adapter
      ([HandleStream], [HandleChat]) together with [loadConfig];
    - [LoadGen] : the load generator ([Stats.RecordLatency], [runProducer]).

    Goroutines, channels, timers and the context of a request are modelled
    by explicit state and a schedule: a list of events that says which
    concurrent activity runs next (the NATS callback, the passing of time,
    the client going away, the forwarding goroutine finishing, one [select]
    of the delivery loop together with the case the runtime picked).
    Calls to [slog] and to the Prometheus counters are left out: they write
    nothing to the client and no property below reads them. *)

From Stdlib Require Import ZArith String Ascii Lia Bool.
From stdpp Require Import base list sorting.
Import ListNotations.

Local Open Scope string_scope.
Local Open Scope list_scope.
Local Open Scope Z_scope.

(** ** Go basics shared by the three programs *)

(** [int64] arithmetic wraps around. *)
Definition wrap64 (z : Z) : Z := (z + 2^63) mod 2^64 - 2^63.
Definition in_int64 (z : Z) : bool := (- 2^63 <=? z) && (z <=? 2^63 - 1).

(** The [TokenMessage] struct; the three programs declare it identically. *)
Record TokenMessage := mkTokenMessage {
  ConversationID : string;
  Token : string;
  Sequence : Z;
  Done : bool;
  Timestamp : Z
}.

(** A message body on Redis or NATS, classified by what [json.Unmarshal]
    into a [TokenMessage] makes of it. *)
Inductive Payload :=
| Malformed (raw : string)
| Encoded (t : TokenMessage).

Definition json_Unmarshal (p : Payload) : option TokenMessage :=
  match p with
  | Malformed _ => None
  | Encoded t => Some t
  end.

(** [fmt.Sprintf("chat.%s.tokens", conversationID)] *)
Definition subject_of (conversationID : string) : string :=
  String.append "chat." (String.append conversationID ".tokens").

(** [strings.HasPrefix], [strings.TrimPrefix], [strings.TrimSuffix] on byte
    strings. *)
Fixpoint HasPrefix (s prefix : string) : bool :=
  match prefix with
  | EmptyString => true
  | String c prefix' =>
      match s with
      | EmptyString => false
      | String d s' => Ascii.eqb c d && HasPrefix s' prefix'
      end
  end.

Definition TrimPrefix (s prefix : string) : string :=
  if HasPrefix s prefix
  then substring (String.length prefix)
                 (String.length s - String.length prefix)%nat s
  else s.

Definition HasSuffix (s suffix : string) : bool :=
  (String.length suffix <=? String.length s)%nat &&
  String.eqb (substring (String.length s - String.length suffix)%nat
                        (String.length suffix) s) suffix.

Definition TrimSuffix (s suffix : string) : string :=
  if HasSuffix s suffix
  then substring 0 (String.length s - String.length suffix)%nat s
  else s.

(** ** [fmt.Sscanf(s, "%d", &v)]

    The result is the value stored into [v], or [None] when the scan fails
    and [v] is left as it was.  The input is read as UTF-8.  Leading space
    characters are skipped (a newline is an error), one sign is accepted,
    then the longest run of decimal digits is read and handed to
    [strconv.ParseInt(tok, 10, 64)], which refuses values outside [int64].
    Input after the number is ignored. *)
Module Scan.

(** [isSpace] on the one-byte characters: U+0009 to U+000D and U+0020. *)
Definition isSpace (c : ascii) : bool :=
  let n := nat_of_ascii c in
  ((9 <=? n)%nat && (n <=? 13)%nat) || (n =? 32)%nat.

(** [isSpace] on the other space characters, by their UTF-8 encodings:
    U+0085 and U+00A0 (C2 85, C2 A0); U+1680 (E1 9A 80); U+2000 to U+200A,
    U+2028, U+2029 and U+202F (E2 80 80 to E2 80 8A, E2 80 A8, E2 80 A9,
    E2 80 AF); U+205F (E2 81 9F); U+3000 (E3 80 80). *)
Definition isSpace2 (b1 b2 : ascii) : bool :=
  let n2 := nat_of_ascii b2 in
  (nat_of_ascii b1 =? 194)%nat && ((n2 =? 133)%nat || (n2 =? 160)%nat).

Definition isSpace3 (b1 b2 b3 : ascii) : bool :=
  let n1 := nat_of_ascii b1 in
  let n2 := nat_of_ascii b2 in
  let n3 := nat_of_ascii b3 in
  ((n1 =? 225)%nat && (n2 =? 154)%nat && (n3 =? 128)%nat) ||
  ((n1 =? 226)%nat && (n2 =? 128)%nat &&
   (((128 <=? n3)%nat && (n3 <=? 138)%nat) ||
    (n3 =? 168)%nat || (n3 =? 169)%nat || (n3 =? 175)%nat)) ||
  ((n1 =? 226)%nat && (n2 =? 129)%nat && (n3 =? 159)%nat) ||
  ((n1 =? 227)%nat && (n2 =? 128)%nat && (n3 =? 128)%nat).

Definition isNewline (c : ascii) : bool := (nat_of_ascii c =? 10)%nat.

Fixpoint SkipSpace (s : string) : option string :=
  match s with
  | EmptyString => Some s
  | String c s' =>
      if isNewline c then None
      else if (nat_of_ascii c =? 13)%nat && HasPrefix s' (String (ascii_of_nat 10) "")
      then None
      else if isSpace c then SkipSpace s'
      else
        match s' with
        | EmptyString => Some s
        | String c2 s2 =>
            if isSpace2 c c2 then SkipSpace s2
            else
              match s2 with
              | EmptyString => Some s
              | String c3 s3 => if isSpace3 c c2 c3 then SkipSpace s3 else Some s
              end
        end
  end.

Definition digit_of (c : ascii) : option Z :=
  let n := nat_of_ascii c in
  if ((48 <=? n)%nat && (n <=? 57)%nat) then Some (Z.of_nat n - 48) else None.

(** [s.accept(decimalDigits)]: with the verb [%d] the digits are "0123456789". *)
Definition accepted (c : ascii) : bool :=
  match digit_of c with
  | Some _ => true
  | None => false
  end.

(** [scanNumber]: the longest run of digits. *)
Fixpoint scanNumber (s : string) : list ascii :=
  match s with
  | EmptyString => []
  | String c s' => if accepted c then c :: scanNumber s' else []
  end.

(** The magnitude [ParseInt] reads in base 10. *)
Fixpoint magnitude (acc : Z) (tok : list ascii) : option Z :=
  match tok with
  | [] => Some acc
  | c :: tok' =>
      match digit_of c with
      | Some d => magnitude (10 * acc + d) tok'
      | None => None
      end
  end.

Definition Sscanf_d (s : string) : option Z :=
  match SkipSpace s with
  | None => None
  | Some EmptyString => None
  | Some (String c rest as s1) =>
      let neg := (nat_of_ascii c =? 45)%nat in
      let signed := neg || (nat_of_ascii c =? 43)%nat in
      let tok := scanNumber (if signed then rest else s1) in
      match tok with
      | [] => None
      | _ =>
          match magnitude 0 tok with
          | None => None
          | Some m =>
              let v := if neg then - m else m in
              if in_int64 v then Some v else None
          end
      end
  end.

End Scan.

(** ** What a handler does to the outside world *)

(** Result of the forwarding goroutine of [HandleChat]: [http.Post] failed,
    or the proxy answered with a status. *)
Inductive PostResult :=
| TransportError (msg : string)
| Status (code : Z).

(** The [error] sent on [errChan]. *)
Inductive ForwardError :=
| PostFailed (msg : string)            (* err of http.Post *)
| ProxyError (code : Z).               (* "LLM proxy error: %d" *)

Inductive ErrorCause :=
| ForwardingFailed (e : ForwardError)  (* data: {"error":"<err.Error()>"} *)
| FirstTokenTimeout.                   (* data: {"error":"timeout waiting for response"} *)

(** One SSE frame written to the response. *)
Inductive Frame :=
| FComment (text : string)             (* ": connected to %s" , ": keep-alive" *)
| FConnected (conversationID : string) (* event: connected *)
| FToken (id : Z) (data : TokenMessage)(* event: token / id: / data: *)
| FError (cause : ErrorCause).         (* event: error *)

Inductive Effect :=
| SetHeader (key value : string)
| WriteHeader (code : Z)
| HttpError (msg : string) (code : Z)
| DecodeBody
| ConnCountAdd (connID : Z)
| NatsSubscribe (subject : string) (ok : bool)
| SubscriptionsStore (connID : Z)
| Fprintf (f : Frame)
| Flush
| GoForward (url message conversationID : string)
| NewTicker (d : Z)
| NewTimer (d : Z)
| TimerStop
| TickerStop
| CloseDoneChan
| Unsubscribe
| SubscriptionsDelete (connID : Z).

Definition Second : Z := 1000000000.
Definition keepAlivePeriod : Z := 15 * Second.
Definition firstTokenTimeoutAfter : Z := 30 * Second.
Definition msgChanCap : nat := 100.

Definition StatusOK : Z := 200.
Definition StatusAccepted : Z := 202.
Definition StatusBadRequest : Z := 400.
Definition StatusMethodNotAllowed : Z := 405.
Definition StatusInternalServerError : Z := 500.
Definition StatusServiceUnavailable : Z := 503.

(** The frames written to the client, and the ids of the token events. *)
Definition frames (tr : list Effect) : list Frame :=
  omap (fun e => match e with Fprintf f => Some f | _ => None end) tr.

Definition token_ids (fs : list Frame) : list Z :=
  omap (fun f => match f with FToken id _ => Some id | _ => None end) fs.

(** [time.Ticker]: a tick is put on the channel (capacity one) whenever the
    clock reaches the next period; a tick that finds the channel full is
    dropped. *)
Definition next_tick_after (nextTick now : Z) : Z :=
  if now <? nextTick then nextTick
  else nextTick + ((now - nextTick) / keepAlivePeriod + 1) * keepAlivePeriod.

Definition sseHeaders : list Effect :=
  [ SetHeader "Content-Type" "text/event-stream";
    SetHeader "Cache-Control" "no-cache";
    SetHeader "Connection" "keep-alive";
    SetHeader "Access-Control-Allow-Origin" "*";
    SetHeader "X-Accel-Buffering" "no" ].

(** ** [HandleStream]: GET /stream/{conversation_id} *)
Module Stream.

Record Request := mkRequest {
  Path : string;          (* r.URL.Path *)
  LastEventID : string;   (* r.Header.Get("Last-Event-ID"); empty when absent *)
  CanFlush : bool         (* w.(http.Flusher) succeeds *)
}.

(** What the surroundings decide: the value of [h.connCount] when the
    request comes in, and whether [h.nc.Subscribe] succeeds. *)
Record Env := mkEnv {
  connCount : Z;
  SubscribeOk : bool
}.

Definition conversationID_of (r : Request) : string :=
  TrimSuffix (TrimPrefix (Path r) "/stream/") "/".

(** Lines 90-96: [startSequence] stays 0 without the header; with it, the
    scanned value (0 when the scan fails) is incremented. *)
Definition startSequence_of (lastEventID : string) : Z :=
  if String.eqb lastEventID "" then 0
  else
    let scanned := match Scan.Sscanf_d lastEventID with
                   | Some v => v
                   | None => 0
                   end in
    wrap64 (scanned + 1).

Inductive Case := CaseCtxDone | CaseMsg | CaseTick.

Inductive Event :=
| Deliver (p : Payload) (pickDone : bool)
    (* NATS runs the subscription callback on [p]; [pickDone] is the
       choice of the runtime when both the send and [<-doneChan] are ready *)
| Elapse (d : Z)                  (* [d] nanoseconds pass *)
| ClientGone                      (* r.Context() is cancelled *)
| Select (c : Case).              (* one [select] of the loop picks case [c] *)

Record Conn := mkConn {
  conversationID : string;
  connID : Z;
  startSequence : Z;
  msgChan : list TokenMessage;    (* buffered channel, capacity 100 *)
  doneClosed : bool;              (* close(doneChan) has run *)
  ctxDone : bool;                 (* r.Context().Done() is closed *)
  clock : Z;                      (* nanoseconds since the ticker was made *)
  nextTick : Z;
  tickC : bool;                   (* keepAliveTicker.C holds a tick *)
  tickerStopped : bool;
  returned : bool;                (* the handler has returned *)
  trace : list Effect
}.

Definition emit (es : list Effect) (c : Conn) : Conn :=
  mkConn (conversationID c) (connID c) (startSequence c) (msgChan c)
         (doneClosed c) (ctxDone c) (clock c) (nextTick c) (tickC c)
         (tickerStopped c) (returned c) (trace c ++ es).

Definition set_msgChan (q : list TokenMessage) (c : Conn) : Conn :=
  mkConn (conversationID c) (connID c) (startSequence c) q
         (doneClosed c) (ctxDone c) (clock c) (nextTick c) (tickC c)
         (tickerStopped c) (returned c) (trace c).

Definition set_ctxDone (c : Conn) : Conn :=
  mkConn (conversationID c) (connID c) (startSequence c) (msgChan c)
         (doneClosed c) true (clock c) (nextTick c) (tickC c)
         (tickerStopped c) (returned c) (trace c).

Definition set_ticker (now next : Z) (pending : bool) (c : Conn) : Conn :=
  mkConn (conversationID c) (connID c) (startSequence c) (msgChan c)
         (doneClosed c) (ctxDone c) now next pending
         (tickerStopped c) (returned c) (trace c).

(** [return] from the loop: the deferred calls run, last registered first. *)
Definition ret (c : Conn) : Conn :=
  mkConn (conversationID c) (connID c) (startSequence c) (msgChan c)
         true (ctxDone c) (clock c) (nextTick c) (tickC c)
         true true
         (trace c ++ [TickerStop; CloseDoneChan; Unsubscribe;
                      SubscriptionsDelete (connID c)]).

(** The subscription callback, lines 135-157. *)
Definition callback (p : Payload) (pickDone : bool) (c : Conn) : Conn :=
  match json_Unmarshal p with
  | None => c
  | Some token =>
      if (0 <? startSequence c) && (Sequence token <=? startSequence c)
      then c
      else
        let room := (length (msgChan c) <? msgChanCap)%nat in
        if room && doneClosed c then
          if pickDone then c else set_msgChan (msgChan c ++ [token]) c
        else if room then set_msgChan (msgChan c ++ [token]) c
        else if doneClosed c then c
        else c                    (* default: warn and drop *)
  end.

Definition elapse (d : Z) (c : Conn) : Conn :=
  let now := clock c + Z.max 0 d in
  if negb (tickerStopped c) && (nextTick c <=? now)
  then set_ticker now (next_tick_after (nextTick c) now) true c
  else set_ticker now (nextTick c) (tickC c) c.

(** One iteration of the loop at lines 186-233.  A case that is not ready
    cannot be picked: such a schedule entry changes nothing. *)
Definition select (k : Case) (c : Conn) : Conn :=
  if returned c then c
  else
    match k with
    | CaseCtxDone => if ctxDone c then ret c else c
    | CaseMsg =>
        match msgChan c with
        | [] => c
        | token :: q =>
            let c1 := emit [Fprintf (FToken (Sequence token) token); Flush]
                           (set_msgChan q c) in
            if Done token then ret c1 else c1
        end
    | CaseTick =>
        if tickC c
        then emit [Fprintf (FComment ": keep-alive"); Flush]
                  (set_ticker (clock c) (nextTick c) false c)
        else c
    end.

Definition step (c : Conn) (e : Event) : Conn :=
  match e with
  | Deliver p pickDone => callback p pickDone c
  | Elapse d => elapse d c
  | ClientGone => set_ctxDone c
  | Select k => select k c
  end.

Definition run (sched : list Event) (c : Conn) : Conn :=
  fold_left step sched c.

(** The handler up to the loop; every event of the schedule happens after
    the subscription is in place. *)
Definition HandleStream (env : Env) (r : Request) (sched : list Event) : Conn :=
  let cid := conversationID_of r in
  let start := startSequence_of (LastEventID r) in
  let id := wrap64 (connCount env + 1) in
  let stop id es :=
    mkConn cid id start [] false false 0 keepAlivePeriod false false true es in
  if String.eqb cid "" then
    stop 0 [HttpError "conversation_id required" StatusBadRequest]
  else if negb (CanFlush r) then
    stop 0 (sseHeaders ++ [HttpError "SSE not supported" StatusInternalServerError])
  else if negb (SubscribeOk env) then
    stop id (sseHeaders ++
          [ConnCountAdd id; NatsSubscribe (subject_of cid) false;
           HttpError "Failed to subscribe" StatusInternalServerError])
  else
    run sched
      (mkConn cid id start [] false false 0 keepAlivePeriod false false false
         (sseHeaders ++
          [ConnCountAdd id; NatsSubscribe (subject_of cid) true;
           SubscriptionsStore id;
           Fprintf (FComment (String.append ": connected to " cid)); Flush;
           NewTicker keepAlivePeriod])).

(** The envelopes the bus handed to the subscription, in order. *)
Definition delivered (sched : list Event) : list TokenMessage :=
  omap (fun e => match e with
                 | Deliver (Encoded t) _ => Some t
                 | _ => None
                 end) sched.

End Stream.

(** ** [HandleChat]: POST /chat, and the adapter's [loadConfig] *)
Module Chat.

Record Config := mkConfig {
  NATSUrl : string;
  SSEPort : string;
  MetricsPort : string;
  InspectionMode : string;
  InspectionBuffer : Z;
  InspectionEndpoint : string;
  LogLevel : string;
  LLMProxyURL : string
}.

(** [os.Getenv] is a function from names to values, empty when unset. *)
Definition getEnv (Getenv : string -> string) (key defaultVal : string) : string :=
  if negb (String.eqb (Getenv key) "") then Getenv key else defaultVal.

Definition Millisecond : Z := 1000000.

(** [time.ParseDuration] is taken as given. *)
Definition getDurationEnv (ParseDuration : string -> option Z)
    (Getenv : string -> string) (key : string) (defaultVal : Z) : Z :=
  if negb (String.eqb (Getenv key) "") then
    match ParseDuration (String.append (Getenv key) "ms") with
    | Some d => d
    | None => defaultVal
    end
  else defaultVal.

Definition loadConfig (ParseDuration : string -> option Z)
    (Getenv : string -> string) : Config :=
  {| NATSUrl := getEnv Getenv "NATS_URL" "nats://localhost:4222";
     SSEPort := getEnv Getenv "SSE_PORT" "8080";
     MetricsPort := getEnv Getenv "METRICS_PORT" "9090";
     InspectionMode := getEnv Getenv "INSPECTION_MODE" "disabled";
     InspectionBuffer :=
       getDurationEnv ParseDuration Getenv "INSPECTION_BUFFER_MS" (150 * Millisecond);
     InspectionEndpoint := getEnv Getenv "INSPECTION_ENDPOINT" "";
     LogLevel := getEnv Getenv "LOG_LEVEL" "info";
     LLMProxyURL := getEnv Getenv "LLM_PROXY_URL" "" |}.

Record ChatRequest := mkChatRequest {
  Message : string;
  ReqConversationID : string      (* the conversation_id field, empty when omitted *)
}.

(** The request body, classified by what the JSON decoder makes of it. *)
Inductive Body :=
| InvalidJSON (raw : string)
| Parsed (req : ChatRequest).

Record Request := mkRequest {
  Method : string;
  ReqBody : Body;
  CanFlush : bool
}.

(** What the surroundings decide: [h.connCount] when the request comes in,
    whether [h.nc.Subscribe] succeeds, the string [uuid.New()] gives, and
    whether [Timer.Stop] also removes a value already sent on the timer's
    channel (Go 1.23 and later) or leaves it there (earlier versions). *)
Record Env := mkEnv {
  connCount : Z;
  SubscribeOk : bool;
  Uuid : string;
  stopDrains : bool
}.

Inductive Case := CaseCtxDone | CaseErr | CaseTimeout | CaseMsg | CaseTick.

Inductive Event :=
| Deliver (p : Payload) (pickDone : bool)
| Elapse (d : Z)
| ClientGone
| ForwardDone (r : PostResult)    (* http.Post of the forwarding goroutine returns *)
| Select (c : Case).

Record Conn := mkConn {
  conversationID : string;
  connID : Z;
  drains : bool;                  (* [stopDrains] of the environment *)
  msgChan : list TokenMessage;    (* buffered channel, capacity 100 *)
  doneClosed : bool;
  errChan : option ForwardError;  (* buffered channel, capacity 1 *)
  forwarding : bool;              (* the forwarding goroutine has not finished *)
  ctxDone : bool;
  clock : Z;                      (* nanoseconds since the timers were made *)
  nextTick : Z;
  tickC : bool;
  tickerStopped : bool;
  timerArmed : bool;              (* firstTokenTimeout will still fire *)
  timerC : bool;                  (* firstTokenTimeout.C holds a value *)
  receivedFirstToken : bool;
  returned : bool;
  trace : list Effect
}.

Definition emit (es : list Effect) (c : Conn) : Conn :=
  mkConn (conversationID c) (connID c) (drains c) (msgChan c) (doneClosed c)
         (errChan c) (forwarding c) (ctxDone c) (clock c) (nextTick c) (tickC c)
         (tickerStopped c) (timerArmed c) (timerC c) (receivedFirstToken c)
         (returned c) (trace c ++ es).

Definition set_msgChan (q : list TokenMessage) (c : Conn) : Conn :=
  mkConn (conversationID c) (connID c) (drains c) q (doneClosed c)
         (errChan c) (forwarding c) (ctxDone c) (clock c) (nextTick c) (tickC c)
         (tickerStopped c) (timerArmed c) (timerC c) (receivedFirstToken c)
         (returned c) (trace c).

Definition set_errChan (e : option ForwardError) (running : bool) (c : Conn) : Conn :=
  mkConn (conversationID c) (connID c) (drains c) (msgChan c) (doneClosed c)
         e running (ctxDone c) (clock c) (nextTick c) (tickC c)
         (tickerStopped c) (timerArmed c) (timerC c) (receivedFirstToken c)
         (returned c) (trace c).

Definition set_ctxDone (c : Conn) : Conn :=
  mkConn (conversationID c) (connID c) (drains c) (msgChan c) (doneClosed c)
         (errChan c) (forwarding c) true (clock c) (nextTick c) (tickC c)
         (tickerStopped c) (timerArmed c) (timerC c) (receivedFirstToken c)
         (returned c) (trace c).

Definition set_timers (now next : Z) (tick armed fired : bool) (c : Conn) : Conn :=
  mkConn (conversationID c) (connID c) (drains c) (msgChan c) (doneClosed c)
         (errChan c) (forwarding c) (ctxDone c) now next tick
         (tickerStopped c) armed fired (receivedFirstToken c)
         (returned c) (trace c).

Definition set_receivedFirstToken (c : Conn) : Conn :=
  mkConn (conversationID c) (connID c) (drains c) (msgChan c) (doneClosed c)
         (errChan c) (forwarding c) (ctxDone c) (clock c) (nextTick c) (tickC c)
         (tickerStopped c) (timerArmed c) (timerC c) true
         (returned c) (trace c).

(** [firstTokenTimeout.Stop()] *)
Definition stopTimer (c : Conn) : Conn :=
  emit [TimerStop]
    (set_timers (clock c) (nextTick c) (tickC c) false
                (if drains c then false else timerC c) c).

(** [return] from the loop: the deferred calls run, last registered first. *)
Definition ret (c : Conn) : Conn :=
  let c1 := stopTimer c in
  mkConn (conversationID c1) (connID c1) (drains c1) (msgChan c1) true
         (errChan c1) (forwarding c1) (ctxDone c1) (clock c1) (nextTick c1)
         (tickC c1) true (timerArmed c1) (timerC c1) (receivedFirstToken c1)
         true
         (trace c1 ++ [TickerStop; CloseDoneChan; Unsubscribe;
                       SubscriptionsDelete (connID c1)]).

(** The subscription callback, lines 316-333: no start sequence here. *)
Definition callback (p : Payload) (pickDone : bool) (c : Conn) : Conn :=
  match json_Unmarshal p with
  | None => c
  | Some token =>
      let room := (length (msgChan c) <? msgChanCap)%nat in
      if room && doneClosed c then
        if pickDone then c else set_msgChan (msgChan c ++ [token]) c
      else if room then set_msgChan (msgChan c ++ [token]) c
      else if doneClosed c then c
      else c                      (* default: warn and drop *)
  end.

Definition elapse (d : Z) (c : Conn) : Conn :=
  let now := clock c + Z.max 0 d in
  let ticks := negb (tickerStopped c) && (nextTick c <=? now) in
  let fires := timerArmed c && (firstTokenTimeoutAfter <=? now) in
  set_timers now
    (if ticks then next_tick_after (nextTick c) now else nextTick c)
    (if ticks then true else tickC c)
    (if fires then false else timerArmed c)
    (if fires then true else timerC c)
    c.

(** The forwarding goroutine, lines 359-388, once [http.Post] has returned. *)
Definition forwardDone (r : PostResult) (c : Conn) : Conn :=
  if forwarding c then
    match r with
    | TransportError msg => set_errChan (Some (PostFailed msg)) false c
    | Status code =>
        if negb (code =? StatusOK) && negb (code =? StatusAccepted)
        then set_errChan (Some (ProxyError code)) false c
        else set_errChan (errChan c) false c
    end
  else c.

(** One iteration of the loop at lines 400-449.  A case that is not ready
    cannot be picked: such a schedule entry changes nothing. *)
Definition select (k : Case) (c : Conn) : Conn :=
  if returned c then c
  else
    match k with
    | CaseCtxDone => if ctxDone c then ret c else c
    | CaseErr =>
        match errChan c with
        | Some err =>
            ret (emit [Fprintf (FError (ForwardingFailed err)); Flush]
                      (set_errChan None (forwarding c) c))
        | None => c
        end
    | CaseTimeout =>
        if timerC c then
          let c1 := set_timers (clock c) (nextTick c) (tickC c) (timerArmed c) false c in
          if negb (receivedFirstToken c1)
          then ret (emit [Fprintf (FError FirstTokenTimeout); Flush] c1)
          else c1
        else c
    | CaseMsg =>
        match msgChan c with
        | [] => c
        | token :: q =>
            let c1 := stopTimer (set_receivedFirstToken (set_msgChan q c)) in
            let c2 := emit [Fprintf (FToken (Sequence token) token); Flush] c1 in
            if Done token then ret c2 else c2
        end
    | CaseTick =>
        if tickC c
        then emit [Fprintf (FComment ": keep-alive"); Flush]
                  (set_timers (clock c) (nextTick c) false (timerArmed c) (timerC c) c)
        else c
    end.

Definition step (c : Conn) (e : Event) : Conn :=
  match e with
  | Deliver p pickDone => callback p pickDone c
  | Elapse d => elapse d c
  | ClientGone => set_ctxDone c
  | ForwardDone r => forwardDone r c
  | Select k => select k c
  end.

Definition run (sched : list Event) (c : Conn) : Conn :=
  fold_left step sched c.

(** A handler invocation that ends before the loop; [connID] is 0 as long
    as [h.connCount.Add(1)] has not run. *)
Definition stop (env : Env) (cid : string) (id : Z) (es : list Effect) : Conn :=
  mkConn cid id (stopDrains env) [] false None false
         false 0 keepAlivePeriod false false false false false true es.

(** The state in which the loop is entered. *)
Definition entered (env : Env) (cid : string) (es : list Effect) : Conn :=
  mkConn cid (wrap64 (connCount env + 1)) (stopDrains env) [] false None true
         false 0 keepAlivePeriod false false true false false false es.

Definition conversationID_of (env : Env) (req : ChatRequest) : string :=
  if String.eqb (ReqConversationID req) "" then Uuid env else ReqConversationID req.

(** The handler, lines 239-450; every event of the schedule happens after
    the forwarding goroutine has been started. *)
Definition HandleChat (cfg : Config) (env : Env) (r : Request)
    (sched : list Event) : Conn :=
  if negb (String.eqb (Method r) "POST") then
    if String.eqb (Method r) "OPTIONS" then
      stop env "" 0
        [SetHeader "Access-Control-Allow-Origin" "*";
         SetHeader "Access-Control-Allow-Methods" "POST, OPTIONS";
         SetHeader "Access-Control-Allow-Headers" "Content-Type";
         WriteHeader StatusOK]
    else stop env "" 0 [HttpError "Method not allowed" StatusMethodNotAllowed]
  else if String.eqb (LLMProxyURL cfg) "" then
    stop env "" 0 [HttpError "LLM proxy not configured" StatusServiceUnavailable]
  else
    match ReqBody r with
    | InvalidJSON _ =>
        stop env "" 0 [DecodeBody; HttpError "Invalid JSON body" StatusBadRequest]
    | Parsed chatReq =>
        if String.eqb (Message chatReq) "" then
          stop env "" 0 [DecodeBody; HttpError "message is required" StatusBadRequest]
        else
          let cid := conversationID_of env chatReq in
          let id := wrap64 (connCount env + 1) in
          if negb (CanFlush r) then
            stop env cid 0
              (DecodeBody :: sseHeaders ++
               [HttpError "SSE not supported" StatusInternalServerError])
          else if negb (SubscribeOk env) then
            stop env cid id
              (DecodeBody :: sseHeaders ++
               [ConnCountAdd id; NatsSubscribe (subject_of cid) false;
                HttpError "Failed to subscribe" StatusInternalServerError])
          else
            run sched
              (entered env cid
                 (DecodeBody :: sseHeaders ++
                  [ConnCountAdd id; NatsSubscribe (subject_of cid) true;
                   SubscriptionsStore id;
                   Fprintf (FConnected cid); Flush;
                   GoForward (String.append (TrimSuffix (LLMProxyURL cfg) "/") "/chat")
                             (Message chatReq) cid;
                   NewTicker keepAlivePeriod;
                   NewTimer firstTokenTimeoutAfter]))
    end.

End Chat.

(** ** The Redis to NATS bridge *)
Module Bridge.

Record Config := mkConfig {
  RedisAddr : string;
  RedisPassword : string;
  RedisDB : Z;
  RedisChannel : string;
  NATSUrl : string;
  InstanceID : string;
  DedupeWindowSec : Z
}.

Definition getEnv (Getenv : string -> string) (key defaultVal : string) : string :=
  if negb (String.eqb (Getenv key) "") then Getenv key else defaultVal.

(** [var i int; fmt.Sscanf(val, "%d", &i); return i] *)
Definition getEnvInt (Getenv : string -> string) (key : string) (defaultVal : Z) : Z :=
  if negb (String.eqb (Getenv key) "") then
    match Scan.Sscanf_d (Getenv key) with
    | Some i => i
    | None => 0
    end
  else defaultVal.

(** [defaultInstance] stands for [fmt.Sprintf("bridge-%d", time.Now().UnixNano())]. *)
Definition loadConfig (Getenv : string -> string) (defaultInstance : string) : Config :=
  {| RedisAddr := getEnv Getenv "REDIS_ADDR" "localhost:6379";
     RedisPassword := getEnv Getenv "REDIS_PASSWORD" "";
     RedisDB := getEnvInt Getenv "REDIS_DB" 0;
     RedisChannel := getEnv Getenv "REDIS_CHANNEL" "llm:tokens:*";
     NATSUrl := getEnv Getenv "NATS_URL" "nats://localhost:4222";
     InstanceID := getEnv Getenv "INSTANCE_ID" defaultInstance;
     DedupeWindowSec := getEnvInt Getenv "DEDUPE_WINDOW_SEC" 30 |}.

Record RedisMessage := mkRedisMessage {
  Channel : string;
  MsgPayload : Payload
}.

(** What the loop of [main] can receive: the shutdown signal, or a value
    from [msgCh] at [instant] (nanoseconds; the loop never reads a clock)
    together with the outcome [nc.Publish] will have for it. *)
Inductive Event :=
| Quit
| Receive (instant : Z) (msg : option RedisMessage) (publishOk : bool).

Record Publication := mkPublication {
  subject : string;
  data : TokenMessage           (* json.Marshal(token) *)
}.

Record State := mkState {
  msgCount : Z;
  published : list Publication; (* what reached NATS, oldest first *)
  stopped : bool
}.

(** One iteration of the loop at lines 136-181. *)
Definition step (cfg : Config) (st : State) (e : Event) : State :=
  if stopped st then st
  else
    match e with
    | Quit => mkState (msgCount st) (published st) true
    | Receive _ None _ => st
    | Receive _ (Some msg) publishOk =>
        match json_Unmarshal (MsgPayload msg) with
        | None => st
        | Some token =>
            if publishOk then
              mkState (wrap64 (msgCount st + 1))
                      (published st ++
                       [mkPublication (subject_of (ConversationID token)) token])
                      false
            else st
        end
    end.

Definition run (cfg : Config) (events : list Event) (st : State) : State :=
  fold_left (step cfg) events st.

Record Startup := mkStartup {
  RedisPingOk : bool;
  NatsConnectOk : bool;
  RedisSubscribeOk : bool
}.

(** [main]: [inl code] is [os.Exit(code)] during start-up. *)
Definition main (Getenv : string -> string) (defaultInstance : string)
    (up : Startup) (events : list Event) : Z + State :=
  let cfg := loadConfig Getenv defaultInstance in
  if negb (RedisPingOk up) then inl 1
  else if negb (NatsConnectOk up) then inl 1
  else if negb (RedisSubscribeOk up) then inl 1
  else inr (run cfg events (mkState 0 [] false)).

(** The pairs the bridge forwarded. *)
Definition forwarded (st : State) : list (string * Z) :=
  map (fun p => (ConversationID (data p), Sequence (data p))) (published st).

End Bridge.

(** ** The LLM stream proxy: [streamFromLLM] and [publishToken] *)
Module Proxy.

Record Choice := mkChoice {
  Content : string;               (* choice.Delta.Content *)
  FinishReason : option string
}.

Record StreamChunk := mkStreamChunk {
  Choices : list Choice
}.

(** Library functions and the surroundings: [strings.TrimSpace],
    [json.Unmarshal] into a [StreamChunk], the clock read by the n-th call
    of [publishToken], and whether its [rdb.Publish] succeeds. *)
Record World := mkWorld {
  TrimSpace : string -> string;
  Unmarshal : string -> option StreamChunk;
  UnixNano : nat -> Z;
  PublishOk : nat -> bool
}.

Inductive ReadError := EOF | OtherReadError.

(** What happens to the request to vLLM.  A response body is the lines
    [reader.ReadString] returns without error, then the error that ends it
    (a last line without a newline comes with the error and is not looked at). *)
Inductive Upstream :=
| NewRequestFailed
| DoFailed
| Response (status : Z) (lines : list string) (last : ReadError).

Record Attempt := mkAttempt {
  channel : string;
  msg : TokenMessage;
  ok : bool                       (* rdb.Publish returned no error *)
}.

(** [publishToken]: the calls so far are threaded through. *)
Definition publishToken (w : World) (conversationID token : string)
    (sequence : Z) (done : bool) (calls : list Attempt) : list Attempt :=
  let n := length calls in
  calls ++
  [mkAttempt (String.append "chat." (String.append conversationID ".tokens"))
             (mkTokenMessage conversationID token sequence done (UnixNano w n))
             (PublishOk w n)].

(** The loop over [chunk.Choices], lines 213-222; the boolean says that the
    function returned from inside it. *)
Fixpoint choices (w : World) (conversationID : string) (cs : list Choice)
    (sequence : Z) (calls : list Attempt) : bool * Z * list Attempt :=
  match cs with
  | [] => (false, sequence, calls)
  | choice :: cs' =>
      let '(sequence1, calls1) :=
        if negb (String.eqb (Content choice) "")
        then (wrap64 (sequence + 1),
              publishToken w conversationID (Content choice)
                           (wrap64 (sequence + 1)) false calls)
        else (sequence, calls) in
      match FinishReason choice with
      | Some _ =>
          (true, sequence1,
           publishToken w conversationID "[DONE]" (wrap64 (sequence1 + 1)) true calls1)
      | None => choices w conversationID cs' sequence1 calls1
      end
  end.

(** The loop over the lines of the body, lines 188-223. *)
Fixpoint readLoop (w : World) (conversationID : string) (lines : list string)
    (sequence : Z) (calls : list Attempt) : list Attempt :=
  match lines with
  | [] => calls                   (* ReadString fails: break *)
  | l :: rest =>
      let line := TrimSpace w l in
      if String.eqb line "" || negb (HasPrefix line "data: ")
      then readLoop w conversationID rest sequence calls
      else
        let data := TrimPrefix line "data: " in
        if String.eqb data "[DONE]"
        then publishToken w conversationID "[DONE]" (wrap64 (sequence + 1)) true calls
        else
          match Unmarshal w data with
          | None => readLoop w conversationID rest sequence calls
          | Some chunk =>
              match choices w conversationID (Choices chunk) sequence calls with
              | (true, _, calls1) => calls1
              | (false, sequence1, calls1) =>
                  readLoop w conversationID rest sequence1 calls1
              end
          end
  end.

Definition streamFromLLM (w : World) (conversationID message : string)
    (up : Upstream) : list Attempt :=
  match up with
  | NewRequestFailed => publishToken w conversationID "[ERROR]" 1 true []
  | DoFailed => publishToken w conversationID "[ERROR]" 1 true []
  | Response status lines _ =>
      if negb (status =? StatusOK)
      then publishToken w conversationID "[ERROR]" 1 true []
      else readLoop w conversationID lines 0 []
  end.

(** The envelopes of the conversation: every call of [publishToken]. *)
Definition envelopes (calls : list Attempt) : list TokenMessage := map msg calls.

Definition done_count (calls : list Attempt) : nat :=
  length (filter (fun t => Done t = true) (envelopes calls)).

End Proxy.

(** ** Predicates on the frames of one connection *)

Definition is_token (f : Frame) : bool :=
  match f with FToken _ _ => true | _ => false end.

Definition is_done_token (f : Frame) : bool :=
  match f with FToken _ t => Done t | _ => false end.

Definition is_error (f : Frame) : bool :=
  match f with FError _ => true | _ => false end.

Definition is_timeout_error (f : Frame) : bool :=
  match f with FError FirstTokenTimeout => true | _ => false end.

Fixpoint count (p : Frame -> bool) (fs : list Frame) : nat :=
  match fs with
  | [] => 0%nat
  | f :: fs' => ((if p f then 1 else 0) + count p fs')%nat
  end.

(** The frames written after the first token event with [done = true]. *)
Fixpoint after_done (fs : list Frame) : list Frame :=
  match fs with
  | [] => []
  | f :: fs' => if is_done_token f then fs' else after_done fs'
  end.

(** The delivery order of one connection of [HandleStream]: what has been
    written followed by what waits in the queue is a subsequence of what the
    bus delivered. *)
Definition Stream_order_inv (c : Stream.Conn) (pub : list Z) : Prop :=
  sublist (token_ids (frames (Stream.trace c)) ++ map Sequence (Stream.msgChan c)) pub.

Definition Stream_inv (c : Stream.Conn) : Prop :=
  let fs := frames (Stream.trace c) in
  (Stream.returned c = false -> count is_done_token fs = 0%nat) /\
  after_done fs = [].

Definition Chat_inv (c : Chat.Conn) : Prop :=
  let fs := frames (Chat.trace c) in
  (Chat.returned c = false ->
   count is_done_token fs = 0%nat /\ count is_error fs = 0%nat) /\
  after_done fs = [] /\
  (Chat.receivedFirstToken c = false -> count is_token fs = 0%nat) /\
  (Chat.receivedFirstToken c = true -> Chat.timerArmed c = false) /\
  ((0 < count is_timeout_error fs)%nat ->
   count is_token fs = 0%nat /\ Chat.returned c = true) /\
  (Chat.timerC c = true -> firstTokenTimeoutAfter <= Chat.clock c) /\
  (count is_error fs <= 1)%nat /\
  (Chat.receivedFirstToken c = true -> (0 < count is_token fs)%nat) /\
  (Chat.returned c = false -> Chat.receivedFirstToken c = false ->
   firstTokenTimeoutAfter <= Chat.clock c -> Chat.timerC c = true) /\
  (Chat.returned c = false -> Chat.receivedFirstToken c = false ->
   Chat.clock c < firstTokenTimeoutAfter -> Chat.timerArmed c = true).

(** ** Sample inputs *)

Definition c1_request : Stream.Request := Stream.mkRequest "/stream/c1" "5" true.
Definition c1_env : Stream.Env := Stream.mkEnv 0 true.
Definition c1_token (n : Z) : TokenMessage := mkTokenMessage "c1" "tok" n false 0.

Definition sample_getenv (key : string) : string :=
  if String.eqb key "LLM_PROXY_URL" then "http://llm-proxy:8080" else "".

Definition chat_cfg : Chat.Config := Chat.loadConfig (fun _ => None) sample_getenv.
Definition chat_env : Chat.Env := Chat.mkEnv 0 true "conv-1" false.
Definition chat_request : Chat.Request :=
  Chat.mkRequest "POST" (Chat.Parsed (Chat.mkChatRequest "hello" "")) true.
Definition chat_token (n : Z) (done : bool) : TokenMessage :=
  mkTokenMessage "conv-1" "tok" n done 0.

(** The effects the delivery loop and the deferred calls can have. *)
Definition loop_effect (e : Effect) : bool :=
  match e with
  | Fprintf (FComment _) | Fprintf (FToken _ _) | Fprintf (FError _)
  | Flush | TimerStop | TickerStop | CloseDoneChan | Unsubscribe
  | SubscriptionsDelete _ => true
  | _ => false
  end.

(** Whether a line of the vLLM body makes [streamFromLLM] publish the
    terminal envelope: a [data: [DONE]] line, or a chunk one of whose
    choices has a finish reason. *)
Definition finishes (c : Proxy.Choice) : bool :=
  match Proxy.FinishReason c with
  | Some _ => true
  | None => false
  end.

Definition line_terminates (w : Proxy.World) (l : string) : bool :=
  let line := Proxy.TrimSpace w l in
  if String.eqb line "" || negb (HasPrefix line "data: ") then false
  else
    let data := TrimPrefix line "data: " in
    if String.eqb data "[DONE]" then true
    else
      match Proxy.Unmarshal w data with
      | None => false
      | Some chunk => existsb finishes (Proxy.Choices chunk)
      end.

Fixpoint body_terminates (w : Proxy.World) (lines : list string) : bool :=
  match lines with
  | [] => false
  | l :: rest => line_terminates w l || body_terminates w rest
  end.

Definition bridge_message : Bridge.RedisMessage :=
  Bridge.mkRedisMessage "chat.c1.tokens" (Encoded (c1_token 1)).

Definition bridge_up : Bridge.Startup := Bridge.mkStartup true true true.

Definition fresh_request : Stream.Request := Stream.mkRequest "/stream/c1" "" true.

(** A burst of [n] envelopes numbered from 1, then [k] turns of the loop. *)
Definition burst (n k : nat) : list Stream.Event :=
  map (fun i => Stream.Deliver (Encoded (c1_token (Z.of_nat i))) false) (seq 1 n) ++
  repeat (Stream.Select Stream.CaseMsg) k.

(** The envelopes of a conversation are numbered 1, 2, 3, ... in the order
    of their publication (in [int64] arithmetic). *)
Definition numbered (calls : list Proxy.Attempt) : Prop :=
  map Sequence (Proxy.envelopes calls)
  = map (fun i => wrap64 (Z.of_nat i)) (seq 1 (length calls)).

Definition all_open (calls : list Proxy.Attempt) : Prop :=
  Forall (fun t => Done t = false) (Proxy.envelopes calls).

(** No envelope has [done = true], except possibly the last one. *)
Definition done_only_last (calls : list Proxy.Attempt) : Prop :=
  all_open calls \/
  exists front a, calls = front ++ [a] /\ all_open front /\ Done (Proxy.msg a) = true.

(** ** Predicates on traces *)

Fixpoint count_eff (p : Effect -> bool) (tr : list Effect) : nat :=
  match tr with
  | [] => 0%nat
  | e :: tr' => ((if p e then 1 else 0) + count_eff p tr')%nat
  end.

Definition is_subscribed (e : Effect) : bool :=
  match e with NatsSubscribe _ true => true | _ => false end.
Definition is_store (e : Effect) : bool :=
  match e with SubscriptionsStore _ => true | _ => false end.
Definition is_unsubscribe (e : Effect) : bool :=
  match e with Unsubscribe => true | _ => false end.
Definition is_delete (e : Effect) : bool :=
  match e with SubscriptionsDelete _ => true | _ => false end.
Definition is_close_done (e : Effect) : bool :=
  match e with CloseDoneChan => true | _ => false end.
Definition is_http_error (e : Effect) : bool :=
  match e with HttpError _ _ => true | _ => false end.
Definition is_forward (e : Effect) : bool :=
  match e with GoForward _ _ _ => true | _ => false end.

(** Every frame written is flushed before anything else is done:
    [pending] says that the last effect was a write not yet flushed. *)
Fixpoint flushed_from (pending : bool) (tr : list Effect) : bool :=
  match tr with
  | [] => negb pending
  | Flush :: tr' => flushed_from false tr'
  | Fprintf _ :: tr' => negb pending && flushed_from true tr'
  | _ :: tr' => negb pending && flushed_from false tr'
  end.

Definition is_keepalive (f : Frame) : bool :=
  match f with
  | FComment text => String.eqb text ": keep-alive"
  | _ => false
  end.

(** The frames the loop of [HandleStream] writes: keep-alive comments and
    token events whose id is the sequence number of their envelope. *)
Inductive stream_loop_frame : Frame -> Prop :=
| slf_keepalive : stream_loop_frame (FComment ": keep-alive")
| slf_token (t : TokenMessage) : stream_loop_frame (FToken (Sequence t) t).

(** The frames the loop of [HandleChat] writes. *)
Inductive chat_loop_frame : Frame -> Prop :=
| clf_keepalive : chat_loop_frame (FComment ": keep-alive")
| clf_token (t : TokenMessage) : chat_loop_frame (FToken (Sequence t) t)
| clf_error (cause : ErrorCause) : chat_loop_frame (FError cause).

(** The deferred calls of the two handlers. *)
Definition stream_deferred (id : Z) : list Effect :=
  [TickerStop; CloseDoneChan; Unsubscribe; SubscriptionsDelete id].

Definition chat_deferred (id : Z) : list Effect :=
  [TimerStop; TickerStop; CloseDoneChan; Unsubscribe; SubscriptionsDelete id].

(** What one event of the schedule can add to the trace of [HandleStream]. *)
Inductive Stream_appends (c c' : Stream.Conn) : list Effect -> Prop :=
| sa_nothing :
    Stream.returned c' = Stream.returned c ->
    Stream_appends c c' []
| sa_keepalive :
    Stream.returned c = false -> Stream.returned c' = false ->
    Stream.tickC c = true ->
    Stream_appends c c' [Fprintf (FComment ": keep-alive"); Flush]
| sa_token (t : TokenMessage) :
    Stream.returned c = false -> Stream.returned c' = false ->
    Done t = false ->
    Stream_appends c c' [Fprintf (FToken (Sequence t) t); Flush]
| sa_done (t : TokenMessage) :
    Stream.returned c = false -> Stream.returned c' = true ->
    Done t = true ->
    Stream_appends c c'
      ([Fprintf (FToken (Sequence t) t); Flush] ++ stream_deferred (Stream.connID c))
| sa_disconnect :
    Stream.returned c = false -> Stream.returned c' = true ->
    Stream.ctxDone c = true ->
    Stream_appends c c' (stream_deferred (Stream.connID c)).

(** The same for [HandleChat]. *)
Inductive Chat_appends (c c' : Chat.Conn) : list Effect -> Prop :=
| ca_nothing :
    Chat.returned c' = Chat.returned c ->
    Chat_appends c c' []
| ca_keepalive :
    Chat.returned c = false -> Chat.returned c' = false ->
    Chat.tickC c = true ->
    Chat_appends c c' [Fprintf (FComment ": keep-alive"); Flush]
| ca_token (t : TokenMessage) :
    Chat.returned c = false -> Chat.returned c' = false ->
    Done t = false ->
    Chat_appends c c' [TimerStop; Fprintf (FToken (Sequence t) t); Flush]
| ca_done (t : TokenMessage) :
    Chat.returned c = false -> Chat.returned c' = true ->
    Done t = true ->
    Chat_appends c c'
      ([TimerStop; Fprintf (FToken (Sequence t) t); Flush] ++ chat_deferred (Chat.connID c))
| ca_error (cause : ErrorCause) :
    Chat.returned c = false -> Chat.returned c' = true ->
    Chat_appends c c'
      ([Fprintf (FError cause); Flush] ++ chat_deferred (Chat.connID c))
| ca_disconnect :
    Chat.returned c = false -> Chat.returned c' = true ->
    Chat.ctxDone c = true ->
    Chat_appends c c' (chat_deferred (Chat.connID c)).

(** The envelopes the bus handed to the subscription of [HandleChat]. *)
Definition Chat_delivered (sched : list Chat.Event) : list TokenMessage :=
  omap (fun e => match e with
                 | Chat.Deliver (Encoded t) _ => Some t
                 | _ => None
                 end) sched.

(** The statuses of the proxy the forwarding goroutine accepts. *)
Definition forward_accepted (e : Chat.Event) : bool :=
  match e with
  | Chat.ForwardDone (TransportError _) => false
  | Chat.ForwardDone (Status code) => (code =? StatusOK) || (code =? StatusAccepted)
  | _ => true
  end.

(** The two ways [HandleStream] goes on after its checks: the answer is an
    HTTP error, or the loop is entered. *)
Definition Stream_rejected (r : Stream.Request) (id : Z) (es : list Effect) : Stream.Conn :=
  Stream.mkConn (Stream.conversationID_of r) id
                (Stream.startSequence_of (Stream.LastEventID r))
                [] false false 0 keepAlivePeriod false false true es.

Definition Stream_entered (env : Stream.Env) (r : Stream.Request) : Stream.Conn :=
  let cid := Stream.conversationID_of r in
  let id := wrap64 (Stream.connCount env + 1) in
  Stream.mkConn cid id (Stream.startSequence_of (Stream.LastEventID r))
                [] false false 0 keepAlivePeriod false false false
                (sseHeaders ++
                 [ConnCountAdd id; NatsSubscribe (subject_of cid) true;
                  SubscriptionsStore id;
                  Fprintf (FComment (String.append ": connected to " cid)); Flush;
                  NewTicker keepAlivePeriod]).

(** The effects that carry a connection id carry this one. *)
Definition names_conn (id : Z) (e : Effect) : Prop :=
  match e with
  | ConnCountAdd i | SubscriptionsStore i | SubscriptionsDelete i => i = id
  | _ => True
  end.

(** The subscription of a connection: made at most once, stored when made,
    and released (channel closed, unsubscribed, deleted) exactly when the
    handler has returned. *)
Definition lifecycle (returned : bool) (id : Z) (tr : list Effect) : Prop :=
  (count_eff is_subscribed tr <= 1)%nat /\
  count_eff is_store tr = count_eff is_subscribed tr /\
  count_eff is_unsubscribe tr
  = (if returned then count_eff is_subscribed tr else 0%nat) /\
  count_eff is_close_done tr = count_eff is_unsubscribe tr /\
  count_eff is_delete tr = count_eff is_unsubscribe tr /\
  Forall (names_conn id) tr.

(** A request is answered by one HTTP error and nothing else, or by a
    stream that opens with [first] and goes on with frames of the loop. *)
Definition answered (loop_frame : Frame -> Prop) (first : Frame)
    (returned : bool) (tr : list Effect) : Prop :=
  (count_eff is_http_error tr = 1%nat /\ frames tr = [] /\ returned = true /\
   count_eff is_subscribed tr = 0%nat /\ count_eff is_forward tr = 0%nat) \/
  (count_eff is_http_error tr = 0%nat /\
   exists rest, frames tr = first :: rest /\ Forall loop_frame rest).

(** The answer of [HandleChat] to a CORS preflight. *)
Definition preflight : list Effect :=
  [SetHeader "Access-Control-Allow-Origin" "*";
   SetHeader "Access-Control-Allow-Methods" "POST, OPTIONS";
   SetHeader "Access-Control-Allow-Headers" "Content-Type";
   WriteHeader StatusOK].

(** The frames written after the first error event. *)
Fixpoint after_error (fs : list Frame) : list Frame :=
  match fs with
  | [] => []
  | f :: fs' => if is_error f then fs' else after_error fs'
  end.

Definition is_forward_error (f : Frame) : bool :=
  match f with FError (ForwardingFailed _) => true | _ => false end.

Definition Chat_order_inv (c : Chat.Conn) (pub : list Z) : Prop :=
  sublist (token_ids (frames (Chat.trace c)) ++ map Sequence (Chat.msgChan c)) pub.

(** The number of errors waiting in [errChan]. *)
Definition waiting (ch : option ForwardError) : nat :=
  match ch with
  | Some _ => 1%nat
  | None => 0%nat
  end.

(** ** The bridge, said in one go *)

(** What an event received by the bridge contributes to NATS. *)
Definition republished (e : Bridge.Event) : option Bridge.Publication :=
  match e with
  | Bridge.Receive _ (Some m) true =>
      match json_Unmarshal (Bridge.MsgPayload m) with
      | Some token =>
          Some (Bridge.mkPublication (subject_of (ConversationID token)) token)
      | None => None
      end
  | _ => None
  end.

(** The events up to the first shutdown signal taken by the loop. *)
Fixpoint before_quit (events : list Bridge.Event) : list Bridge.Event :=
  match events with
  | [] => []
  | Bridge.Quit :: _ => []
  | e :: rest => e :: before_quit rest
  end.

Definition is_quit (e : Bridge.Event) : bool :=
  match e with Bridge.Quit => true | _ => false end.

(** ** The HTTP side of the stream proxy: [handleChat] *)
Module ProxyServer.

(** The request body, classified by what the JSON decoder makes of it; the
    proxy's [ChatRequest] has the message only. *)
Inductive Body :=
| InvalidBody (raw : string)
| ParsedBody (message : string).

Record Request := mkRequest {
  Method : string;
  ReqBody : Body
}.

Record ChatResponse := mkChatResponse {
  RespConversationID : string;
  RespStatus : string
}.

Inductive Answer :=
| Rejected (msg : string) (code : Z)      (* http.Error *)
| Accepted (resp : ChatResponse).         (* the JSON body *)

(** [handleChat]: the answer, and the arguments of the [streamFromLLM]
    goroutine it starts, if any.  [uuid] is what [uuid.New()] gives. *)
Definition handleChat (uuid : string) (r : Request) : Answer * option (string * string) :=
  if negb (String.eqb (Method r) "POST") then
    (Rejected "Method not allowed" StatusMethodNotAllowed, None)
  else
    match ReqBody r with
    | InvalidBody _ => (Rejected "Invalid request body" StatusBadRequest, None)
    | ParsedBody message =>
        if String.eqb message "" then
          (Rejected "Message is required" StatusBadRequest, None)
        else
          (Accepted (mkChatResponse uuid "streaming"), Some (uuid, message))
    end.

(** A request served to the end: the answer and everything the goroutine
    publishes, given what happens to its request to vLLM. *)
Definition serve (w : Proxy.World) (uuid : string) (r : Request)
    (up : Proxy.Upstream) : Answer * list Proxy.Attempt :=
  match handleChat uuid r with
  | (answer, Some (conversationID, message)) =>
      (answer, Proxy.streamFromLLM w conversationID message up)
  | (answer, None) => (answer, [])
  end.

End ProxyServer.

(** A world for examples: nothing to trim, nothing decodes. *)
Definition plain_world : Proxy.World :=
  Proxy.mkWorld (fun s => s) (fun _ => None) (fun _ => 0) (fun _ => true).

(** The same world with other outcomes of [rdb.Publish]. *)
Definition with_publish (w : Proxy.World) (outcome : nat -> bool) : Proxy.World :=
  Proxy.mkWorld (Proxy.TrimSpace w) (Proxy.Unmarshal w) (Proxy.UnixNano w) outcome.

(** An attempt of the conversation [cid]: on its Redis channel, carrying
    its id. *)
Definition belongs_to (cid : string) (a : Proxy.Attempt) : Prop :=
  Proxy.channel a = subject_of cid /\ ConversationID (Proxy.msg a) = cid.

(** ** From the proxy to the client *)

(** The envelopes of the token events among the frames. *)
Definition token_data (fs : list Frame) : list TokenMessage :=
  omap (fun f => match f with FToken _ t => Some t | _ => None end) fs.

(** The envelopes the bridge decoded from what it received on [msgCh]. *)
Definition Bridge_inputs (events : list Bridge.Event) : list TokenMessage :=
  omap (fun e => match e with
                 | Bridge.Receive _ (Some m) _ => json_Unmarshal (Bridge.MsgPayload m)
                 | _ => None
                 end) events.

(** The envelopes written by [HandleStream] followed by those waiting in
    the queue are a subsequence of the envelopes delivered, and every token
    event has the sequence number of its envelope as id. *)
Definition Stream_data_inv (c : Stream.Conn) (pub : list TokenMessage) : Prop :=
  sublist (token_data (frames (Stream.trace c)) ++ Stream.msgChan c) pub /\
  token_ids (frames (Stream.trace c))
  = map Sequence (token_data (frames (Stream.trace c))).


(** A world in which every [data:] line decodes to one choice whose
    content is the line's data. *)
Definition chunk_world : Proxy.World :=
  Proxy.mkWorld (fun s => s)
                (fun s => Some (Proxy.mkStreamChunk [Proxy.mkChoice s None]))
                (fun _ => 0) (fun _ => true).

(** The successful publishes of the proxy as the bridge receives them, and
    the publications of the bridge as NATS hands them to a subscription,
    each followed by a turn of the delivery loop. *)
Definition relayed (calls : list Proxy.Attempt) : list Bridge.Event :=
  map (fun a => Bridge.Receive 0
                  (Some (Bridge.mkRedisMessage (Proxy.channel a) (Encoded (Proxy.msg a))))
                  true)
      (filter (fun a => Proxy.ok a = true) calls).

Definition handed (pubs : list Bridge.Publication) : list Stream.Event :=
  flat_map (fun p => [Stream.Deliver (Encoded (Bridge.data p)) false;
                      Stream.Select Stream.CaseMsg]) pubs.


(** The request the forwarding goroutine of [HandleChat] posts, as the
    proxy's [handleChat] decodes it: the proxy's [ChatRequest] has the field
    [message] only, and the decoder skips the [conversation_id] key. *)
Definition forwarded_request (message conversationID : string) : ProxyServer.Request :=
  ProxyServer.mkRequest "POST" (ProxyServer.ParsedBody message).


(** ** [%d] of [fmt.Fprintf] on an [int64]

    [fmtInteger] writes the decimal digits of the magnitude from the least
    significant one backwards, at least one digit, and a minus sign in
    front of a negative number.  Twenty digits are enough for 64 bits. *)
Definition digit_char (d : Z) : ascii := ascii_of_nat (48 + Z.to_nat d).

Fixpoint fmtInteger (fuel : nat) (u : Z) (acc : string) : string :=
  match fuel with
  | O => acc
  | S fuel' =>
      if u <? 10 then String (digit_char u) acc
      else fmtInteger fuel' (u / 10) (String (digit_char (u mod 10)) acc)
  end.

Definition Sprintf_d (v : Z) : string :=
  if v <? 0 then String "-"%char (fmtInteger 20 (- v) "")
  else fmtInteger 20 v "".

(** A string whose leading run of digits has [k] digits and reads as the
    number [v] behind any prefix. *)
Definition reads_as (s : string) (v : Z) (k : nat) : Prop :=
  length (Scan.scanNumber s) = k /\
  forall a, Scan.magnitude a (Scan.scanNumber s) = Some (a * 10 ^ Z.of_nat k + v).

Definition starts_with_digit (s : string) : Prop :=
  exists d rest, 0 <= d < 10 /\ s = String (digit_char d) rest.


(** ** The load generator: [Stats.RecordLatency] and [runProducer] *)
Module LoadGen.

(** The [Stats] struct: eight atomic counters shared by all goroutines. *)
Record Stats := mkStats {
  TokensPublished : Z;
  TokensReceived : Z;
  ConnectionsOpened : Z;
  ConnectionsClosed : Z;
  Errors : Z;
  TotalLatencyNs : Z;
  MinLatencyNs : Z;
  MaxLatencyNs : Z
}.

(** [stats := &Stats{}] *)
Definition fresh : Stats := mkStats 0 0 0 0 0 0 0 0.

Definition set_TokensPublished (v : Z) (s : Stats) : Stats :=
  mkStats v (TokensReceived s) (ConnectionsOpened s) (ConnectionsClosed s)
          (Errors s) (TotalLatencyNs s) (MinLatencyNs s) (MaxLatencyNs s).

Definition set_Errors (v : Z) (s : Stats) : Stats :=
  mkStats (TokensPublished s) (TokensReceived s) (ConnectionsOpened s)
          (ConnectionsClosed s) v (TotalLatencyNs s) (MinLatencyNs s)
          (MaxLatencyNs s).

Definition set_TotalLatencyNs (v : Z) (s : Stats) : Stats :=
  mkStats (TokensPublished s) (TokensReceived s) (ConnectionsOpened s)
          (ConnectionsClosed s) (Errors s) v (MinLatencyNs s) (MaxLatencyNs s).

Definition set_MinLatencyNs (v : Z) (s : Stats) : Stats :=
  mkStats (TokensPublished s) (TokensReceived s) (ConnectionsOpened s)
          (ConnectionsClosed s) (Errors s) (TotalLatencyNs s) v (MaxLatencyNs s).

Definition set_MaxLatencyNs (v : Z) (s : Stats) : Stats :=
  mkStats (TokensPublished s) (TokensReceived s) (ConnectionsOpened s)
          (ConnectionsClosed s) (Errors s) (TotalLatencyNs s) (MinLatencyNs s) v.

(** Where a call of [RecordLatency] stands: before the [Add] of line 45,
    before the [Load] of the first loop (line 49), before its
    [CompareAndSwap] with the value it loaded (line 53), the same for the
    second loop (lines 60 and 64), or returned. *)
Inductive Pc :=
| AtAdd
| AtMinLoad
| AtMinCAS (current : Z)
| AtMaxLoad
| AtMaxCAS (current : Z)
| Returned.

Record Call := mkCall {
  latencyNs : Z;
  pc : Pc
}.

(** One atomic operation of a call, with the local test that follows it. *)
Definition step_call (s : Stats) (c : Call) : Stats * Call :=
  let l := latencyNs c in
  match pc c with
  | AtAdd =>
      (set_TotalLatencyNs (wrap64 (TotalLatencyNs s + l)) s, mkCall l AtMinLoad)
  | AtMinLoad =>
      let current := MinLatencyNs s in
      if negb (current =? 0) && (current <=? l)
      then (s, mkCall l AtMaxLoad)
      else (s, mkCall l (AtMinCAS current))
  | AtMinCAS current =>
      if MinLatencyNs s =? current
      then (set_MinLatencyNs l s, mkCall l AtMaxLoad)
      else (s, mkCall l AtMinLoad)
  | AtMaxLoad =>
      let current := MaxLatencyNs s in
      if l <=? current
      then (s, mkCall l Returned)
      else (s, mkCall l (AtMaxCAS current))
  | AtMaxCAS current =>
      if MaxLatencyNs s =? current
      then (set_MaxLatencyNs l s, mkCall l Returned)
      else (s, mkCall l AtMaxLoad)
  | Returned => (s, c)
  end.

(** The goroutines that are inside [RecordLatency] on the same [Stats]; a
    schedule names the call that takes the next atomic step. *)
Record Pool := mkPool {
  stats : Stats;
  calls : list Call
}.

Definition step (p : Pool) (i : nat) : Pool :=
  match calls p !! i with
  | None => p
  | Some c =>
      mkPool (fst (step_call (stats p) c)) (<[i := snd (step_call (stats p) c)]> (calls p))
  end.

Definition run (sched : list nat) (p : Pool) : Pool := fold_left step sched p.

Definition start (s : Stats) (latencies : list Z) : Pool :=
  mkPool s (map (fun l => mkCall l AtAdd) latencies).

(** A call that no other goroutine interferes with needs five steps at
    most. *)
Definition RecordLatency (latency : Z) (s : Stats) : Stats :=
  stats (run [0; 0; 0; 0; 0]%nat (start s [latency])).

(** [sampleText]: the words of the sample, split at single spaces (the
    line breaks of the raw string stay inside the words). *)
Definition newline : string := String (ascii_of_nat 10) "".

Definition sampleSource : string :=
  String.append "The quick brown fox jumps over the lazy dog."
  (String.append newline
  (String.append "This is a sample response from a large language model that simulates streaming tokens."
  (String.append newline
  (String.append "Each word is sent as a separate token with timestamps for latency measurement."
  (String.append newline
  (String.append "NATS provides excellent fan-out capabilities for distributing these tokens to edge locations."
  (String.append newline
   "The SSE adapter converts NATS messages into Server-Sent Events for browser clients."))))))).

(** [strings.Split(s, " ")] *)
Fixpoint Split (s : string) : list string :=
  match s with
  | EmptyString => [""]
  | String c s' =>
      if Ascii.eqb c " "%char then "" :: Split s'
      else
        match Split s' with
        | word :: words => String c word :: words
        | [] => [String c ""]
        end
  end.

Definition sampleText : list string := Split sampleSource.

(** The surroundings of one [runProducer]: whether [ctx.Done()] is closed
    when iteration [i] looks at it, whether its [rdb.Publish] succeeds, the
    clock it reads, and what [rand.Intn(n)] returns in it. *)
Record World := mkWorld {
  CtxDone : nat -> bool;
  PublishOk : nat -> bool;
  UnixNano : nat -> Z;
  Intn : nat -> Z -> Z
}.

Inductive Outcome :=
| Completed                       (* the loop ran to its end *)
| Cancelled                       (* return at line 211 *)
| Panicked.                       (* rand.Intn called with n <= 0 *)

Record Attempt := mkAttempt {
  channel : string;
  msg : TokenMessage;
  ok : bool                       (* rdb.Publish returned no error *)
}.

Record Producer := mkProducer {
  attempts : list Attempt;        (* calls of rdb.Publish, oldest first *)
  slept : list Z;                 (* arguments of time.Sleep, nanoseconds *)
  counters : Stats
}.

Definition Millisecond : Z := 1000000.

(** The loop of lines 208-237 from iteration [i] on, [n] iterations being
    left. *)
Fixpoint loop (w : World) (conversationID : string) (numTokens delayMs : Z)
    (n i : nat) (st : Producer) : Producer * Outcome :=
  match n with
  | O => (st, Completed)
  | S n' =>
      if CtxDone w i then (st, Cancelled)
      else
        let token :=
          mkTokenMessage conversationID
            (nth (i mod length sampleText) sampleText "")
            (wrap64 (Z.of_nat i + 1))
            (Z.of_nat i =? numTokens - 1)
            (UnixNano w i) in
        let a := mkAttempt (String.append "llm:tokens:" conversationID) token
                           (PublishOk w i) in
        if negb (PublishOk w i) then
          loop w conversationID numTokens delayMs n' (S i)
               (mkProducer (attempts st ++ [a]) (slept st)
                  (set_Errors (wrap64 (Errors (counters st) + 1)) (counters st)))
        else
          let s1 := set_TokensPublished
                      (wrap64 (TokensPublished (counters st) + 1)) (counters st) in
          if 0 <? delayMs then
            if Z.quot delayMs 2 <=? 0
            then (mkProducer (attempts st ++ [a]) (slept st) s1, Panicked)
            else
              let jitter := Intn w i (Z.quot delayMs 2) in
              loop w conversationID numTokens delayMs n' (S i)
                   (mkProducer (attempts st ++ [a])
                      (slept st ++ [wrap64 (wrap64 (delayMs + jitter) * Millisecond)])
                      s1)
          else
            loop w conversationID numTokens delayMs n' (S i)
                 (mkProducer (attempts st ++ [a]) (slept st) s1)
  end.

Definition runProducer (w : World) (conversationID : string)
    (numTokens delayMs : Z) (s : Stats) : Producer * Outcome :=
  loop w conversationID numTokens delayMs (Z.to_nat numTokens) 0
       (mkProducer [] [] s).

End LoadGen.

(** What a call of [RecordLatency] knows about the counters, given where it
    stands. *)
Definition call_ok (s : LoadGen.Stats) (c : LoadGen.Call) : Prop :=
  let l := LoadGen.latencyNs c in
  match LoadGen.pc c with
  | LoadGen.AtAdd | LoadGen.AtMinLoad => True
  | LoadGen.AtMinCAS current => current = 0 \/ l < current
  | LoadGen.AtMaxLoad =>
      LoadGen.MinLatencyNs s <> 0 /\ LoadGen.MinLatencyNs s <= l
  | LoadGen.AtMaxCAS current =>
      LoadGen.MinLatencyNs s <> 0 /\ LoadGen.MinLatencyNs s <= l /\ current < l
  | LoadGen.Returned =>
      LoadGen.MinLatencyNs s <> 0 /\ LoadGen.MinLatencyNs s <= l /\
      l <= LoadGen.MaxLatencyNs s
  end.

(** The latency a call has added to the total so far. *)
Definition added (c : LoadGen.Call) : Z :=
  match LoadGen.pc c with
  | LoadGen.AtAdd => 0
  | _ => LoadGen.latencyNs c
  end.

Definition sumZ (l : list Z) : Z := fold_right Z.add 0 l.

Definition Pool_inv (latencies : list Z) (p : LoadGen.Pool) : Prop :=
  map LoadGen.latencyNs (LoadGen.calls p) = latencies /\
  Forall (call_ok (LoadGen.stats p)) (LoadGen.calls p) /\
  (LoadGen.MinLatencyNs (LoadGen.stats p) = 0 \/
   In (LoadGen.MinLatencyNs (LoadGen.stats p)) latencies) /\
  (LoadGen.MaxLatencyNs (LoadGen.stats p) = 0 \/
   In (LoadGen.MaxLatencyNs (LoadGen.stats p)) latencies) /\
  LoadGen.TotalLatencyNs (LoadGen.stats p)
  = wrap64 (sumZ (map added (LoadGen.calls p))).


(** The number of atomic steps a call of [RecordLatency] still needs when
    no other goroutine writes in between. *)
Definition rank (s : LoadGen.Stats) (c : LoadGen.Call) : nat :=
  match LoadGen.pc c with
  | LoadGen.AtAdd => 5
  | LoadGen.AtMinLoad => 4
  | LoadGen.AtMinCAS current => if LoadGen.MinLatencyNs s =? current then 3 else 5
  | LoadGen.AtMaxLoad => 2
  | LoadGen.AtMaxCAS current => if LoadGen.MaxLatencyNs s =? current then 1 else 3
  | LoadGen.Returned => 0
  end.


(** The publish [runProducer] makes in iteration [i]. *)
Definition producer_attempt (w : LoadGen.World) (conversationID : string)
    (numTokens : Z) (i : nat) : LoadGen.Attempt :=
  LoadGen.mkAttempt
    (String.append "llm:tokens:" conversationID)
    (mkTokenMessage conversationID
       (nth (i mod length LoadGen.sampleText) LoadGen.sampleText "")
       (wrap64 (Z.of_nat i + 1))
       (Z.of_nat i =? numTokens - 1)
       (LoadGen.UnixNano w i))
    (LoadGen.PublishOk w i).

(** How many of the publishes succeeded, and how many failed. *)
Definition succeeded (l : list LoadGen.Attempt) : Z :=
  sumZ (map (fun a => if LoadGen.ok a then 1 else 0) l).

Definition failed (l : list LoadGen.Attempt) : Z :=
  sumZ (map (fun a => if LoadGen.ok a then 0 else 1) l).

(** A world for examples: nobody cancels, every publish succeeds, no
    jitter. *)
Definition calm : LoadGen.World :=
  LoadGen.mkWorld (fun _ => false) (fun _ => true) (fun _ => 0) (fun _ _ => 0).


(** No envelope follows one that has [done = true]. *)
Definition done_last (ts : list TokenMessage) : Prop :=
  forall pre t post, ts = pre ++ t :: post -> Done t = true -> post = [].

(** The token event written for an envelope. *)
Definition token_event (t : TokenMessage) : Frame := FToken (Sequence t) t.






(** * Properties *)

(** ** Lists of frames and of sequence numbers *)

Lemma frames_app (a b : list Effect) : frames (a ++ b) = frames a ++ frames b.
Proof. unfold frames. apply omap_app. Qed.

Lemma token_ids_app (a b : list Frame) :
  token_ids (a ++ b) = token_ids a ++ token_ids b.
Proof. unfold token_ids. apply omap_app. Qed.

Lemma sublist_Forall {A} (P : A -> Prop) (l k : list A) :
  sublist l k -> Forall P k -> Forall P l.
Proof.
  induction 1 as [|x l k _ IH|x l k _ IH]; intros HF.
  - constructor.
  - inversion HF; subst. constructor; auto.
  - inversion HF; subst. auto.
Qed.

Lemma sublist_StronglySorted {A} (R : A -> A -> Prop) (l k : list A) :
  sublist l k -> StronglySorted R k -> StronglySorted R l.
Proof.
  induction 1 as [|x l k Hs IH|x l k Hs IH]; intros HS.
  - constructor.
  - inversion HS; subst. constructor; [auto|].
    eapply sublist_Forall; eauto.
  - inversion HS; subst. auto.
Qed.

Lemma StronglySorted_lt_NoDup (l : list Z) : StronglySorted Z.lt l -> NoDup l.
Proof.
  induction 1 as [|x l _ IH HF]; constructor; [|exact IH].
  intros Hin. rewrite Forall_forall in HF. specialize (HF _ Hin). lia.
Qed.

(** ** [HandleStream] *)

Lemma Stream_run_app (s1 s2 : list Stream.Event) (c : Stream.Conn) :
  Stream.run (s1 ++ s2) c = Stream.run s2 (Stream.run s1 c).
Proof. unfold Stream.run. apply fold_left_app. Qed.

Lemma Stream_run_cons (e : Stream.Event) (s : list Stream.Event) (c : Stream.Conn) :
  Stream.run (e :: s) c = Stream.run s (Stream.step c e).
Proof. reflexivity. Qed.

(** The cut-off of the subscription filter, as the code has it: with a
    positive [startSequence], exactly the envelopes up to and including it
    are dropped. *)
Lemma Stream_callback_filter (t : TokenMessage) (pick : bool) (c : Stream.Conn) :
  0 < Stream.startSequence c ->
  Sequence t <= Stream.startSequence c ->
  Stream.callback (Encoded t) pick c = c.
Proof.
  intros Hpos Hle. unfold Stream.callback. simpl.
  destruct (Z.ltb_spec 0 (Stream.startSequence c)); [|lia].
  destruct (Z.leb_spec (Sequence t) (Stream.startSequence c)); [|lia].
  reflexivity.
Qed.

Lemma Stream_callback_pass (t : TokenMessage) (c : Stream.Conn) :
  Stream.startSequence c < Sequence t ->
  Stream.doneClosed c = false ->
  (length (Stream.msgChan c) < msgChanCap)%nat ->
  Stream.msgChan (Stream.callback (Encoded t) false c) = Stream.msgChan c ++ [t].
Proof.
  intros Hlt Hd Hroom. unfold Stream.callback. simpl.
  destruct (Z.leb_spec (Sequence t) (Stream.startSequence c)); [lia|].
  rewrite andb_false_r, Hd, andb_false_r.
  destruct (Nat.ltb_spec (length (Stream.msgChan c)) msgChanCap); [|lia].
  reflexivity.
Qed.

Lemma Stream_startSequence_of_scanned (h : string) (n : Z) :
  h <> "" ->
  Scan.Sscanf_d h = Some n ->
  0 <= n < 2^63 - 1 ->
  Stream.startSequence_of h = n + 1.
Proof.
  intros Hne Hscan Hn. unfold Stream.startSequence_of.
  destruct (String.eqb_spec h ""); [contradiction|].
  rewrite Hscan. unfold wrap64.
  rewrite Z.mod_small by lia. lia.
Qed.

(** C1 (the code departs from the specification).  A client that saw event 5
    reconnects with [Last-Event-ID: 5]; [startSequence] becomes 6 and the
    filter [token.Sequence <= startSequence] then drops envelope 6 as well,
    the first one the client has not seen: with envelopes 6 and 7 delivered
    and two turns of the loop, only event 7 is written. *)
Theorem C1_resume_skips_next_envelope :
  Stream.startSequence_of (Stream.LastEventID c1_request) = 6 /\
  frames (Stream.trace
            (Stream.HandleStream c1_env c1_request
               [Stream.Deliver (Encoded (c1_token 6)) false;
                Stream.Deliver (Encoded (c1_token 7)) false;
                Stream.Select Stream.CaseMsg;
                Stream.Select Stream.CaseMsg]))
  = [FComment ": connected to c1"; FToken 7 (c1_token 7)].
Proof. split; vm_compute; reflexivity. Qed.

Lemma Stream_trace_ret (c : Stream.Conn) :
  frames (Stream.trace (Stream.ret c)) = frames (Stream.trace c).
Proof. unfold Stream.ret. simpl. rewrite frames_app. simpl. apply app_nil_r. Qed.

Lemma Stream_step_order (c : Stream.Conn) (e : Stream.Event) (pub : list Z) :
  Stream_order_inv c pub ->
  Stream_order_inv (Stream.step c e) (pub ++ map Sequence (Stream.delivered [e])).
Proof.
  unfold Stream_order_inv. intros H.
  assert (Hkeep : forall k, sublist
            (token_ids (frames (Stream.trace c)) ++ map Sequence (Stream.msgChan c))
            (pub ++ k)) by (intros k; apply sublist_inserts_r; exact H).
  assert (Hpush : forall t, sublist
            (token_ids (frames (Stream.trace c)) ++
             map Sequence (Stream.msgChan c ++ [t]))
            (pub ++ [Sequence t])).
  { intros t. rewrite map_app, app_assoc. apply sublist_app; [exact H|]. 
    simpl. reflexivity. }
  destruct e as [p pick|d| |k]; simpl.
  - destruct p as [raw|t]; simpl; [apply Hkeep|].
    unfold Stream.callback; simpl.
    repeat match goal with
           | |- context [if ?b then _ else _] => destruct b
           end; simpl; first [apply Hpush | apply Hkeep].
  - unfold Stream.elapse.
    destruct (negb _ && _); simpl; apply Hkeep.
  - apply Hkeep.
  - rewrite app_nil_r. unfold Stream.select.
    destruct (Stream.returned c); [exact H|].
    destruct k.
    + destruct (Stream.ctxDone c); [|exact H].
      rewrite Stream_trace_ret. exact H.
    + destruct (Stream.msgChan c) as [|t q] eqn:Hq; [rewrite Hq; exact H|].
      assert (Hgoal : sublist
                (token_ids (frames (Stream.trace c ++
                   [Fprintf (FToken (Sequence t) t); Flush])) ++ map Sequence q) pub).
      { rewrite frames_app, token_ids_app. simpl. rewrite <- app_assoc. exact H. }
      destruct (Done t); [rewrite Stream_trace_ret|]; simpl; exact Hgoal.
    + destruct (Stream.tickC c); [|exact H]. simpl.
      rewrite frames_app, token_ids_app. simpl. rewrite app_nil_r. exact H.
Qed.

Lemma Stream_delivered_app (s1 s2 : list Stream.Event) :
  Stream.delivered (s1 ++ s2) = Stream.delivered s1 ++ Stream.delivered s2.
Proof. unfold Stream.delivered. apply omap_app. Qed.

Lemma Stream_run_order (sched : list Stream.Event) (c : Stream.Conn) (pub : list Z) :
  Stream_order_inv c pub ->
  Stream_order_inv (Stream.run sched c) (pub ++ map Sequence (Stream.delivered sched)).
Proof.
  revert c pub. induction sched as [|e sched IH]; intros c pub H.
  - simpl. rewrite app_nil_r. exact H.
  - change (e :: sched) with ([e] ++ sched).
    rewrite Stream_delivered_app, map_app, app_assoc.
    apply (IH (Stream.step c e)). apply Stream_step_order. exact H.
Qed.

Lemma Stream_handle_order (env : Stream.Env) (r : Stream.Request)
    (sched : list Stream.Event) :
  Stream_order_inv (Stream.HandleStream env r sched)
                   (map Sequence (Stream.delivered sched)).
Proof.
  unfold Stream.HandleStream.
  destruct (String.eqb _ ""); [apply sublist_nil_l|].
  destruct (negb (Stream.CanFlush r)); [apply sublist_nil_l|].
  destruct (negb (Stream.SubscribeOk env)); [apply sublist_nil_l|].
  apply (Stream_run_order sched _ []). apply sublist_nil_l.
Qed.

(** C3.  Whatever the schedule, when the envelopes handed to the
    subscription carry strictly increasing sequence numbers, the ids of the
    token events written to the client are a subsequence of them (envelopes
    may be missing, none is moved), strictly increasing and free of
    duplicates. *)
Theorem C3_token_ids_ordered (env : Stream.Env) (r : Stream.Request)
    (sched : list Stream.Event) :
  StronglySorted Z.lt (map Sequence (Stream.delivered sched)) ->
  let ids := token_ids (frames (Stream.trace (Stream.HandleStream env r sched))) in
  sublist ids (map Sequence (Stream.delivered sched)) /\
  StronglySorted Z.lt ids /\
  NoDup ids.
Proof.
  intros Hsorted ids.
  assert (Hsub : sublist ids (map Sequence (Stream.delivered sched))).
  { pose proof (Stream_handle_order env r sched) as H.
    unfold Stream_order_inv in H.
    etransitivity; [|exact H]. apply sublist_inserts_r. reflexivity. }
  assert (Hs : StronglySorted Z.lt ids) by (eapply sublist_StronglySorted; eauto).
  split; [exact Hsub|]. split; [exact Hs|]. apply StronglySorted_lt_NoDup; exact Hs.
Qed.

(** ** Counting frames *)

Lemma count_app (p : Frame -> bool) (a b : list Frame) :
  count p (a ++ b) = (count p a + count p b)%nat.
Proof. induction a as [|f a IH]; simpl; [reflexivity|rewrite IH; lia]. Qed.

Lemma count_timeout_le_error (fs : list Frame) :
  (count is_timeout_error fs <= count is_error fs)%nat.
Proof.
  induction fs as [|f fs IH]; simpl; [lia|].
  destruct f as [| | |[]]; simpl; lia.
Qed.


Lemma count_pos_In (p : Frame -> bool) (f : Frame) (fs : list Frame) :
  In f fs -> p f = true -> (0 < count p fs)%nat.
Proof.
  induction fs as [|g fs IH]; simpl; [tauto|].
  intros [->|Hin] Hp; [rewrite Hp; lia|].
  specialize (IH Hin Hp). lia.
Qed.

Lemma after_done_app (fs l : list Frame) :
  count is_done_token fs = 0%nat -> after_done (fs ++ l) = after_done l.
Proof.
  induction fs as [|f fs IH]; simpl; [reflexivity|].
  destruct (is_done_token f); [lia|]. exact IH.
Qed.

Lemma after_done_one (f : Frame) : after_done [f] = [].
Proof. simpl. destruct (is_done_token f); reflexivity. Qed.

Lemma after_done_nil_split (fs pre post : list Frame) (id : Z) (t : TokenMessage) :
  after_done fs = [] ->
  fs = pre ++ FToken id t :: post ->
  Done t = true ->
  post = [].
Proof.
  intros Hnil -> Hd. induction pre as [|f pre IH]; simpl in Hnil.
  - rewrite Hd in Hnil. exact Hnil.
  - destruct (is_done_token f); [|exact (IH Hnil)].
    destruct pre; discriminate.
Qed.

(** ** The loop invariant of [HandleStream] *)

Lemma Stream_step_inv (c : Stream.Conn) (e : Stream.Event) :
  Stream_inv c -> Stream_inv (Stream.step c e).
Proof.
  unfold Stream_inv. intros [Hrun Hafter].
  destruct e as [p pick|d| |k]; simpl.
  - unfold Stream.callback.
    destruct (json_Unmarshal p); [|auto].
    repeat match goal with
           | |- context [if ?b then _ else _] => destruct b
           end; simpl; auto.
  - unfold Stream.elapse. destruct (negb _ && _); simpl; auto.
  - auto.
  - unfold Stream.select.
    destruct (Stream.returned c) eqn:Hret; [rewrite Hret; auto|].
    specialize (Hrun eq_refl).
    destruct k.
    + destruct (Stream.ctxDone c); [|rewrite Hret; auto].
      rewrite Stream_trace_ret. simpl. split; [discriminate|exact Hafter].
    + destruct (Stream.msgChan c) as [|t q]; [rewrite Hret; auto|].
      destruct (Done t) eqn:Hd.
      * rewrite Stream_trace_ret. simpl. split; [discriminate|].
        rewrite frames_app, after_done_app by exact Hrun. simpl.
        rewrite Hd. reflexivity.
      * simpl. rewrite frames_app, count_app, after_done_app by exact Hrun.
        simpl. rewrite Hd, Hrun. auto.
    + destruct (Stream.tickC c); [|rewrite Hret; auto]. simpl.
      rewrite frames_app, count_app, after_done_app by exact Hrun.
      simpl. rewrite Hrun. auto.
Qed.

Lemma Stream_run_inv (sched : list Stream.Event) (c : Stream.Conn) :
  Stream_inv c -> Stream_inv (Stream.run sched c).
Proof.
  revert c. induction sched as [|e sched IH]; intros c H; [exact H|].
  simpl. apply IH. apply Stream_step_inv. exact H.
Qed.

Lemma Stream_handle_inv (env : Stream.Env) (r : Stream.Request)
    (sched : list Stream.Event) :
  Stream_inv (Stream.HandleStream env r sched).
Proof.
  unfold Stream.HandleStream.
  destruct (String.eqb _ ""); [split; [discriminate|reflexivity]|].
  destruct (negb (Stream.CanFlush r)); [split; [discriminate|reflexivity]|].
  destruct (negb (Stream.SubscribeOk env)); [split; [discriminate|reflexivity]|].
  apply Stream_run_inv. split; reflexivity.
Qed.

(** Once the handler has returned, nothing more is written. *)
Lemma Stream_step_returned (c : Stream.Conn) (e : Stream.Event) :
  Stream.returned c = true ->
  Stream.returned (Stream.step c e) = true /\
  Stream.trace (Stream.step c e) = Stream.trace c.
Proof.
  intros Hret. destruct e as [p pick|d| |k]; simpl.
  - unfold Stream.callback.
    destruct (json_Unmarshal p); [|auto].
    repeat match goal with
           | |- context [if ?b then _ else _] => destruct b
           end; simpl; auto.
  - unfold Stream.elapse. destruct (negb _ && _); simpl; auto.
  - auto.
  - unfold Stream.select. rewrite Hret. auto.
Qed.

Lemma Stream_run_returned (sched : list Stream.Event) (c : Stream.Conn) :
  Stream.returned c = true ->
  Stream.returned (Stream.run sched c) = true /\
  Stream.trace (Stream.run sched c) = Stream.trace c.
Proof.
  revert c. induction sched as [|e sched IH]; intros c Hret; [auto|].
  simpl. destruct (Stream_step_returned c e Hret) as [H1 H2].
  destruct (IH _ H1) as [H3 H4]. split; [exact H3|congruence].
Qed.

(** A run that is still in the loop went through the subscription. *)
Lemma Stream_handle_split (env : Stream.Env) (r : Stream.Request)
    (s1 s2 : list Stream.Event) :
  Stream.returned (Stream.HandleStream env r s1) = false ->
  Stream.HandleStream env r (s1 ++ s2) =
  Stream.run s2 (Stream.HandleStream env r s1).
Proof.
  unfold Stream.HandleStream.
  destruct (String.eqb _ ""); [discriminate|].
  destruct (negb (Stream.CanFlush r)); [discriminate|].
  destruct (negb (Stream.SubscribeOk env)); [discriminate|].
  intros _. apply Stream_run_app.
Qed.

(** ** The loop invariant of [HandleChat] *)

Lemma Chat_run_app (s1 s2 : list Chat.Event) (c : Chat.Conn) :
  Chat.run (s1 ++ s2) c = Chat.run s2 (Chat.run s1 c).
Proof. unfold Chat.run. apply fold_left_app. Qed.

Lemma Chat_run_cons (e : Chat.Event) (s : list Chat.Event) (c : Chat.Conn) :
  Chat.run (e :: s) c = Chat.run s (Chat.step c e).
Proof. reflexivity. Qed.

Lemma Chat_trace_ret (c : Chat.Conn) :
  frames (Chat.trace (Chat.ret c)) = frames (Chat.trace c).
Proof.
  unfold Chat.ret, Chat.stopTimer. simpl. rewrite !frames_app. simpl.
  rewrite !app_nil_r. reflexivity.
Qed.

Lemma Chat_step_returned (c : Chat.Conn) (e : Chat.Event) :
  Chat.returned c = true ->
  Chat.returned (Chat.step c e) = true /\
  Chat.trace (Chat.step c e) = Chat.trace c.
Proof.
  intros Hret. destruct e as [p pick|d| |res|k]; simpl.
  - unfold Chat.callback.
    destruct (json_Unmarshal p); [|auto].
    repeat match goal with
           | |- context [if ?b then _ else _] => destruct b
           end; simpl; auto.
  - auto.
  - auto.
  - unfold Chat.forwardDone.
    destruct (Chat.forwarding c); [|auto].
    destruct res; [simpl; auto|].
    destruct (negb _ && negb _); simpl; auto.
  - unfold Chat.select. rewrite Hret. auto.
Qed.

Lemma Chat_run_returned (sched : list Chat.Event) (c : Chat.Conn) :
  Chat.returned c = true ->
  Chat.returned (Chat.run sched c) = true /\
  Chat.trace (Chat.run sched c) = Chat.trace c.
Proof.
  revert c. induction sched as [|e sched IH]; intros c Hret; [auto|].
  simpl. destruct (Chat_step_returned c e Hret) as [H1 H2].
  destruct (IH _ H1) as [H3 H4]. split; [exact H3|congruence].
Qed.

Local Ltac chat_close :=
  repeat split; intros;
  repeat match goal with
         | H : context [if Chat.drains ?c then _ else _] |- _ =>
             destruct (Chat.drains c)
         | |- context [if Chat.drains ?c then _ else _] =>
             destruct (Chat.drains c)
         end;
  repeat match goal with
         | H : ?A -> _, H' : ?A |- _ => specialize (H H')
         end;
  try tauto; try discriminate; try lia; try congruence; auto.

Lemma Chat_step_inv (c : Chat.Conn) (e : Chat.Event) :
  Chat_inv c -> Chat_inv (Chat.step c e).
Proof.
  unfold Chat_inv. intros (Hrun & Hafter & Hfirst & Harmed & Htimeout & Hfired & Hone & Hsome & Hready & Hwait).
  destruct e as [p pick|d| |res|k]; simpl.
  - unfold Chat.callback.
    destruct (json_Unmarshal p); [|tauto].
    repeat match goal with
           | |- context [if ?b then _ else _] => destruct b
           end; simpl; tauto.
  - assert (Hnow : Chat.clock c <= Chat.clock c + Z.max 0 d) by lia.
    destruct (Chat.timerArmed c) eqn:Ha;
      destruct (Z.leb_spec firstTokenTimeoutAfter (Chat.clock c + Z.max 0 d));
      simpl; repeat split; intros; try tauto; try lia; try congruence.
    + specialize (Hfired ltac:(assumption)). lia.
    + apply Hready; try assumption.
      destruct (Z.lt_ge_cases (Chat.clock c) firstTokenTimeoutAfter) as [Hlt|Hge];
        [|exact Hge].
      specialize (Hwait ltac:(assumption) ltac:(assumption) Hlt). congruence.
    + specialize (Hfired ltac:(assumption)). lia.
    + apply Hwait; try assumption. lia.
  - tauto.
  - unfold Chat.forwardDone.
    destruct (Chat.forwarding c); [|tauto].
    destruct res; [simpl; tauto|].
    destruct (negb _ && negb _); simpl; tauto.
  - unfold Chat.select.
    destruct (Chat.returned c) eqn:Hret; [rewrite Hret; tauto|].
    destruct (Hrun eq_refl) as [Hnodone Hnoerr].
    assert (Hnotimeout : count is_timeout_error (frames (Chat.trace c)) = 0%nat).
    { pose proof (count_timeout_le_error (frames (Chat.trace c))). lia. }
    destruct k.
    + destruct (Chat.ctxDone c); [|rewrite Hret; tauto].
      rewrite Chat_trace_ret. simpl.
      chat_close.
    + destruct (Chat.errChan c) as [err|]; [|rewrite Hret; tauto].
      rewrite Chat_trace_ret. simpl.
      rewrite frames_app, !count_app, after_done_app by exact Hnodone. simpl.
      chat_close.
    + destruct (Chat.timerC c) eqn:HtC; [|rewrite Hret, HtC; tauto].
      simpl. destruct (Chat.receivedFirstToken c) eqn:Hf; simpl.
      * rewrite Hret. chat_close.
      * rewrite !frames_app, !count_app. simpl.
        rewrite ?app_nil_r, ?count_app, after_done_app by exact Hnodone. simpl.
        specialize (Hfirst eq_refl).
        chat_close.
    + destruct (Chat.msgChan c) as [|t q]; [rewrite Hret; tauto|].
      destruct (Done t) eqn:Hd.
      * rewrite Chat_trace_ret. simpl.
        rewrite !frames_app, !count_app. simpl.
        rewrite ?app_nil_r, ?count_app, after_done_app by exact Hnodone. simpl.
        rewrite Hd.
        chat_close.
      * simpl. rewrite Hret.
        rewrite !frames_app, !count_app. simpl.
        rewrite ?app_nil_r, ?count_app, after_done_app by exact Hnodone. simpl.
        rewrite Hd.
        chat_close.
    + destruct (Chat.tickC c); [|rewrite Hret; tauto]. simpl. rewrite Hret.
      rewrite frames_app, !count_app, after_done_app by exact Hnodone. simpl.
      chat_close.
Qed.

Lemma Chat_run_inv (sched : list Chat.Event) (c : Chat.Conn) :
  Chat_inv c -> Chat_inv (Chat.run sched c).
Proof.
  revert c. induction sched as [|e sched IH]; intros c H; [exact H|].
  simpl. apply IH. apply Chat_step_inv. exact H.
Qed.

Lemma Chat_stop_inv (env : Chat.Env) (cid : string) (id : Z) (es : list Effect) :
  frames es = [] -> Chat_inv (Chat.stop env cid id es).
Proof.
  intros Hes. unfold Chat_inv. simpl. rewrite Hes. simpl.
  repeat split; intros; try discriminate; try lia; auto.
Qed.

Lemma Chat_handle_inv (cfg : Chat.Config) (env : Chat.Env) (r : Chat.Request)
    (sched : list Chat.Event) :
  Chat_inv (Chat.HandleChat cfg env r sched).
Proof.
  unfold Chat.HandleChat.
  destruct (negb (String.eqb (Chat.Method r) "POST")).
  { destruct (String.eqb (Chat.Method r) "OPTIONS");
      apply Chat_stop_inv; reflexivity. }
  destruct (String.eqb (Chat.LLMProxyURL cfg) "");
    [apply Chat_stop_inv; reflexivity|].
  destruct (Chat.ReqBody r) as [raw|chatReq]; [apply Chat_stop_inv; reflexivity|].
  destruct (String.eqb (Chat.Message chatReq) "");
    [apply Chat_stop_inv; reflexivity|].
  destruct (negb (Chat.CanFlush r)); [apply Chat_stop_inv; reflexivity|].
  destruct (negb (Chat.SubscribeOk env)); [apply Chat_stop_inv; reflexivity|].
  apply Chat_run_inv. unfold Chat_inv, firstTokenTimeoutAfter, Second. simpl.
  repeat split; intros; try discriminate; try lia; auto.
Qed.

Lemma Chat_handle_split (cfg : Chat.Config) (env : Chat.Env) (r : Chat.Request)
    (s1 s2 : list Chat.Event) :
  Chat.returned (Chat.HandleChat cfg env r s1) = false ->
  Chat.HandleChat cfg env r (s1 ++ s2) =
  Chat.run s2 (Chat.HandleChat cfg env r s1).
Proof.
  unfold Chat.HandleChat.
  destruct (negb (String.eqb (Chat.Method r) "POST")).
  { destruct (String.eqb (Chat.Method r) "OPTIONS"); discriminate. }
  destruct (String.eqb (Chat.LLMProxyURL cfg) ""); [discriminate|].
  destruct (Chat.ReqBody r) as [raw|chatReq]; [discriminate|].
  destruct (String.eqb (Chat.Message chatReq) ""); [discriminate|].
  destruct (negb (Chat.CanFlush r)); [discriminate|].
  destruct (negb (Chat.SubscribeOk env)); [discriminate|].
  intros _. apply Chat_run_app.
Qed.

(** ** The terminal envelope *)

(** C7.  In both handlers: when the loop takes an envelope with
    [done = true] from the queue it writes the token event for it and
    returns; and, whatever the schedule, a token event whose envelope has
    [done = true] is the last frame written on the connection (no token,
    keep-alive or error event follows it) and the handler has returned. *)
Theorem C7_done_event_is_last :
  (forall env r sched t q,
      let c := Stream.HandleStream env r sched in
      Stream.returned c = false ->
      Stream.msgChan c = t :: q ->
      Done t = true ->
      let c' := Stream.step c (Stream.Select Stream.CaseMsg) in
      frames (Stream.trace c') = frames (Stream.trace c) ++ [FToken (Sequence t) t] /\
      Stream.returned c' = true) /\
  (forall cfg env r sched t q,
      let c := Chat.HandleChat cfg env r sched in
      Chat.returned c = false ->
      Chat.msgChan c = t :: q ->
      Done t = true ->
      let c' := Chat.step c (Chat.Select Chat.CaseMsg) in
      frames (Chat.trace c') = frames (Chat.trace c) ++ [FToken (Sequence t) t] /\
      Chat.returned c' = true) /\
  (forall env r sched pre id t post,
      frames (Stream.trace (Stream.HandleStream env r sched))
      = pre ++ FToken id t :: post ->
      Done t = true ->
      post = [] /\ Stream.returned (Stream.HandleStream env r sched) = true) /\
  (forall cfg env r sched pre id t post,
      frames (Chat.trace (Chat.HandleChat cfg env r sched))
      = pre ++ FToken id t :: post ->
      Done t = true ->
      post = [] /\ Chat.returned (Chat.HandleChat cfg env r sched) = true).
Proof.
  split; [|split; [|split]].
  - intros env r sched t q c Hret Hq Hd c'. subst c'.
    unfold Stream.step, Stream.select. rewrite Hret, Hq, Hd.
    rewrite Stream_trace_ret. simpl. rewrite frames_app. auto.
  - intros cfg env r sched t q c Hret Hq Hd c'. subst c'.
    unfold Chat.step, Chat.select. rewrite Hret, Hq, Hd.
    rewrite Chat_trace_ret. simpl. rewrite !frames_app. simpl.
    rewrite app_nil_r. auto.
  - intros env r sched pre id t post Hfs Hd.
    destruct (Stream_handle_inv env r sched) as [Hrun Hafter].
    split; [eapply after_done_nil_split; eauto|].
    destruct (Stream.returned _) eqn:Hret; [reflexivity|].
    specialize (Hrun eq_refl).
    assert (0 < count is_done_token
                  (frames (Stream.trace (Stream.HandleStream env r sched))))%nat.
    { apply (count_pos_In _ (FToken id t)); [|exact Hd].
      rewrite Hfs. apply in_or_app. right. left. reflexivity. }
    lia.
  - intros cfg env r sched pre id t post Hfs Hd.
    destruct (Chat_handle_inv cfg env r sched) as (Hrun & Hafter & _).
    split; [eapply after_done_nil_split; eauto|].
    destruct (Chat.returned _) eqn:Hret; [reflexivity|].
    destruct (Hrun eq_refl) as [Hnodone _].
    assert (0 < count is_done_token
                  (frames (Chat.trace (Chat.HandleChat cfg env r sched))))%nat.
    { apply (count_pos_In _ (FToken id t)); [|exact Hd].
      rewrite Hfs. apply in_or_app. right. left. reflexivity. }
    lia.
Qed.

Lemma C7_done_event_is_last_witness :
  let sched := [Chat.Deliver (Encoded (chat_token 1 true)) false;
                Chat.Select Chat.CaseMsg;
                Chat.Elapse keepAlivePeriod;
                Chat.Select Chat.CaseTick;
                Chat.Deliver (Encoded (chat_token 2 false)) false;
                Chat.Select Chat.CaseMsg] in
  frames (Chat.trace (Chat.HandleChat chat_cfg chat_env chat_request sched))
  = [FConnected "conv-1"] ++ FToken 1 (chat_token 1 true) :: [] /\
  Done (chat_token 1 true) = true /\
  ([] = @nil Frame /\
   Chat.returned (Chat.HandleChat chat_cfg chat_env chat_request sched) = true).
Proof.
  intros sched.
  split; [vm_compute; reflexivity|].
  split; [reflexivity|].
  destruct C7_done_event_is_last as (_ & _ & _ & HC).
  apply (HC chat_cfg chat_env chat_request sched
            [FConnected "conv-1"] 1 (chat_token 1 true) []);
    vm_compute; reflexivity.
Defined.

(** ** Client disconnect *)

(** C9, as stated, fails: with the context already cancelled and an
    envelope in the queue, [select] may pick the envelope and write a token
    event (both handlers).  The disconnect case has no priority. *)
Lemma C9_disconnect_not_preferred :
  (let c := Stream.HandleStream c1_env c1_request
              [Stream.Deliver (Encoded (c1_token 7)) false; Stream.ClientGone] in
   Stream.ctxDone c = true /\ Stream.returned c = false /\
   frames (Stream.trace (Stream.step c (Stream.Select Stream.CaseMsg)))
   = frames (Stream.trace c) ++ [FToken 7 (c1_token 7)]) /\
  (let c := Chat.HandleChat chat_cfg chat_env chat_request
              [Chat.Deliver (Encoded (chat_token 1 false)) false; Chat.ClientGone] in
   Chat.ctxDone c = true /\ Chat.returned c = false /\
   frames (Chat.trace (Chat.step c (Chat.Select Chat.CaseMsg)))
   = frames (Chat.trace c) ++ [FToken 1 (chat_token 1 false)]).
Proof. repeat split; vm_compute; reflexivity. Qed.

(** C9, amended.  In both handlers the disconnect case can be taken at any
    iteration at which the context is cancelled; once it is taken the
    handler has returned and, whatever happens next, no further frame is
    written. *)
Theorem C9_disconnect_case_stops_writes :
  (forall env r s1 s2,
      let c := Stream.HandleStream env r s1 in
      Stream.returned c = false ->
      Stream.ctxDone c = true ->
      let c' := Stream.HandleStream env r
                  (s1 ++ Stream.Select Stream.CaseCtxDone :: s2) in
      Stream.returned c' = true /\
      frames (Stream.trace c') = frames (Stream.trace c)) /\
  (forall cfg env r s1 s2,
      let c := Chat.HandleChat cfg env r s1 in
      Chat.returned c = false ->
      Chat.ctxDone c = true ->
      let c' := Chat.HandleChat cfg env r
                  (s1 ++ Chat.Select Chat.CaseCtxDone :: s2) in
      Chat.returned c' = true /\
      frames (Chat.trace c') = frames (Chat.trace c)).
Proof.
  split.
  - intros env r s1 s2 c Hret Hctx c'. subst c c'.
    rewrite Stream_handle_split by exact Hret.
    rewrite Stream_run_cons. unfold Stream.step, Stream.select.
    rewrite Hret, Hctx.
    destruct (Stream_run_returned s2
                (Stream.ret (Stream.HandleStream env r s1)) eq_refl) as [H1 H2].
    split; [exact H1|]. rewrite H2. apply Stream_trace_ret.
  - intros cfg env r s1 s2 c Hret Hctx c'. subst c c'.
    rewrite Chat_handle_split by exact Hret.
    rewrite Chat_run_cons. unfold Chat.step, Chat.select.
    rewrite Hret, Hctx.
    destruct (Chat_run_returned s2
                (Chat.ret (Chat.HandleChat cfg env r s1)) eq_refl) as [H1 H2].
    split; [exact H1|]. rewrite H2. apply Chat_trace_ret.
Qed.

Lemma C9_disconnect_case_stops_writes_witness :
  let s1 := [Stream.Deliver (Encoded (c1_token 7)) false; Stream.ClientGone] in
  let s2 := [Stream.Select Stream.CaseMsg; Stream.Elapse keepAlivePeriod;
             Stream.Select Stream.CaseTick] in
  Stream.returned (Stream.HandleStream c1_env c1_request s1) = false /\
  Stream.ctxDone (Stream.HandleStream c1_env c1_request s1) = true /\
  Stream.returned (Stream.HandleStream c1_env c1_request
                     (s1 ++ Stream.Select Stream.CaseCtxDone :: s2)) = true /\
  frames (Stream.trace (Stream.HandleStream c1_env c1_request
                          (s1 ++ Stream.Select Stream.CaseCtxDone :: s2)))
  = frames (Stream.trace (Stream.HandleStream c1_env c1_request s1)).
Proof.
  intros s1 s2.
  split; [vm_compute; reflexivity|].
  split; [vm_compute; reflexivity|].
  destruct C9_disconnect_case_stops_writes as [HS _].
  apply (HS c1_env c1_request s1 s2); vm_compute; reflexivity.
Defined.

(** ** Forwarding failures *)

(** C5, as stated, fails: a forwarding failure that reaches the loop after
    the first token event still makes it write an error event and return. *)
Lemma C5_late_forwarding_failure_closes :
  let c := Chat.HandleChat chat_cfg chat_env chat_request
             [Chat.Deliver (Encoded (chat_token 1 false)) false;
              Chat.Select Chat.CaseMsg;
              Chat.ForwardDone (Status StatusInternalServerError);
              Chat.Select Chat.CaseErr] in
  frames (Chat.trace c)
  = [FConnected "conv-1"; FToken 1 (chat_token 1 false);
     FError (ForwardingFailed (ProxyError StatusInternalServerError))] /\
  Chat.returned c = true.
Proof. split; vm_compute; reflexivity. Qed.

(** C5, amended.  Whenever the loop takes an error from the error channel,
    before or after the first token, it writes one error event carrying it,
    returns, and nothing is written afterwards. *)
Theorem C5_forwarding_failure_always_closes (cfg : Chat.Config) (env : Chat.Env)
    (r : Chat.Request) (sched rest : list Chat.Event) (err : ForwardError) :
  let c := Chat.HandleChat cfg env r sched in
  Chat.returned c = false ->
  Chat.errChan c = Some err ->
  let c' := Chat.step c (Chat.Select Chat.CaseErr) in
  frames (Chat.trace c') = frames (Chat.trace c) ++ [FError (ForwardingFailed err)] /\
  Chat.returned c' = true /\
  frames (Chat.trace (Chat.run rest c')) = frames (Chat.trace c').
Proof.
  intros c Hret Herr c'. subst c'. unfold Chat.step, Chat.select.
  rewrite Hret, Herr.
  split; [|split].
  - rewrite Chat_trace_ret. simpl. rewrite frames_app. reflexivity.
  - reflexivity.
  - match goal with
    | |- context [Chat.run rest ?x] =>
        destruct (Chat_run_returned rest x eq_refl) as [_ H]; rewrite H
    end.
    reflexivity.
Qed.

Lemma C5_forwarding_failure_always_closes_witness :
  let sched := [Chat.Deliver (Encoded (chat_token 1 false)) false;
                Chat.Select Chat.CaseMsg;
                Chat.ForwardDone (TransportError "connection refused")] in
  let c := Chat.HandleChat chat_cfg chat_env chat_request sched in
  let c' := Chat.step c (Chat.Select Chat.CaseErr) in
  Chat.returned c = false /\
  Chat.errChan c = Some (PostFailed "connection refused") /\
  frames (Chat.trace c')
  = frames (Chat.trace c) ++ [FError (ForwardingFailed (PostFailed "connection refused"))] /\
  Chat.returned c' = true /\
  frames (Chat.trace (Chat.run [Chat.Select Chat.CaseMsg] c')) = frames (Chat.trace c').
Proof.
  intros sched c c'.
  split; [vm_compute; reflexivity|].
  split; [vm_compute; reflexivity|].
  apply (C5_forwarding_failure_always_closes chat_cfg chat_env chat_request sched
           [Chat.Select Chat.CaseMsg] (PostFailed "connection refused"));
    vm_compute; reflexivity.
Defined.

(** ** The first-token timeout *)

(** A timer that is neither armed nor holding a value stays so. *)
Lemma Chat_step_timer_off (c : Chat.Conn) (e : Chat.Event) :
  Chat.timerArmed c = false -> Chat.timerC c = false ->
  Chat.timerArmed (Chat.step c e) = false /\ Chat.timerC (Chat.step c e) = false.
Proof.
  intros Ha Hc. destruct e as [p pick|d| |res|k]; simpl.
  - unfold Chat.callback.
    destruct (json_Unmarshal p); [|auto].
    repeat match goal with
           | |- context [if ?b then _ else _] => destruct b
           end; simpl; auto.
  - rewrite Ha, Hc. simpl. auto.
  - auto.
  - unfold Chat.forwardDone.
    destruct (Chat.forwarding c); [|auto].
    destruct res; [simpl; auto|].
    destruct (negb _ && negb _); simpl; auto.
  - unfold Chat.select.
    destruct (Chat.returned c); [auto|].
    destruct k.
    + destruct (Chat.ctxDone c); simpl; [|auto].
      rewrite Hc. destruct (Chat.drains c); auto.
    + destruct (Chat.errChan c); simpl; [|auto].
      rewrite Hc. destruct (Chat.drains c); auto.
    + rewrite Hc. auto.
    + destruct (Chat.msgChan c) as [|t q]; [auto|].
      destruct (Done t); simpl; rewrite Hc; destruct (Chat.drains c); auto.
    + destruct (Chat.tickC c); simpl; auto.
Qed.

Lemma Chat_run_timer_off (sched : list Chat.Event) (c : Chat.Conn) :
  Chat.timerArmed c = false -> Chat.timerC c = false ->
  Chat.timerArmed (Chat.run sched c) = false /\ Chat.timerC (Chat.run sched c) = false.
Proof.
  revert c. induction sched as [|e sched IH]; intros c Ha Hc; [auto|].
  rewrite Chat_run_cons.
  destruct (Chat_step_timer_off c e Ha Hc) as [H1 H2]. apply IH; assumption.
Qed.


(** ** The prologue of [HandleChat] *)

Local Ltac effects_close :=
  first
    [ exists []; split;
      [symmetry; apply app_nil_r | split; [constructor | reflexivity]]
    | eexists; split;
      [rewrite <- ?app_assoc; simpl; reflexivity
      | split; [repeat constructor | reflexivity]] ].

Lemma Chat_step_effects (c : Chat.Conn) (e : Chat.Event) :
  exists extra,
    Chat.trace (Chat.step c e) = Chat.trace c ++ extra /\
    Forall (fun x => loop_effect x = true) extra /\
    Chat.conversationID (Chat.step c e) = Chat.conversationID c.
Proof.
  destruct e as [p pick|d| |res|k]; simpl.
  - unfold Chat.callback.
    destruct (json_Unmarshal p); [|effects_close].
    repeat match goal with
           | |- context [if ?b then _ else _] => destruct b
           end; simpl; effects_close.
  - effects_close.
  - effects_close.
  - unfold Chat.forwardDone.
    destruct (Chat.forwarding c); [|effects_close].
    destruct res; [simpl; effects_close|].
    destruct (negb _ && negb _); simpl; effects_close.
  - unfold Chat.select.
    destruct (Chat.returned c); [effects_close|].
    destruct k.
    + destruct (Chat.ctxDone c); simpl; effects_close.
    + destruct (Chat.errChan c); simpl; effects_close.
    + destruct (Chat.timerC c); [|effects_close].
      simpl. destruct (Chat.receivedFirstToken c); simpl; effects_close.
    + destruct (Chat.msgChan c) as [|t q]; [effects_close|].
      destruct (Done t); simpl; effects_close.
    + destruct (Chat.tickC c); simpl; effects_close.
Qed.

Lemma Chat_run_effects (sched : list Chat.Event) (c : Chat.Conn) :
  exists extra,
    Chat.trace (Chat.run sched c) = Chat.trace c ++ extra /\
    Forall (fun x => loop_effect x = true) extra /\
    Chat.conversationID (Chat.run sched c) = Chat.conversationID c.
Proof.
  revert c. induction sched as [|e sched IH]; intros c.
  - exists []. split; [symmetry; apply app_nil_r|]. split; [constructor|reflexivity].
  - rewrite Chat_run_cons.
    destruct (Chat_step_effects c e) as (x1 & H1 & F1 & C1).
    destruct (IH (Chat.step c e)) as (x2 & H2 & F2 & C2).
    exists (x1 ++ x2). split; [rewrite H2, H1, app_assoc; reflexivity|].
    split; [apply Forall_app; auto|congruence].
Qed.

Local Ltac scan_prefix H j :=
  do 14 (try (destruct j as [|j]; simpl in H;
              [try discriminate H | try discriminate H])).

(** C8.  In every run of [HandleChat] a forwarding of the request is
    preceded in the trace by the successful subscription to the subject of
    that conversation, and the first frame written, if any, is the connected
    event carrying the conversation id (so it precedes every token event).
    For a POST with a non-empty message, a configured proxy, a flushable
    writer and a successful subscription, the forwarding and the connected
    event are indeed there. *)
Theorem C8_subscribe_then_connected_then_forward (cfg : Chat.Config)
    (env : Chat.Env) (r : Chat.Request) (sched : list Chat.Event) :
  let c := Chat.HandleChat cfg env r sched in
  let tr := Chat.trace c in
  (forall j url m cid,
      tr !! j = Some (GoForward url m cid) ->
      exists i, (i < j)%nat /\ tr !! i = Some (NatsSubscribe (subject_of cid) true)) /\
  (forall f fs, frames tr = f :: fs -> f = FConnected (Chat.conversationID c)) /\
  (forall chatReq,
      Chat.Method r = "POST" ->
      Chat.LLMProxyURL cfg <> "" ->
      Chat.ReqBody r = Chat.Parsed chatReq ->
      Chat.Message chatReq <> "" ->
      Chat.CanFlush r = true ->
      Chat.SubscribeOk env = true ->
      let cid := Chat.conversationID_of env chatReq in
      Chat.conversationID c = cid /\
      (exists fs, frames tr = FConnected cid :: fs) /\
      (exists j, tr !! j =
                 Some (GoForward
                         (String.append (TrimSuffix (Chat.LLMProxyURL cfg) "/") "/chat")
                         (Chat.Message chatReq) cid))).
Proof.
  intros c tr. subst tr c. unfold Chat.HandleChat.
  destruct (String.eqb_spec (Chat.Method r) "POST") as [Hm|Hm]; simpl.
  2:{ split; [|split].
      - intros j url m cid H.
        destruct (String.eqb (Chat.Method r) "OPTIONS"); simpl in H; scan_prefix H j.
      - intros f fs H.
        destruct (String.eqb (Chat.Method r) "OPTIONS"); discriminate H.
      - intros; contradiction. }
  destruct (String.eqb_spec (Chat.LLMProxyURL cfg) "") as [Hu|Hu].
  { split; [|split].
    - intros j url m cid H. simpl in H. scan_prefix H j.
    - intros f fs H. discriminate H.
    - intros; contradiction. }
  destruct (Chat.ReqBody r) as [raw|chatReq].
  { split; [|split].
    - intros j url m cid H. simpl in H. scan_prefix H j.
    - intros f fs H. discriminate H.
    - intros; discriminate. }
  destruct (String.eqb_spec (Chat.Message chatReq) "") as [He|He].
  { split; [|split].
    - intros j url m cid H. simpl in H. scan_prefix H j.
    - intros f fs H. discriminate H.
    - intros ? _ _ Heq; inversion Heq; subst; contradiction. }
  destruct (Chat.CanFlush r); simpl.
  2:{ split; [|split].
      - intros j url m cid H. scan_prefix H j.
      - intros f fs H. discriminate H.
      - intros; discriminate. }
  destruct (Chat.SubscribeOk env); simpl.
  2:{ split; [|split].
      - intros j url m cid H. scan_prefix H j.
      - intros f fs H. discriminate H.
      - intros; discriminate. }
  match goal with
  | |- context [Chat.run sched ?c0] =>
      destruct (Chat_run_effects sched c0) as (extra & Htr & Hloop & Hcid)
  end.
  rewrite Htr, Hcid. simpl.
  split; [|split].
  - intros j url m cid H. scan_prefix H j.
    + inversion H; subst. exists 7%nat. split; [lia|reflexivity].
    + rewrite Forall_lookup in Hloop. specialize (Hloop _ _ H). discriminate Hloop.
  - intros f fs H. simpl in H. inversion H. reflexivity.
  - intros chatReq' _ _ Heq _ _ _. inversion Heq; subst. simpl.
    split; [reflexivity|]. split; [eexists; reflexivity|].
    exists 11%nat. reflexivity.
Qed.

Lemma C8_subscribe_then_connected_then_forward_witness :
  let c := Chat.HandleChat chat_cfg chat_env chat_request
             [Chat.Deliver (Encoded (chat_token 1 false)) false;
              Chat.Select Chat.CaseMsg] in
  Chat.conversationID c = "conv-1" /\
  (exists fs, frames (Chat.trace c) = FConnected "conv-1" :: fs) /\
  (exists j, Chat.trace c !! j =
             Some (GoForward "http://llm-proxy:8080/chat" "hello" "conv-1")).
Proof.
  destruct (C8_subscribe_then_connected_then_forward chat_cfg chat_env chat_request
              [Chat.Deliver (Encoded (chat_token 1 false)) false;
               Chat.Select Chat.CaseMsg]) as (_ & _ & H).
  apply (H (Chat.mkChatRequest "hello" ""));
    first [reflexivity | vm_compute; discriminate].
Defined.

(** C10.  With LLM_PROXY_URL unset, [loadConfig] leaves [LLMProxyURL]
    empty and a POST to /chat does one thing only: it answers 503.  The body
    is not decoded, the connection counter is not touched, nothing is
    subscribed and no frame is written, whatever the request and whatever
    happens afterwards. *)
Theorem C10_unconfigured_proxy_answers_503 (ParseDuration : string -> option Z)
    (Getenv : string -> string) (env : Chat.Env) (r : Chat.Request)
    (sched : list Chat.Event) :
  Getenv "LLM_PROXY_URL" = "" ->
  Chat.Method r = "POST" ->
  let cfg := Chat.loadConfig ParseDuration Getenv in
  let c := Chat.HandleChat cfg env r sched in
  Chat.LLMProxyURL cfg = "" /\
  Chat.trace c = [HttpError "LLM proxy not configured" StatusServiceUnavailable] /\
  Chat.returned c = true /\
  Chat.connID c = 0.
Proof.
  intros Henv Hm cfg c.
  assert (Hurl : Chat.LLMProxyURL cfg = "").
  { unfold cfg, Chat.loadConfig, Chat.getEnv. simpl. rewrite Henv. reflexivity. }
  split; [exact Hurl|].
  unfold c, Chat.HandleChat. rewrite Hm, Hurl. simpl. auto.
Qed.

Lemma C10_unconfigured_proxy_answers_503_witness :
  let cfg := Chat.loadConfig (fun _ => None) (fun _ => "") in
  let c := Chat.HandleChat cfg chat_env chat_request
             [Chat.Deliver (Encoded (chat_token 1 false)) false;
              Chat.Select Chat.CaseMsg] in
  Chat.LLMProxyURL cfg = "" /\
  Chat.trace c = [HttpError "LLM proxy not configured" StatusServiceUnavailable] /\
  Chat.returned c = true /\
  Chat.connID c = 0.
Proof.
  apply (C10_unconfigured_proxy_answers_503 (fun _ => None) (fun _ => "")
           chat_env chat_request); reflexivity.
Defined.

(** ** The bridge *)

Lemma Bridge_run_app (cfg : Bridge.Config) (e1 e2 : list Bridge.Event)
    (st : Bridge.State) :
  Bridge.run cfg (e1 ++ e2) st = Bridge.run cfg e2 (Bridge.run cfg e1 st).
Proof. unfold Bridge.run. apply fold_left_app. Qed.

Lemma Bridge_run_config (cfg cfg' : Bridge.Config) (events : list Bridge.Event)
    (st : Bridge.State) :
  Bridge.run cfg events st = Bridge.run cfg' events st.
Proof.
  revert st. induction events as [|e events IH]; intros st; [reflexivity|].
  simpl. rewrite IH. reflexivity.
Qed.

(** C2, as stated, fails: with the default window of 30 seconds, the same
    envelope received twice one second apart is published to NATS twice. *)
Lemma C2_duplicate_is_republished :
  Bridge.DedupeWindowSec (Bridge.loadConfig (fun _ => "") "bridge-1") = 30 /\
  match Bridge.main (fun _ => "") "bridge-1" bridge_up
          [Bridge.Receive 0 (Some bridge_message) true;
           Bridge.Receive Second (Some bridge_message) true] with
  | inr st => Bridge.forwarded st = [("c1", 1); ("c1", 1)]
  | inl _ => False
  end.
Proof. split; vm_compute; reflexivity. Qed.

(** C2, amended.  The loop of the bridge does not depend on the
    configuration (the dedupe window is never read), and as long as it has
    not been told to quit, every decodable message whose publish succeeds
    adds one publication, whatever was published before. *)
Theorem C2_bridge_republishes_every_receipt (cfg cfg' : Bridge.Config)
    (events : list Bridge.Event) (st : Bridge.State)
    (instant : Z) (chan : string) (tok : TokenMessage) :
  Bridge.stopped (Bridge.run cfg events st) = false ->
  Bridge.run cfg events st = Bridge.run cfg' events st /\
  Bridge.published
    (Bridge.run cfg
       (events ++ [Bridge.Receive instant
                     (Some (Bridge.mkRedisMessage chan (Encoded tok))) true]) st)
  = Bridge.published (Bridge.run cfg events st) ++
    [Bridge.mkPublication (subject_of (ConversationID tok)) tok].
Proof.
  intros Hrun. split; [apply Bridge_run_config|].
  rewrite Bridge_run_app. simpl. unfold Bridge.step. rewrite Hrun. reflexivity.
Qed.

Lemma C2_bridge_republishes_every_receipt_witness :
  let cfg := Bridge.loadConfig (fun _ => "") "bridge-1" in
  let st0 := Bridge.mkState 0 [] false in
  let first := [Bridge.Receive 0 (Some bridge_message) true] in
  Bridge.stopped (Bridge.run cfg first st0) = false /\
  Bridge.run cfg first st0 = Bridge.run cfg first st0 /\
  Bridge.published
    (Bridge.run cfg (first ++ [Bridge.Receive Second (Some bridge_message) true]) st0)
  = Bridge.published (Bridge.run cfg first st0) ++
    [Bridge.mkPublication (subject_of "c1") (c1_token 1)].
Proof.
  intros cfg st0 first.
  split; [reflexivity|].
  apply (C2_bridge_republishes_every_receipt cfg cfg first st0 Second
           "chat.c1.tokens" (c1_token 1)).
  reflexivity.
Defined.

(** ** The stream proxy *)

Lemma Proxy_done_count_app (a b : list Proxy.Attempt) :
  Proxy.done_count (a ++ b) = (Proxy.done_count a + Proxy.done_count b)%nat.
Proof.
  unfold Proxy.done_count, Proxy.envelopes.
  rewrite map_app, filter_app, length_app. reflexivity.
Qed.

Lemma Proxy_done_count_publish (w : Proxy.World) (cid token : string)
    (sequence : Z) (done : bool) (calls : list Proxy.Attempt) :
  Proxy.done_count (Proxy.publishToken w cid token sequence done calls)
  = (Proxy.done_count calls + if done then 1 else 0)%nat.
Proof.
  unfold Proxy.publishToken. rewrite Proxy_done_count_app. f_equal.
  destruct done; reflexivity.
Qed.

Lemma Proxy_choices_done (w : Proxy.World) (cid : string)
    (cs : list Proxy.Choice) (sequence : Z) (calls : list Proxy.Attempt) :
  let '(returned, _, calls') := Proxy.choices w cid cs sequence calls in
  returned = existsb finishes cs /\
  Proxy.done_count calls'
  = (Proxy.done_count calls + if returned then 1 else 0)%nat.
Proof.
  revert sequence calls. induction cs as [|c cs IH]; intros sequence calls; simpl.
  - split; [reflexivity|lia].
  - unfold finishes at 1.
    destruct (negb (String.eqb (Proxy.Content c) ""));
      destruct (Proxy.FinishReason c); simpl;
      rewrite ?Proxy_done_count_publish.
    + split; [reflexivity|lia].
    + match goal with
      | |- context [Proxy.choices w cid cs ?s ?k] =>
          specialize (IH s k); destruct (Proxy.choices w cid cs s k) as [[b s'] k']
      end.
      rewrite Proxy_done_count_publish in IH. destruct IH as [-> ->].
      split; [reflexivity|lia].
    + split; [reflexivity|lia].
    + specialize (IH sequence calls).
      destruct (Proxy.choices w cid cs sequence calls) as [[b s'] k'].
      exact IH.
Qed.

Lemma Proxy_readLoop_done (w : Proxy.World) (cid : string) (lines : list string)
    (sequence : Z) (calls : list Proxy.Attempt) :
  Proxy.done_count (Proxy.readLoop w cid lines sequence calls)
  = (Proxy.done_count calls + if body_terminates w lines then 1 else 0)%nat.
Proof.
  revert sequence calls. induction lines as [|l rest IH]; intros sequence calls; simpl.
  - lia.
  - unfold line_terminates.
    destruct (String.eqb (Proxy.TrimSpace w l) "" ||
              negb (HasPrefix (Proxy.TrimSpace w l) "data: ")); simpl; [apply IH|].
    destruct (String.eqb (TrimPrefix (Proxy.TrimSpace w l) "data: ") "[DONE]"); simpl.
    { rewrite Proxy_done_count_publish. reflexivity. }
    destruct (Proxy.Unmarshal w (TrimPrefix (Proxy.TrimSpace w l) "data: "))
      as [chunk|]; simpl; [|apply IH].
    pose proof (Proxy_choices_done w cid (Proxy.Choices chunk) sequence calls) as H.
    destruct (Proxy.choices w cid (Proxy.Choices chunk) sequence calls)
      as [[b s'] k'].
    destruct H as [Hb Hk]. rewrite <- Hb.
    destruct b; simpl; [exact Hk|].
    rewrite IH, Hk. lia.
Qed.

(** What does hold on every path of [streamFromLLM]: the envelopes are
    numbered from 1 in publication order, and an envelope with [done = true]
    can only be the last one. *)
Lemma wrap64_succ (z : Z) : wrap64 (wrap64 z + 1) = wrap64 (z + 1).
Proof.
  unfold wrap64. f_equal.
  replace ((z + 2 ^ 63) mod 2 ^ 64 - 2 ^ 63 + 1 + 2 ^ 63)
    with ((z + 2 ^ 63) mod 2 ^ 64 + 1) by lia.
  rewrite Zplus_mod_idemp_l. f_equal. lia.
Qed.

Lemma Proxy_publish_numbered (w : Proxy.World) (cid token : string)
    (sequence : Z) (done : bool) (calls : list Proxy.Attempt) :
  sequence = wrap64 (Z.of_nat (length calls)) ->
  numbered calls ->
  numbered (Proxy.publishToken w cid token (wrap64 (sequence + 1)) done calls).
Proof.
  unfold numbered, Proxy.publishToken, Proxy.envelopes. intros -> H.
  rewrite !map_app, length_app. simpl.
  rewrite H. replace (length calls + 1)%nat with (S (length calls)) by lia.
  rewrite seq_S, map_app. simpl. f_equal. f_equal.
  rewrite wrap64_succ. f_equal. lia.
Qed.

Lemma Proxy_publish_length (w : Proxy.World) (cid token : string)
    (sequence : Z) (done : bool) (calls : list Proxy.Attempt) :
  length (Proxy.publishToken w cid token sequence done calls) = S (length calls).
Proof. unfold Proxy.publishToken. rewrite length_app. simpl. lia. Qed.

Lemma Proxy_publish_open (w : Proxy.World) (cid token : string)
    (sequence : Z) (calls : list Proxy.Attempt) :
  all_open calls ->
  all_open (Proxy.publishToken w cid token sequence false calls).
Proof.
  unfold all_open, Proxy.publishToken, Proxy.envelopes. intros H.
  rewrite map_app. apply Forall_app. split; [exact H|].
  repeat constructor.
Qed.

Lemma Proxy_publish_last (w : Proxy.World) (cid token : string)
    (sequence : Z) (calls : list Proxy.Attempt) :
  all_open calls ->
  done_only_last (Proxy.publishToken w cid token sequence true calls).
Proof.
  intros H. right. unfold Proxy.publishToken.
  eexists _, _. split; [reflexivity|]. split; [exact H|reflexivity].
Qed.

Lemma Proxy_choices_shape (w : Proxy.World) (cid : string)
    (cs : list Proxy.Choice) (sequence : Z) (calls : list Proxy.Attempt) :
  sequence = wrap64 (Z.of_nat (length calls)) ->
  numbered calls ->
  all_open calls ->
  let '(returned, sequence', calls') := Proxy.choices w cid cs sequence calls in
  numbered calls' /\
  if returned then done_only_last calls'
  else sequence' = wrap64 (Z.of_nat (length calls')) /\ all_open calls'.
Proof.
  revert sequence calls. induction cs as [|c cs IH]; intros sequence calls Hs Hn Ho; simpl.
  - auto.
  - destruct (negb (String.eqb (Proxy.Content c) "")).
    + assert (Hn1 : numbered (Proxy.publishToken w cid (Proxy.Content c)
                                (wrap64 (sequence + 1)) false calls))
        by (apply Proxy_publish_numbered; assumption).
      assert (Ho1 := Proxy_publish_open w cid (Proxy.Content c)
                       (wrap64 (sequence + 1)) calls Ho).
      assert (Hs1 : wrap64 (sequence + 1)
                    = wrap64 (Z.of_nat (length (Proxy.publishToken w cid
                                (Proxy.Content c) (wrap64 (sequence + 1)) false calls)))).
      { rewrite Proxy_publish_length. subst sequence. rewrite wrap64_succ.
        f_equal. lia. }
      destruct (Proxy.FinishReason c).
      * split; [|apply Proxy_publish_last; exact Ho1].
        apply Proxy_publish_numbered; assumption.
      * apply IH; assumption.
    + destruct (Proxy.FinishReason c).
      * split; [|apply Proxy_publish_last; exact Ho].
        apply Proxy_publish_numbered; assumption.
      * apply IH; assumption.
Qed.

Lemma Proxy_readLoop_shape (w : Proxy.World) (cid : string) (lines : list string)
    (sequence : Z) (calls : list Proxy.Attempt) :
  sequence = wrap64 (Z.of_nat (length calls)) ->
  numbered calls ->
  all_open calls ->
  numbered (Proxy.readLoop w cid lines sequence calls) /\
  done_only_last (Proxy.readLoop w cid lines sequence calls).
Proof.
  revert sequence calls.
  induction lines as [|l rest IH]; intros sequence calls Hs Hn Ho; simpl.
  - split; [exact Hn|left; exact Ho].
  - destruct (String.eqb (Proxy.TrimSpace w l) "" ||
              negb (HasPrefix (Proxy.TrimSpace w l) "data: ")); [apply IH; assumption|].
    destruct (String.eqb (TrimPrefix (Proxy.TrimSpace w l) "data: ") "[DONE]").
    { split; [|apply Proxy_publish_last; exact Ho].
      apply Proxy_publish_numbered; assumption. }
    destruct (Proxy.Unmarshal w (TrimPrefix (Proxy.TrimSpace w l) "data: "))
      as [chunk|]; [|apply IH; assumption].
    pose proof (Proxy_choices_shape w cid (Proxy.Choices chunk) sequence calls
                  Hs Hn Ho) as H.
    destruct (Proxy.choices w cid (Proxy.Choices chunk) sequence calls)
      as [[b s'] k'].
    destruct H as [Hn' H]. destruct b.
    + split; assumption.
    + destruct H as [Hs' Ho']. apply IH; assumption.
Qed.

Lemma Proxy_stream_shape (w : Proxy.World) (cid message : string)
    (up : Proxy.Upstream) :
  numbered (Proxy.streamFromLLM w cid message up) /\
  done_only_last (Proxy.streamFromLLM w cid message up).
Proof.
  assert (Herr : numbered (Proxy.publishToken w cid "[ERROR]" 1 true []) /\
                 done_only_last (Proxy.publishToken w cid "[ERROR]" 1 true [])).
  { split; [reflexivity|]. apply Proxy_publish_last. constructor. }
  destruct up as [| |status lines last]; simpl; try exact Herr.
  destruct (negb (status =? StatusOK)); [exact Herr|].
  apply Proxy_readLoop_shape; [reflexivity|reflexivity|constructor].
Qed.

(** C4 (the code departs from the specification).  When vLLM answers 200, the
    number of envelopes with [done = true] is one exactly when the body
    holds a [data: [DONE]] line or a chunk with a finish reason before it
    ends; a body that ends first, by EOF or by a read error, leaves the
    conversation without any terminal envelope.  In particular a body without
    lines publishes nothing at all. *)
Theorem C4_no_terminal_envelope_when_body_ends (w : Proxy.World)
    (cid message : string) (lines : list string) (last : Proxy.ReadError) :
  Proxy.done_count
    (Proxy.streamFromLLM w cid message (Proxy.Response StatusOK lines last))
  = (if body_terminates w lines then 1 else 0)%nat /\
  Proxy.envelopes
    (Proxy.streamFromLLM w cid message (Proxy.Response StatusOK [] last)) = [].
Proof.
  split; [|reflexivity].
  unfold Proxy.streamFromLLM. simpl. rewrite Proxy_readLoop_done. reflexivity.
Qed.

(** ** More on [HandleStream] *)

Lemma C3_token_ids_ordered_witness :
  let sched := [Stream.Deliver (Encoded (c1_token 1)) false;
                Stream.Deliver (Encoded (c1_token 2)) false;
                Stream.Select Stream.CaseMsg;
                Stream.Deliver (Malformed "{") false;
                Stream.Deliver (Encoded (c1_token 3)) false;
                Stream.Select Stream.CaseMsg;
                Stream.Select Stream.CaseMsg] in
  let ids := token_ids (frames (Stream.trace
                                  (Stream.HandleStream c1_env fresh_request sched))) in
  StronglySorted Z.lt (map Sequence (Stream.delivered sched)) /\
  sublist ids (map Sequence (Stream.delivered sched)) /\
  StronglySorted Z.lt ids /\
  NoDup ids.
Proof.
  intros sched ids.
  assert (Hs : StronglySorted Z.lt (map Sequence (Stream.delivered sched))).
  { simpl. repeat constructor. }
  split; [exact Hs|].
  apply (C3_token_ids_ordered c1_env fresh_request sched Hs).
Defined.

(** With the loop idle, the queue holds 100 envelopes; the 101st of a burst
    is dropped and the client sees 1 to 100, in order. *)
Example Stream_full_queue_drops_newest :
  token_ids (frames (Stream.trace
                       (Stream.HandleStream c1_env fresh_request (burst 101 101))))
  = map Z.of_nat (seq 1 100).
Proof. vm_compute. reflexivity. Qed.

(** Without a [Last-Event-ID] header nothing is filtered: the scenario of
    three tokens and a terminal envelope gives four events, then the handler
    returns. *)
Example Stream_scenario_four_events :
  let c := Stream.HandleStream c1_env fresh_request
             [Stream.Deliver (Encoded (mkTokenMessage "c1" "a" 1 false 0)) false;
              Stream.Deliver (Encoded (mkTokenMessage "c1" "b" 2 false 0)) false;
              Stream.Deliver (Encoded (mkTokenMessage "c1" "c" 3 false 0)) false;
              Stream.Deliver (Encoded (mkTokenMessage "c1" "" 4 true 0)) false;
              Stream.Select Stream.CaseMsg; Stream.Select Stream.CaseMsg;
              Stream.Select Stream.CaseMsg; Stream.Select Stream.CaseMsg] in
  token_ids (frames (Stream.trace c)) = [1; 2; 3; 4] /\
  Stream.returned c = true.
Proof. split; vm_compute; reflexivity. Qed.

(** The scan of [Last-Event-ID] on some inputs, and the start sequence that
    results: a value that does not scan counts as 0, and the increment of
    the largest [int64] wraps around, which switches the filter off. *)
Example Sscanf_d_samples :
  Scan.Sscanf_d "5" = Some 5 /\
  Scan.Sscanf_d " 42abc" = Some 42 /\
  Scan.Sscanf_d "-3" = Some (-3) /\
  Scan.Sscanf_d "+7" = Some 7 /\
  Scan.Sscanf_d "abc" = None /\
  Scan.Sscanf_d "1_0" = Some 1 /\
  Scan.Sscanf_d "5_" = Some 5 /\
  Scan.Sscanf_d (String (ascii_of_nat 194) (String (ascii_of_nat 160) "5")) = Some 5 /\
  Scan.Sscanf_d "9223372036854775808" = None /\
  Scan.Sscanf_d "-9223372036854775808" = Some (- 2^63).
Proof. repeat split; vm_compute; reflexivity. Qed.

Example startSequence_of_samples :
  Stream.startSequence_of "" = 0 /\
  Stream.startSequence_of "0" = 1 /\
  Stream.startSequence_of "abc" = 1 /\
  Stream.startSequence_of "5_" = 6 /\
  Stream.startSequence_of "-1" = 0 /\
  Stream.startSequence_of "9223372036854775807" = - 2^63.
Proof. repeat split; vm_compute; reflexivity. Qed.

(** The queue never holds more than its capacity. *)
Lemma Stream_step_bounded (c : Stream.Conn) (e : Stream.Event) :
  (length (Stream.msgChan c) <= msgChanCap)%nat ->
  (length (Stream.msgChan (Stream.step c e)) <= msgChanCap)%nat.
Proof.
  intros H. destruct e as [p pick|d| |k]; simpl.
  - unfold Stream.callback.
    destruct (json_Unmarshal p); [|exact H].
    destruct (_ && _); [exact H|].
    destruct (Nat.ltb_spec (length (Stream.msgChan c)) msgChanCap) as [Hlt|Hge]; simpl.
    + destruct (Stream.doneClosed c); [destruct pick|]; simpl;
        rewrite ?length_app; simpl; lia.
    + destruct (Stream.doneClosed c); exact H.
  - unfold Stream.elapse. destruct (negb _ && _); exact H.
  - exact H.
  - unfold Stream.select.
    destruct (Stream.returned c); [exact H|].
    destruct k.
    + destruct (Stream.ctxDone c); exact H.
    + destruct (Stream.msgChan c) as [|t q] eqn:Hq; [rewrite Hq; exact H|].
      simpl in H. destruct (Done t); simpl; lia.
    + destruct (Stream.tickC c); exact H.
Qed.

Lemma Stream_queue_bounded (env : Stream.Env) (r : Stream.Request)
    (sched : list Stream.Event) :
  (length (Stream.msgChan (Stream.HandleStream env r sched)) <= msgChanCap)%nat.
Proof.
  assert (Hrun : forall s c, (length (Stream.msgChan c) <= msgChanCap)%nat ->
                   (length (Stream.msgChan (Stream.run s c)) <= msgChanCap)%nat).
  { induction s as [|e s IH]; intros c H; [exact H|].
    rewrite Stream_run_cons. apply IH, Stream_step_bounded, H. }
  unfold Stream.HandleStream, msgChanCap.
  destruct (String.eqb _ ""); [simpl; lia|].
  destruct (negb (Stream.CanFlush r)); [simpl; lia|].
  destruct (negb (Stream.SubscribeOk env)); [simpl; lia|].
  apply Hrun. simpl. unfold msgChanCap. lia.
Qed.

(** * More properties of the code *)

(** ** What a step adds to a trace *)

Lemma count_eff_app (p : Effect -> bool) (a b : list Effect) :
  count_eff p (a ++ b) = (count_eff p a + count_eff p b)%nat.
Proof. induction a as [|e a IH]; simpl; [reflexivity|rewrite IH; lia]. Qed.

Lemma flushed_from_app (pending : bool) (a b : list Effect) :
  flushed_from pending a = true ->
  flushed_from false b = true ->
  flushed_from pending (a ++ b) = true.
Proof.
  revert pending. induction a as [|e a IH]; intros pending Ha Hb; simpl in *.
  - destruct pending; [discriminate|exact Hb].
  - destruct e; try (apply andb_true_iff in Ha; destruct Ha as [Hp Ha];
                     rewrite Hp; simpl); auto.
Qed.

Local Ltac idle_step :=
  exists []; rewrite app_nil_r;
  split; [reflexivity|]; split; [apply sa_nothing; reflexivity|];
  simpl; repeat split; auto; try (intros; congruence).

Local Ltac shape_step ctor :=
  split; [simpl; rewrite <- ?app_assoc; reflexivity|];
  split; [ctor; auto|];
  simpl; repeat split; auto; try (intros; congruence).

Lemma Stream_step_shape (c : Stream.Conn) (e : Stream.Event) :
  exists extra,
    Stream.trace (Stream.step c e) = Stream.trace c ++ extra /\
    Stream_appends c (Stream.step c e) extra /\
    Stream.connID (Stream.step c e) = Stream.connID c /\
    Stream.startSequence (Stream.step c e) = Stream.startSequence c /\
    (Stream.ctxDone c = true -> Stream.ctxDone (Stream.step c e) = true).
Proof.
  destruct e as [p pick|d| |k]; simpl.
  - unfold Stream.callback.
    destruct (json_Unmarshal p); [|idle_step].
    repeat match goal with
           | |- context [if ?b then _ else _] => destruct b
           end; idle_step.
  - unfold Stream.elapse. destruct (negb _ && _); idle_step.
  - idle_step.
  - unfold Stream.select.
    destruct (Stream.returned c) eqn:Hret; [idle_step|].
    destruct k.
    + destruct (Stream.ctxDone c) eqn:Hctx; [|idle_step].
      exists (stream_deferred (Stream.connID c)).
      shape_step ltac:(apply sa_disconnect).
    + destruct (Stream.msgChan c) as [|t q]; [idle_step|].
      destruct (Done t) eqn:Hd.
      * exists ([Fprintf (FToken (Sequence t) t); Flush]
                  ++ stream_deferred (Stream.connID c)).
        shape_step ltac:(apply sa_done).
      * exists [Fprintf (FToken (Sequence t) t); Flush].
        shape_step ltac:(apply sa_token).
    + destruct (Stream.tickC c) eqn:Ht; [|idle_step].
      exists [Fprintf (FComment ": keep-alive"); Flush].
      shape_step ltac:(apply sa_keepalive).
Qed.

Lemma Stream_handle_cases (env : Stream.Env) (r : Stream.Request)
    (sched : list Stream.Event) :
  (exists id es,
      Stream.HandleStream env r sched = Stream_rejected r id es /\
      ((id = 0 /\ es = [HttpError "conversation_id required" StatusBadRequest]) \/
       (id = 0 /\
        es = sseHeaders ++ [HttpError "SSE not supported" StatusInternalServerError]) \/
       (id = wrap64 (Stream.connCount env + 1) /\
        es = sseHeaders ++
             [ConnCountAdd id;
              NatsSubscribe (subject_of (Stream.conversationID_of r)) false;
              HttpError "Failed to subscribe" StatusInternalServerError]))) \/
  Stream.HandleStream env r sched = Stream.run sched (Stream_entered env r).
Proof.
  unfold Stream.HandleStream.
  destruct (String.eqb _ ""); [left; eexists _, _; split; [reflexivity|auto]|].
  destruct (negb (Stream.CanFlush r)); [left; eexists _, _; split; [reflexivity|auto]|].
  destruct (negb (Stream.SubscribeOk env));
    [left; eexists _, _; split; [reflexivity|auto]|].
  right. reflexivity.
Qed.

Lemma Stream_run_ind (P : Stream.Conn -> Prop) :
  (forall c e, P c -> P (Stream.step c e)) ->
  forall sched c, P c -> P (Stream.run sched c).
Proof.
  intros Hstep sched. induction sched as [|e sched IH]; intros c H; [exact H|].
  rewrite Stream_run_cons. apply IH, Hstep, H.
Qed.

(** ** [HandleStream]: every frame is flushed *)

Lemma Stream_appends_flushed (c c' : Stream.Conn) (extra : list Effect) :
  Stream_appends c c' extra -> flushed_from false extra = true.
Proof. destruct 1; reflexivity. Qed.

(** X1.  In every run of [HandleStream] each frame written to the client is
    followed at once by a flush: nothing is done between the write and the
    flush, and the trace never ends on an unflushed frame. *)
Theorem Stream_every_frame_flushed (env : Stream.Env) (r : Stream.Request)
    (sched : list Stream.Event) :
  flushed_from false (Stream.trace (Stream.HandleStream env r sched)) = true.
Proof.
  destruct (Stream_handle_cases env r sched)
    as [(id & es & -> & [[_ ->]|[[_ ->]|[_ ->]]])| ->]; try reflexivity.
  apply Stream_run_ind; [|reflexivity].
  intros c e H.
  destruct (Stream_step_shape c e) as (extra & -> & Happ & _).
  apply flushed_from_app; [exact H|eapply Stream_appends_flushed; eauto].
Qed.

(** ** [HandleStream]: the subscription is released exactly once *)

Lemma lifecycle_extend (ret ret' : bool) (id : Z) (tr extra : list Effect) :
  lifecycle ret id tr ->
  count_eff is_subscribed extra = 0%nat ->
  count_eff is_store extra = 0%nat ->
  count_eff is_close_done extra = count_eff is_unsubscribe extra ->
  count_eff is_delete extra = count_eff is_unsubscribe extra ->
  Forall (names_conn id) extra ->
  (count_eff is_unsubscribe tr + count_eff is_unsubscribe extra
   = if ret' then count_eff is_subscribed tr else 0)%nat ->
  lifecycle ret' id (tr ++ extra).
Proof.
  unfold lifecycle. intros (H1 & H2 & H3 & H4 & H5 & H6) E1 E2 E3 E4 E5 E6.
  rewrite !count_eff_app, E1, E2, E3, E4.
  repeat split; try lia.
  - destruct ret'; lia.
  - apply Forall_app; auto.
Qed.

Lemma Stream_step_lifecycle (c : Stream.Conn) (e : Stream.Event) :
  count_eff is_subscribed (Stream.trace c) = 1%nat ->
  lifecycle (Stream.returned c) (Stream.connID c) (Stream.trace c) ->
  lifecycle (Stream.returned (Stream.step c e)) (Stream.connID (Stream.step c e))
            (Stream.trace (Stream.step c e)).
Proof.
  intros Hsub H.
  destruct (Stream_step_shape c e) as (extra & -> & Happ & -> & _).
  pose proof H as (_ & _ & Hun & _).
  destruct Happ as [Hr|Hr Hr' _|t Hr Hr' _|t Hr Hr' _|Hr Hr' _];
    rewrite ?Hr'; rewrite ?Hr in *;
    (apply (lifecycle_extend _ _ _ _ _ H); simpl;
     [reflexivity|reflexivity|reflexivity|reflexivity|
      repeat constructor|]); rewrite ?Hun; try lia.
Qed.

(** X2.  In every run of [HandleStream] the bus is subscribed to at most
    once; a successful subscription is stored under the connection id; it is
    released (the done channel closed, the subscription cancelled, the entry
    deleted, each once and under the same id) exactly when the handler has
    returned, and never before.  Nothing is released that was not subscribed. *)
Theorem Stream_subscription_lifecycle (env : Stream.Env) (r : Stream.Request)
    (sched : list Stream.Event) :
  let c := Stream.HandleStream env r sched in
  lifecycle (Stream.returned c) (Stream.connID c) (Stream.trace c).
Proof.
  intros c. subst c.
  destruct (Stream_handle_cases env r sched)
    as [(id & es & -> & [[-> ->]|[[-> ->]|[-> ->]]])| ->].
  1-3: unfold lifecycle; simpl; repeat split; try lia; repeat constructor.
  assert (H : count_eff is_subscribed (Stream.trace (Stream.run sched (Stream_entered env r))) = 1%nat /\
              lifecycle (Stream.returned (Stream.run sched (Stream_entered env r)))
                        (Stream.connID (Stream.run sched (Stream_entered env r)))
                        (Stream.trace (Stream.run sched (Stream_entered env r))));
    [|exact (proj2 H)].
  apply (Stream_run_ind (fun c => count_eff is_subscribed (Stream.trace c) = 1%nat /\
            lifecycle (Stream.returned c) (Stream.connID c) (Stream.trace c))).
  - intros c e [Hs H]. split; [|apply Stream_step_lifecycle; assumption].
    pose proof (Stream_step_lifecycle c e Hs H) as (Hle & _).
    destruct (Stream_step_shape c e) as (extra & Htr & _).
    rewrite Htr, count_eff_app in *. lia.
  - split; [reflexivity|].
    unfold lifecycle; simpl; repeat split; try lia; repeat constructor.
Qed.

(** ** [HandleStream]: what is written, and why the handler returns *)

Lemma Stream_appends_frames (c c' : Stream.Conn) (extra : list Effect) :
  Stream_appends c c' extra ->
  Forall stream_loop_frame (frames extra) /\
  count_eff is_http_error extra = 0%nat /\
  (Stream.returned c = true -> extra = []).
Proof.
  destruct 1 as [Hr|Hr Hr' _|t Hr Hr' _|t Hr Hr' _|Hr Hr' _]; simpl;
    repeat split; try congruence; repeat constructor.
Qed.

(** X3.  [HandleStream] answers every request in one of two ways.  Either
    it writes exactly one HTTP error and nothing else: no frame, no
    subscription, and it has returned.  Or it writes no HTTP error and a
    stream that opens with the comment [: connected to <conversation id>]
    and goes on with keep-alive comments and token events only, each token
    event having as id the sequence number of its envelope; it never writes
    a connected or an error event. *)
Theorem Stream_error_or_stream (env : Stream.Env) (r : Stream.Request)
    (sched : list Stream.Event) :
  let c := Stream.HandleStream env r sched in
  answered stream_loop_frame
           (FComment (String.append ": connected to " (Stream.conversationID_of r)))
           (Stream.returned c) (Stream.trace c).
Proof.
  intros c. subst c.
  destruct (Stream_handle_cases env r sched)
    as [(id & es & -> & [[-> ->]|[[-> ->]|[-> ->]]])| ->].
  1-3: left; simpl; auto.
  right.
  apply (Stream_run_ind (fun c =>
           count_eff is_http_error (Stream.trace c) = 0%nat /\
           exists rest,
             frames (Stream.trace c)
             = FComment (String.append ": connected to " (Stream.conversationID_of r))
               :: rest /\ Forall stream_loop_frame rest)).
  - intros c e (Hno & rest & Hfs & Hrest).
    destruct (Stream_step_shape c e) as (extra & -> & Happ & _).
    destruct (Stream_appends_frames _ _ _ Happ) as (Hloop & Herr & _).
    rewrite count_eff_app, frames_app, Hfs, Hno, Herr.
    split; [reflexivity|]. exists (rest ++ frames extra).
    split; [reflexivity|]. apply Forall_app; auto.
  - split; [reflexivity|]. exists []. split; [reflexivity|constructor].
Qed.

(** X4.  At any point of any run of [HandleStream], the handler is still
    in its loop, or it answered with an HTTP error, or the context of the
    request is cancelled, or a token event with [done = true] was written:
    there is no other way out of the loop. *)
Theorem Stream_returns_only_when (env : Stream.Env) (r : Stream.Request)
    (sched : list Stream.Event) :
  let c := Stream.HandleStream env r sched in
  Stream.returned c = false \/
  count_eff is_http_error (Stream.trace c) = 1%nat \/
  Stream.ctxDone c = true \/
  (0 < count is_done_token (frames (Stream.trace c)))%nat.
Proof.
  intros c. subst c.
  destruct (Stream_handle_cases env r sched)
    as [(id & es & -> & [[-> ->]|[[-> ->]|[-> ->]]])| ->].
  1-3: right; left; reflexivity.
  assert (H : Stream.returned (Stream.run sched (Stream_entered env r)) = false \/
              Stream.ctxDone (Stream.run sched (Stream_entered env r)) = true \/
              (0 < count is_done_token
                     (frames (Stream.trace (Stream.run sched (Stream_entered env r)))))%nat);
    [|tauto].
  apply (Stream_run_ind (fun c =>
           Stream.returned c = false \/ Stream.ctxDone c = true \/
           (0 < count is_done_token (frames (Stream.trace c)))%nat)).
  - intros c e H.
    destruct (Stream_step_shape c e) as (extra & -> & Happ & _ & _ & Hctx).
    rewrite frames_app, count_app.
    destruct Happ as [Hr|Hr Hr' _|t Hr Hr' _|t Hr Hr' Hd|Hr Hr' Hc]; simpl.
    + rewrite Hr. destruct H as [H|[H|H]]; auto. right. right. lia.
    + auto.
    + auto.
    + right. right. rewrite Hd. lia.
    + auto.
  - left. reflexivity.
Qed.

(** ** [HandleStream]: the pace of keep-alives *)

Lemma keepalive_pace_tick (k pending nextTick now : Z) :
  0 <= pending ->
  (k + pending) * keepAlivePeriod <= nextTick - keepAlivePeriod ->
  nextTick <= now ->
  (k + 1) * keepAlivePeriod <= next_tick_after nextTick now - keepAlivePeriod /\
  next_tick_after nextTick now - keepAlivePeriod <= now.
Proof.
  intros Hp Hk Hle. unfold next_tick_after.
  destruct (Z.ltb_spec now nextTick); [lia|].
  assert (HP : 0 < keepAlivePeriod) by reflexivity.
  pose proof (Z.mul_div_le (now - nextTick) keepAlivePeriod HP) as Hdiv.
  assert (0 <= (now - nextTick) / keepAlivePeriod)
    by (apply Z.div_pos; lia).
  nia.
Qed.

(** The callback touches nothing but the queue. *)
Lemma Stream_callback_queue (p : Payload) (pick : bool) (c : Stream.Conn) :
  exists q, Stream.callback p pick c = Stream.set_msgChan q c.
Proof.
  destruct c. unfold Stream.callback. simpl.
  destruct (json_Unmarshal p); [|eexists; reflexivity].
  repeat match goal with
         | |- context [if ?b then _ else _] => destruct b
         end; eexists; reflexivity.
Qed.

Lemma Stream_step_pace (c : Stream.Conn) (e : Stream.Event) :
  let pace c :=
    (Z.of_nat (count is_keepalive (frames (Stream.trace c)))
     + (if Stream.tickC c then 1 else 0)) * keepAlivePeriod
    <= Stream.nextTick c - keepAlivePeriod /\
    Stream.nextTick c - keepAlivePeriod <= Stream.clock c in
  pace c -> pace (Stream.step c e).
Proof.
  intros pace [Hk Hc]. unfold pace in *. clear pace.
  destruct e as [p pick|d| |k]; simpl.
  - destruct (Stream_callback_queue p pick c) as [q ->]. simpl. auto.
  - unfold Stream.elapse.
    destruct (negb (Stream.tickerStopped c)); simpl.
    + destruct (Z.leb_spec (Stream.nextTick c) (Stream.clock c + Z.max 0 d)); simpl.
      * apply (keepalive_pace_tick _ (if Stream.tickC c then 1 else 0));
          [destruct (Stream.tickC c); lia|exact Hk|assumption].
      * split; [exact Hk|lia].
    + split; [exact Hk|lia].
  - auto.
  - unfold Stream.select.
    destruct (Stream.returned c); [auto|].
    destruct k.
    + destruct (Stream.ctxDone c); [|auto].
      rewrite Stream_trace_ret. simpl. auto.
    + destruct (Stream.msgChan c) as [|t q]; [auto|].
      destruct (Done t); [rewrite Stream_trace_ret|]; simpl;
        rewrite frames_app, count_app; simpl; rewrite Nat.add_0_r; auto.
    + destruct (Stream.tickC c) eqn:Ht; [|rewrite Ht; auto]. simpl.
      rewrite frames_app, count_app. simpl.
      split; [lia|exact Hc].
Qed.

(** X5.  In every run of [HandleStream], the number of keep-alive comments
    written times 15 seconds never exceeds the time that has passed since
    the stream was opened: keep-alives come on a fixed cadence, at most one
    per period, whatever the traffic. *)
Theorem Stream_keepalive_pace (env : Stream.Env) (r : Stream.Request)
    (sched : list Stream.Event) :
  let c := Stream.HandleStream env r sched in
  Z.of_nat (count is_keepalive (frames (Stream.trace c))) * keepAlivePeriod
  <= Stream.clock c.
Proof.
  intros c. subst c.
  destruct (Stream_handle_cases env r sched)
    as [(id & es & -> & [[-> ->]|[[-> ->]|[-> ->]]])| ->].
  1-3: simpl; lia.
  assert (H : (Z.of_nat (count is_keepalive
                 (frames (Stream.trace (Stream.run sched (Stream_entered env r)))))
               + (if Stream.tickC (Stream.run sched (Stream_entered env r)) then 1 else 0))
              * keepAlivePeriod
              <= Stream.nextTick (Stream.run sched (Stream_entered env r)) - keepAlivePeriod /\
              Stream.nextTick (Stream.run sched (Stream_entered env r)) - keepAlivePeriod
              <= Stream.clock (Stream.run sched (Stream_entered env r))).
  { apply (Stream_run_ind (fun c =>
             (Z.of_nat (count is_keepalive (frames (Stream.trace c)))
              + (if Stream.tickC c then 1 else 0)) * keepAlivePeriod
             <= Stream.nextTick c - keepAlivePeriod /\
             Stream.nextTick c - keepAlivePeriod <= Stream.clock c)).
    - intros c e H. apply (Stream_step_pace c e H).
    - simpl. lia. }
  destruct H as [Hk Hc].
  destruct (Stream.tickC _); unfold keepAlivePeriod, Second in *; lia.
Qed.

(** ** [HandleStream]: resuming *)

Lemma Stream_step_resume (c : Stream.Conn) (e : Stream.Event) :
  let ok c :=
    Forall (fun id => Stream.startSequence c < id)
           (token_ids (frames (Stream.trace c)) ++ map Sequence (Stream.msgChan c)) in
  0 < Stream.startSequence c -> ok c -> ok (Stream.step c e).
Proof.
  intros ok Hpos H. unfold ok in *. clear ok.
  destruct e as [p pick|d| |k]; simpl.
  - destruct p as [raw|t]; [exact H|].
    unfold Stream.callback. simpl.
    destruct (Z.ltb_spec 0 (Stream.startSequence c)); [|lia]. simpl.
    destruct (Z.leb_spec (Sequence t) (Stream.startSequence c)); [exact H|].
    assert (Hpush : Forall (fun id => Stream.startSequence c < id)
                      (token_ids (frames (Stream.trace c)) ++
                       map Sequence (Stream.msgChan c ++ [t]))).
    { rewrite map_app, app_assoc. apply Forall_app. split; [exact H|].
      repeat constructor. assumption. }
    repeat match goal with
           | |- context [if ?b then _ else _] => destruct b
           end; simpl; assumption.
  - unfold Stream.elapse. destruct (negb _ && _); exact H.
  - exact H.
  - unfold Stream.select.
    destruct (Stream.returned c); [exact H|].
    destruct k.
    + destruct (Stream.ctxDone c); [|exact H].
      rewrite Stream_trace_ret. exact H.
    + destruct (Stream.msgChan c) as [|t q] eqn:Hq; [rewrite Hq; exact H|].
      assert (Hgoal : Forall (fun id => Stream.startSequence c < id)
                (token_ids (frames (Stream.trace c ++
                   [Fprintf (FToken (Sequence t) t); Flush])) ++ map Sequence q)).
      { rewrite frames_app, token_ids_app. simpl. rewrite <- app_assoc. exact H. }
      destruct (Done t); [rewrite Stream_trace_ret|]; simpl; exact Hgoal.
    + destruct (Stream.tickC c); [|exact H]. simpl.
      rewrite frames_app, token_ids_app. simpl. rewrite app_nil_r. exact H.
Qed.

(** X6.  A client that reconnects with [Last-Event-ID: n] (n not negative)
    is never sent again what it has seen: whatever the bus delivers and
    whatever the schedule, every token event written has an id above n. *)
Theorem Stream_resume_never_replays (env : Stream.Env) (r : Stream.Request)
    (sched : list Stream.Event) (n : Z) :
  Stream.LastEventID r <> "" ->
  Scan.Sscanf_d (Stream.LastEventID r) = Some n ->
  0 <= n < 2^63 - 1 ->
  Forall (fun id => n < id)
         (token_ids (frames (Stream.trace (Stream.HandleStream env r sched)))).
Proof.
  intros Hne Hscan Hn.
  pose proof (Stream_startSequence_of_scanned _ _ Hne Hscan Hn) as Hstart.
  destruct (Stream_handle_cases env r sched)
    as [(id & es & -> & [[-> ->]|[[-> ->]|[-> ->]]])| ->].
  1-3: constructor.
  assert (H : Stream.startSequence (Stream.run sched (Stream_entered env r)) = n + 1 /\
              Forall (fun id => n + 1 < id)
                (token_ids (frames (Stream.trace (Stream.run sched (Stream_entered env r))))
                 ++ map Sequence (Stream.msgChan (Stream.run sched (Stream_entered env r))))).
  { apply (Stream_run_ind (fun c =>
             Stream.startSequence c = n + 1 /\
             Forall (fun id => n + 1 < id)
                    (token_ids (frames (Stream.trace c)) ++ map Sequence (Stream.msgChan c)))).
    - intros c e [Hs H].
      destruct (Stream_step_shape c e) as (_ & _ & _ & _ & Hs' & _).
      split; [congruence|].
      pose proof (Stream_step_resume c e) as Hstep. simpl in Hstep.
      rewrite Hs', Hs in Hstep. apply Hstep; [lia|exact H].
    - split; [exact Hstart|]. simpl. constructor. }
  destruct H as [_ H]. apply Forall_app in H. destruct H as [H _].
  eapply Forall_impl; [exact H|]. intros id Hid. simpl in Hid. lia.
Qed.

Lemma Stream_resume_never_replays_witness :
  let sched := [Stream.Deliver (Encoded (c1_token 4)) false;
                Stream.Deliver (Encoded (c1_token 5)) false;
                Stream.Deliver (Encoded (c1_token 8)) false;
                Stream.Select Stream.CaseMsg;
                Stream.Select Stream.CaseMsg] in
  Stream.LastEventID c1_request <> "" /\
  Scan.Sscanf_d (Stream.LastEventID c1_request) = Some 5 /\
  0 <= 5 < 2^63 - 1 /\
  Forall (fun id => 5 < id)
         (token_ids (frames (Stream.trace (Stream.HandleStream c1_env c1_request sched)))).
Proof.
  intros sched.
  assert (H1 : Stream.LastEventID c1_request <> "") by discriminate.
  assert (H2 : Scan.Sscanf_d (Stream.LastEventID c1_request) = Some 5) by reflexivity.
  assert (H3 : 0 <= 5 < 2^63 - 1) by lia.
  split; [exact H1|]. split; [exact H2|]. split; [exact H3|].
  apply (Stream_resume_never_replays c1_env c1_request sched 5 H1 H2 H3).
Defined.

(** ** [HandleStream]: nothing is lost below the capacity of the queue *)

Lemma Stream_step_doneClosed (c : Stream.Conn) (e : Stream.Event) :
  Stream.doneClosed c = Stream.returned c ->
  Stream.doneClosed (Stream.step c e) = Stream.returned (Stream.step c e).
Proof.
  intros H. destruct e as [p pick|d| |k]; simpl.
  - destruct (Stream_callback_queue p pick c) as [q ->]. exact H.
  - unfold Stream.elapse. destruct (negb _ && _); exact H.
  - exact H.
  - unfold Stream.select.
    destruct (Stream.returned c) eqn:Hret; [rewrite Hret; exact H|].
    destruct k.
    + destruct (Stream.ctxDone c); [reflexivity|rewrite Hret; exact H].
    + destruct (Stream.msgChan c) as [|t q]; [rewrite Hret; exact H|].
      destruct (Done t); [reflexivity|]. simpl. rewrite Hret. exact H.
    + destruct (Stream.tickC c); simpl; rewrite Hret; exact H.
Qed.

Lemma Stream_run_lossless (sched : list Stream.Event) (c : Stream.Conn) :
  Stream.startSequence c <= 0 ->
  Stream.doneClosed c = Stream.returned c ->
  Stream.returned (Stream.run sched c) = false ->
  (length (Stream.msgChan c) + length (Stream.delivered sched) <= msgChanCap)%nat ->
  token_ids (frames (Stream.trace (Stream.run sched c)))
    ++ map Sequence (Stream.msgChan (Stream.run sched c))
  = token_ids (frames (Stream.trace c)) ++ map Sequence (Stream.msgChan c)
    ++ map Sequence (Stream.delivered sched).
Proof.
  revert c. induction sched as [|e sched IH]; intros c Hs Hd Hret Hlen.
  - simpl. rewrite app_nil_r. reflexivity.
  - rewrite Stream_run_cons in *.
    assert (Hret1 : Stream.returned (Stream.step c e) = false).
    { destruct (Stream.returned (Stream.step c e)) eqn:E; [|reflexivity].
      destruct (Stream_run_returned sched _ E) as [E' _]. congruence. }
    assert (Hret0 : Stream.returned c = false).
    { destruct (Stream.returned c) eqn:E; [|reflexivity].
      destruct (Stream_step_returned c e E) as [E' _]. congruence. }
    destruct (Stream_step_shape c e) as (_ & _ & _ & _ & Hs' & _).
    pose proof (Stream_step_doneClosed c e Hd) as Hd'.
    change (e :: sched) with ([e] ++ sched) in *.
    rewrite Stream_delivered_app, length_app in Hlen.
    rewrite Stream_delivered_app, map_app.
    assert (Hstep :
      token_ids (frames (Stream.trace (Stream.step c e)))
        ++ map Sequence (Stream.msgChan (Stream.step c e))
      = token_ids (frames (Stream.trace c)) ++ map Sequence (Stream.msgChan c)
        ++ map Sequence (Stream.delivered [e]) /\
      (length (Stream.msgChan (Stream.step c e))
       <= length (Stream.msgChan c) + length (Stream.delivered [e]))%nat).
    { clear IH. revert Hret1. destruct e as [p pick|d| |k].
      - destruct p as [raw|t];
          [unfold Stream.step, Stream.callback; simpl; intros _;
           rewrite ?app_nil_r; split; [reflexivity|lia]|].
        change (Stream.delivered [Stream.Deliver (Encoded t) pick]) with [t] in *.
        cbn [Stream.step]. unfold Stream.callback. cbn [json_Unmarshal].
        destruct (Z.ltb_spec 0 (Stream.startSequence c)); [lia|].
        rewrite andb_false_l, Hd, Hret0, andb_false_r.
        destruct (Nat.ltb_spec (length (Stream.msgChan c)) msgChanCap);
          [|simpl in Hlen; lia].
        intros _. cbn [Stream.set_msgChan Stream.msgChan Stream.trace].
        rewrite map_app, length_app. simpl. split; [reflexivity|lia].
      - simpl. unfold Stream.elapse. destruct (negb _ && _);
          (simpl; intros _; rewrite ?app_nil_r; split; [reflexivity|simpl; lia]).
      - simpl. intros _; rewrite ?app_nil_r; split; [reflexivity|simpl; lia].
      - simpl. unfold Stream.select. rewrite Hret0.
        destruct k.
        + destruct (Stream.ctxDone c); [discriminate|].
          intros _; rewrite ?app_nil_r; split; [reflexivity|simpl; lia].
        + destruct (Stream.msgChan c) as [|t q] eqn:Hq;
            [intros _; rewrite ?Hq; simpl; rewrite ?app_nil_r;
             split; [reflexivity|lia]|].
          destruct (Done t); [discriminate|]. simpl. intros _.
          rewrite frames_app, token_ids_app. simpl.
          rewrite app_nil_r, <- app_assoc. simpl. split; [reflexivity|lia].
        + destruct (Stream.tickC c); simpl; intros _.
          * rewrite frames_app, token_ids_app. simpl. rewrite !app_nil_r.
            split; [reflexivity|lia].
          * rewrite app_nil_r. split; [reflexivity|lia]. }
    destruct Hstep as [Heq Hle].
    rewrite IH; try assumption; [|lia|lia].
    rewrite app_assoc, Heq, <- !app_assoc. reflexivity.
Qed.

(** X7.  Without a resume point (no [Last-Event-ID], or one that gives a
    start sequence of 0 or less), as long as the handler is in its loop and
    the bus has delivered no more envelopes than the queue can hold, nothing
    is lost: the token events written followed by the envelopes waiting in
    the queue are exactly the envelopes delivered, in order. *)
Theorem Stream_lossless_below_capacity (env : Stream.Env) (r : Stream.Request)
    (sched : list Stream.Event) :
  let c := Stream.HandleStream env r sched in
  Stream.startSequence_of (Stream.LastEventID r) <= 0 ->
  Stream.returned c = false ->
  (length (Stream.delivered sched) <= msgChanCap)%nat ->
  token_ids (frames (Stream.trace c)) ++ map Sequence (Stream.msgChan c)
  = map Sequence (Stream.delivered sched).
Proof.
  intros c Hs Hret Hlen. subst c.
  destruct (Stream_handle_cases env r sched)
    as [(id & es & E & _)| E]; rewrite E in *; [discriminate|].
  rewrite Stream_run_lossless; auto.
Qed.

Lemma Stream_lossless_below_capacity_witness :
  let sched := [Stream.Deliver (Encoded (c1_token 1)) false;
                Stream.Deliver (Encoded (c1_token 2)) false;
                Stream.Select Stream.CaseMsg;
                Stream.Elapse keepAlivePeriod;
                Stream.Select Stream.CaseTick;
                Stream.Deliver (Encoded (c1_token 3)) false] in
  let c := Stream.HandleStream c1_env fresh_request sched in
  Stream.startSequence_of (Stream.LastEventID fresh_request) <= 0 /\
  Stream.returned c = false /\
  (length (Stream.delivered sched) <= msgChanCap)%nat /\
  token_ids (frames (Stream.trace c)) ++ map Sequence (Stream.msgChan c)
  = map Sequence (Stream.delivered sched).
Proof.
  intros sched c.
  assert (H1 : Stream.startSequence_of (Stream.LastEventID fresh_request) <= 0)
    by (vm_compute; discriminate).
  assert (H2 : Stream.returned c = false) by reflexivity.
  assert (H3 : (length (Stream.delivered sched) <= msgChanCap)%nat)
    by (vm_compute; lia).
  split; [exact H1|]. split; [exact H2|]. split; [exact H3|].
  apply (Stream_lossless_below_capacity c1_env fresh_request sched H1 H2 H3).
Defined.

(** ** [HandleChat]: what a step adds to the trace *)

Local Ltac chat_idle :=
  exists []; rewrite app_nil_r;
  split; [reflexivity|]; split; [apply ca_nothing; reflexivity|];
  simpl; repeat split; auto; try (intros; congruence).

Local Ltac chat_shape ctor :=
  split; [simpl; rewrite <- ?app_assoc; reflexivity|];
  split; [ctor; auto|];
  simpl; repeat split; auto; try (intros; congruence).

Lemma Chat_callback_queue (p : Payload) (pick : bool) (c : Chat.Conn) :
  exists q, Chat.callback p pick c = Chat.set_msgChan q c.
Proof.
  destruct c. unfold Chat.callback. simpl.
  destruct (json_Unmarshal p); [|eexists; reflexivity].
  repeat match goal with
         | |- context [if ?b then _ else _] => destruct b
         end; eexists; reflexivity.
Qed.

Lemma Chat_step_shape (c : Chat.Conn) (e : Chat.Event) :
  exists extra,
    Chat.trace (Chat.step c e) = Chat.trace c ++ extra /\
    Chat_appends c (Chat.step c e) extra /\
    Chat.connID (Chat.step c e) = Chat.connID c /\
    Chat.conversationID (Chat.step c e) = Chat.conversationID c /\
    (Chat.ctxDone c = true -> Chat.ctxDone (Chat.step c e) = true).
Proof.
  destruct e as [p pick|d| |res|k]; simpl.
  - destruct (Chat_callback_queue p pick c) as [q ->]. chat_idle.
  - chat_idle.
  - chat_idle.
  - unfold Chat.forwardDone.
    destruct (Chat.forwarding c); [|chat_idle].
    destruct res; [chat_idle|].
    destruct (negb _ && negb _); chat_idle.
  - unfold Chat.select.
    destruct (Chat.returned c) eqn:Hret; [chat_idle|].
    destruct k.
    + destruct (Chat.ctxDone c) eqn:Hctx; [|chat_idle].
      exists (chat_deferred (Chat.connID c)).
      chat_shape ltac:(apply ca_disconnect).
    + destruct (Chat.errChan c) as [err|]; [|chat_idle].
      exists ([Fprintf (FError (ForwardingFailed err)); Flush]
                ++ chat_deferred (Chat.connID c)).
      chat_shape ltac:(apply ca_error).
    + destruct (Chat.timerC c); [|chat_idle].
      simpl. destruct (Chat.receivedFirstToken c); simpl; [chat_idle|].
      exists ([Fprintf (FError FirstTokenTimeout); Flush]
                ++ chat_deferred (Chat.connID c)).
      chat_shape ltac:(apply ca_error).
    + destruct (Chat.msgChan c) as [|t q]; [chat_idle|].
      destruct (Done t) eqn:Hd.
      * exists ([TimerStop; Fprintf (FToken (Sequence t) t); Flush]
                  ++ chat_deferred (Chat.connID c)).
        chat_shape ltac:(apply ca_done).
      * exists [TimerStop; Fprintf (FToken (Sequence t) t); Flush].
        chat_shape ltac:(apply ca_token).
    + destruct (Chat.tickC c) eqn:Ht; [|chat_idle].
      exists [Fprintf (FComment ": keep-alive"); Flush].
      chat_shape ltac:(apply ca_keepalive).
Qed.

Lemma Chat_run_ind (P : Chat.Conn -> Prop) :
  (forall c e, P c -> P (Chat.step c e)) ->
  forall sched c, P c -> P (Chat.run sched c).
Proof.
  intros Hstep sched. induction sched as [|e sched IH]; intros c H; [exact H|].
  rewrite Chat_run_cons. apply IH, Hstep, H.
Qed.

(** The ways [HandleChat] goes on after its checks. *)
Lemma Chat_handle_cases (cfg : Chat.Config) (env : Chat.Env) (r : Chat.Request)
    (sched : list Chat.Event) :
  (Chat.Method r = "OPTIONS" /\
   Chat.HandleChat cfg env r sched = Chat.stop env "" 0 preflight) \/
  (exists cid id pre msg code,
      Chat.HandleChat cfg env r sched
      = Chat.stop env cid id (pre ++ [HttpError msg code]) /\
      count_eff is_http_error pre = 0%nat /\
      count_eff is_subscribed pre = 0%nat /\
      count_eff is_store pre = 0%nat /\
      count_eff is_forward pre = 0%nat /\
      frames pre = [] /\
      count_eff is_unsubscribe pre = 0%nat /\
      count_eff is_close_done pre = 0%nat /\
      count_eff is_delete pre = 0%nat /\
      Forall (names_conn id) pre /\
      flushed_from false pre = true) \/
  (exists chatReq,
      Chat.ReqBody r = Chat.Parsed chatReq /\
      Chat.HandleChat cfg env r sched
      = Chat.run sched
          (Chat.entered env (Chat.conversationID_of env chatReq)
             (DecodeBody :: sseHeaders ++
              [ConnCountAdd (wrap64 (Chat.connCount env + 1));
               NatsSubscribe (subject_of (Chat.conversationID_of env chatReq)) true;
               SubscriptionsStore (wrap64 (Chat.connCount env + 1));
               Fprintf (FConnected (Chat.conversationID_of env chatReq)); Flush;
               GoForward (String.append (TrimSuffix (Chat.LLMProxyURL cfg) "/") "/chat")
                         (Chat.Message chatReq) (Chat.conversationID_of env chatReq);
               NewTicker keepAlivePeriod;
               NewTimer firstTokenTimeoutAfter]))).
Proof.
  unfold Chat.HandleChat.
  assert (Hrej : forall cid id pre msg code,
            count_eff is_http_error pre = 0%nat ->
            count_eff is_subscribed pre = 0%nat ->
            count_eff is_store pre = 0%nat ->
            count_eff is_forward pre = 0%nat ->
            frames pre = [] ->
            count_eff is_unsubscribe pre = 0%nat ->
            count_eff is_close_done pre = 0%nat ->
            count_eff is_delete pre = 0%nat ->
            Forall (names_conn id) pre ->
            flushed_from false pre = true ->
            forall P Q : Prop,
              P \/ (exists cid' id' pre' msg' code',
                      Chat.stop env cid id (pre ++ [HttpError msg code])
                      = Chat.stop env cid' id' (pre' ++ [HttpError msg' code']) /\
                      count_eff is_http_error pre' = 0%nat /\
                      count_eff is_subscribed pre' = 0%nat /\
                      count_eff is_store pre' = 0%nat /\
                      count_eff is_forward pre' = 0%nat /\
                      frames pre' = [] /\
                      count_eff is_unsubscribe pre' = 0%nat /\
                      count_eff is_close_done pre' = 0%nat /\
                      count_eff is_delete pre' = 0%nat /\
                      Forall (names_conn id') pre' /\
                      flushed_from false pre' = true) \/ Q).
  { intros. right. left. exists cid, id, pre, msg, code. repeat split; assumption. }
  destruct (negb (String.eqb (Chat.Method r) "POST")).
  { destruct (String.eqb_spec (Chat.Method r) "OPTIONS"); [left; auto|].
    apply (Hrej "" 0 []); try reflexivity. constructor. }
  destruct (String.eqb (Chat.LLMProxyURL cfg) "").
  { apply (Hrej "" 0 []); try reflexivity. constructor. }
  destruct (Chat.ReqBody r) as [raw|chatReq].
  { apply (Hrej "" 0 [DecodeBody]); try reflexivity. repeat constructor. }
  destruct (String.eqb (Chat.Message chatReq) "").
  { apply (Hrej "" 0 [DecodeBody]); try reflexivity. repeat constructor. }
  destruct (negb (Chat.CanFlush r)).
  { apply (Hrej _ 0 (DecodeBody :: sseHeaders)); try reflexivity. repeat constructor. }
  destruct (negb (Chat.SubscribeOk env)).
  { apply (Hrej _ _ (DecodeBody :: sseHeaders ++
                     [ConnCountAdd (wrap64 (Chat.connCount env + 1));
                      NatsSubscribe (subject_of (Chat.conversationID_of env chatReq)) false]));
      try reflexivity.
    repeat constructor. }
  right. right. exists chatReq. split; reflexivity.
Qed.

Lemma Chat_appends_facts (c c' : Chat.Conn) (extra : list Effect) :
  Chat_appends c c' extra ->
  flushed_from false extra = true /\
  Forall chat_loop_frame (frames extra) /\
  count_eff is_http_error extra = 0%nat /\
  count_eff is_subscribed extra = 0%nat /\
  count_eff is_store extra = 0%nat /\
  count_eff is_forward extra = 0%nat /\
  count_eff is_close_done extra = count_eff is_unsubscribe extra /\
  count_eff is_delete extra = count_eff is_unsubscribe extra /\
  Forall (names_conn (Chat.connID c)) extra /\
  count_eff is_unsubscribe extra
  = (if Chat.returned c then 0 else if Chat.returned c' then 1 else 0)%nat.
Proof.
  destruct 1 as [Hr|Hr Hr' _|t Hr Hr' _|t Hr Hr' _|cause Hr Hr'|Hr Hr' _];
    rewrite ?Hr, ?Hr'; simpl;
    repeat split; try reflexivity; repeat constructor.
  destruct (Chat.returned c); reflexivity.
Qed.

(** ** [HandleChat]: flushes, the subscription, the answer *)

(** X8.  In every run of [HandleChat] each frame written to the client
    (the connected event, token events, keep-alives, error events) is
    followed at once by a flush. *)
Theorem Chat_every_frame_flushed (cfg : Chat.Config) (env : Chat.Env)
    (r : Chat.Request) (sched : list Chat.Event) :
  flushed_from false (Chat.trace (Chat.HandleChat cfg env r sched)) = true.
Proof.
  destruct (Chat_handle_cases cfg env r sched)
    as [[_ ->]|[(cid & id & pre & msg & code & -> & H)|(chatReq & _ & ->)]].
  - reflexivity.
  - destruct H as (_ & _ & _ & _ & _ & _ & _ & _ & _ & Hf).
    simpl. apply flushed_from_app; [exact Hf|reflexivity].
  - apply Chat_run_ind; [|reflexivity].
    intros c e H.
    destruct (Chat_step_shape c e) as (extra & -> & Happ & _).
    apply flushed_from_app; [exact H|].
    apply (Chat_appends_facts _ _ _ Happ).
Qed.

(** X9.  In every run of [HandleChat] the bus is subscribed to at most
    once; a successful subscription is stored under the connection id and is
    released (done channel closed, subscription cancelled, entry deleted,
    each once and under the same id) exactly when the handler has returned. *)
Theorem Chat_subscription_lifecycle (cfg : Chat.Config) (env : Chat.Env)
    (r : Chat.Request) (sched : list Chat.Event) :
  let c := Chat.HandleChat cfg env r sched in
  lifecycle (Chat.returned c) (Chat.connID c) (Chat.trace c).
Proof.
  intros c. subst c.
  destruct (Chat_handle_cases cfg env r sched)
    as [[_ ->]|[(cid & id & pre & msg & code & -> & H)|(chatReq & _ & ->)]].
  - unfold lifecycle; simpl; repeat split; try lia; repeat constructor.
  - destruct H as (_ & H1 & H2 & _ & _ & H3 & H4 & H5 & H6 & _).
    unfold lifecycle. simpl. rewrite !count_eff_app, H1, H2, H3, H4, H5. simpl.
    repeat split; try lia. apply Forall_app. split; [exact H6|repeat constructor].
  - assert (H : forall c0,
              count_eff is_subscribed (Chat.trace c0) = 1%nat ->
              lifecycle (Chat.returned c0) (Chat.connID c0) (Chat.trace c0) ->
              count_eff is_subscribed (Chat.trace (Chat.run sched c0)) = 1%nat /\
              lifecycle (Chat.returned (Chat.run sched c0))
                        (Chat.connID (Chat.run sched c0))
                        (Chat.trace (Chat.run sched c0))).
    { intros c0 Hs0 Hl0.
      apply (Chat_run_ind (fun c => count_eff is_subscribed (Chat.trace c) = 1%nat /\
               lifecycle (Chat.returned c) (Chat.connID c) (Chat.trace c)));
        [|split; assumption].
      intros c e [Hs Hl].
      destruct (Chat_step_shape c e) as (extra & -> & Happ & -> & _).
      destruct (Chat_appends_facts _ _ _ Happ)
        as (_ & _ & _ & E1 & E2 & _ & E3 & E4 & E5 & E6).
      rewrite count_eff_app, E1. split; [lia|].
      apply (lifecycle_extend _ _ _ _ _ Hl); try assumption.
      rewrite E6. destruct Hl as (_ & _ & Hun & _). rewrite Hun, Hs.
      destruct Happ as [Hr|Hr Hr' _|t Hr Hr' _|t Hr Hr' _|cause Hr Hr'|Hr Hr' _];
        rewrite ?Hr'; rewrite ?Hr; try reflexivity.
      destruct (Chat.returned c); reflexivity. }
    apply H; [reflexivity|].
    unfold lifecycle; simpl; repeat split; try lia; repeat constructor.
Qed.

(** X10.  [HandleChat] answers every request in one of three ways: the
    four lines of the CORS preflight (method OPTIONS) and nothing else; or
    exactly one HTTP error, without any frame, kept subscription or
    forwarding; or a stream that opens with the connected event carrying the
    conversation id and goes on with keep-alive comments, token events whose
    id is the sequence number of their envelope, and error events.  The
    request is forwarded to the proxy exactly when the subscription
    succeeded, once. *)
Theorem Chat_preflight_error_or_stream (cfg : Chat.Config) (env : Chat.Env)
    (r : Chat.Request) (sched : list Chat.Event) :
  let c := Chat.HandleChat cfg env r sched in
  ((Chat.Method r = "OPTIONS" /\ Chat.trace c = preflight) \/
   answered chat_loop_frame (FConnected (Chat.conversationID c))
            (Chat.returned c) (Chat.trace c)) /\
  count_eff is_forward (Chat.trace c) = count_eff is_subscribed (Chat.trace c).
Proof.
  intros c. subst c.
  destruct (Chat_handle_cases cfg env r sched)
    as [[Hm ->]|[(cid & id & pre & msg & code & -> & H)|(chatReq & _ & ->)]].
  - split; [left; auto|reflexivity].
  - destruct H as (H0 & H1 & _ & H2 & H3 & _).
    unfold answered, Chat.stop. cbn [Chat.trace Chat.returned].
    rewrite !count_eff_app, frames_app, H0, H1, H2, H3. simpl.
    split; [|reflexivity]. right. left. auto.
  - match goal with
    | |- context [Chat.run sched ?c0] => set (start := c0)
    end.
    assert (H : count_eff is_http_error (Chat.trace (Chat.run sched start)) = 0%nat /\
                (exists rest,
                    frames (Chat.trace (Chat.run sched start))
                    = FConnected (Chat.conversationID start) :: rest /\
                    Forall chat_loop_frame rest) /\
                count_eff is_forward (Chat.trace (Chat.run sched start)) = 1%nat /\
                count_eff is_subscribed (Chat.trace (Chat.run sched start)) = 1%nat /\
                Chat.conversationID (Chat.run sched start) = Chat.conversationID start).
    { apply (Chat_run_ind (fun c =>
               count_eff is_http_error (Chat.trace c) = 0%nat /\
               (exists rest,
                   frames (Chat.trace c) = FConnected (Chat.conversationID start) :: rest /\
                   Forall chat_loop_frame rest) /\
               count_eff is_forward (Chat.trace c) = 1%nat /\
               count_eff is_subscribed (Chat.trace c) = 1%nat /\
               Chat.conversationID c = Chat.conversationID start)).
      - intros c e (Hno & (rest & Hfs & Hrest) & Hfw & Hsub & Hcid).
        destruct (Chat_step_shape c e) as (extra & -> & Happ & _ & -> & _).
        destruct (Chat_appends_facts _ _ _ Happ)
          as (_ & Hloop & E0 & E1 & _ & E2 & _).
        rewrite !count_eff_app, frames_app, Hfs, Hno, E0, E1, E2, Hfw, Hsub.
        repeat split; try assumption.
        exists (rest ++ frames extra). split; [reflexivity|].
        apply Forall_app; auto.
      - repeat split; try reflexivity.
        exists []. split; [reflexivity|constructor]. }
    destruct H as (Hno & Hfs & Hfw & Hsub & Hcid).
    rewrite Hcid, Hfw, Hsub. split; [|reflexivity].
    right. right. auto.
Qed.

(** X11.  At any point of any run of [HandleChat], the handler is still in
    its loop, or the request was a preflight or got an HTTP error, or the
    context of the request is cancelled, or a token event with [done = true]
    was written, or an error event was written: there is no other way out of
    the loop. *)
Theorem Chat_returns_only_when (cfg : Chat.Config) (env : Chat.Env)
    (r : Chat.Request) (sched : list Chat.Event) :
  let c := Chat.HandleChat cfg env r sched in
  Chat.returned c = false \/
  frames (Chat.trace c) = [] \/
  Chat.ctxDone c = true \/
  (0 < count is_done_token (frames (Chat.trace c)))%nat \/
  (0 < count is_error (frames (Chat.trace c)))%nat.
Proof.
  intros c. subst c.
  destruct (Chat_handle_cases cfg env r sched)
    as [[Hm ->]|[(cid & id & pre & msg & code & -> & H)|(chatReq & _ & ->)]].
  - right. left. reflexivity.
  - right. left. destruct H as (_ & _ & _ & _ & H & _).
    unfold Chat.stop. cbn [Chat.trace]. rewrite frames_app, H. reflexivity.
  - match goal with
    | |- context [Chat.run sched ?c0] => set (start := c0)
    end.
    assert (H : Chat.returned (Chat.run sched start) = false \/
                Chat.ctxDone (Chat.run sched start) = true \/
                (0 < count is_done_token (frames (Chat.trace (Chat.run sched start))))%nat \/
                (0 < count is_error (frames (Chat.trace (Chat.run sched start))))%nat);
      [|tauto].
    apply (Chat_run_ind (fun c =>
             Chat.returned c = false \/ Chat.ctxDone c = true \/
             (0 < count is_done_token (frames (Chat.trace c)))%nat \/
             (0 < count is_error (frames (Chat.trace c)))%nat)); [|left; reflexivity].
    intros c e H.
    destruct (Chat_step_shape c e) as (extra & -> & Happ & _ & _ & Hctx).
    rewrite frames_app, !count_app.
    destruct Happ as [Hr|Hr Hr' _|t Hr Hr' _|t Hr Hr' Hd|cause Hr Hr'|Hr Hr' Hc]; simpl.
    + rewrite Hr. destruct H as [H|[H|[H|H]]]; auto.
      * right. right. left. lia.
      * right. right. right. lia.
    + auto.
    + auto.
    + right. right. left. rewrite Hd. lia.
    + right. right. right. lia.
    + auto.
Qed.

(** ** [HandleChat]: order of delivery *)

Lemma Chat_step_order (c : Chat.Conn) (e : Chat.Event) (pub : list Z) :
  Chat_order_inv c pub ->
  Chat_order_inv (Chat.step c e) (pub ++ map Sequence (Chat_delivered [e])).
Proof.
  unfold Chat_order_inv. intros H.
  assert (Hkeep : forall k, sublist
            (token_ids (frames (Chat.trace c)) ++ map Sequence (Chat.msgChan c))
            (pub ++ k)) by (intros k; apply sublist_inserts_r; exact H).
  assert (Hpush : forall t, sublist
            (token_ids (frames (Chat.trace c)) ++
             map Sequence (Chat.msgChan c ++ [t]))
            (pub ++ [Sequence t])).
  { intros t. rewrite map_app, app_assoc. apply sublist_app; [exact H|].
    simpl. reflexivity. }
  destruct e as [p pick|d| |res|k]; simpl.
  - destruct p as [raw|t]; simpl; [apply Hkeep|].
    unfold Chat.callback; simpl.
    repeat match goal with
           | |- context [if ?b then _ else _] => destruct b
           end; simpl; first [apply Hpush | apply Hkeep].
  - apply Hkeep.
  - apply Hkeep.
  - unfold Chat.forwardDone.
    destruct (Chat.forwarding c); [|apply Hkeep].
    destruct res; [apply Hkeep|].
    destruct (negb _ && negb _); apply Hkeep.
  - rewrite app_nil_r. unfold Chat.select.
    destruct (Chat.returned c); [exact H|].
    destruct k.
    + destruct (Chat.ctxDone c); [|exact H].
      rewrite Chat_trace_ret. simpl. exact H.
    + destruct (Chat.errChan c); [|exact H].
      rewrite Chat_trace_ret. simpl.
      rewrite frames_app, token_ids_app. simpl. rewrite app_nil_r. exact H.
    + destruct (Chat.timerC c); [|exact H]. simpl.
      destruct (Chat.receivedFirstToken c); simpl; [exact H|].
      rewrite !frames_app, !token_ids_app. simpl. rewrite !app_nil_r. exact H.
    + destruct (Chat.msgChan c) as [|t q] eqn:Hq; [rewrite Hq; exact H|].
      assert (Hgoal : sublist
                (token_ids (frames ((Chat.trace c ++ [TimerStop]) ++
                   [Fprintf (FToken (Sequence t) t); Flush])) ++ map Sequence q) pub).
      { rewrite !frames_app, !token_ids_app. simpl.
        rewrite app_nil_r, <- app_assoc. exact H. }
      destruct (Done t); [rewrite Chat_trace_ret|]; simpl; exact Hgoal.
    + destruct (Chat.tickC c); [|exact H]. simpl.
      rewrite frames_app, token_ids_app. simpl. rewrite app_nil_r. exact H.
Qed.

Lemma Chat_delivered_app (s1 s2 : list Chat.Event) :
  Chat_delivered (s1 ++ s2) = Chat_delivered s1 ++ Chat_delivered s2.
Proof. unfold Chat_delivered. apply omap_app. Qed.

Lemma Chat_run_order (sched : list Chat.Event) (c : Chat.Conn) (pub : list Z) :
  Chat_order_inv c pub ->
  Chat_order_inv (Chat.run sched c) (pub ++ map Sequence (Chat_delivered sched)).
Proof.
  revert c pub. induction sched as [|e sched IH]; intros c pub H.
  - simpl. rewrite app_nil_r. exact H.
  - change (e :: sched) with ([e] ++ sched).
    rewrite Chat_delivered_app, map_app, app_assoc.
    apply (IH (Chat.step c e)). apply Chat_step_order. exact H.
Qed.

(** X12.  In every run of [HandleChat] the ids of the token events written
    are a subsequence of the sequence numbers of the envelopes the bus
    delivered, in the order of delivery: an envelope may be missing (dropped
    on a full queue, or still waiting), none is written twice or moved.
    When the delivered sequence numbers increase strictly, so do the ids. *)
Theorem Chat_token_ids_ordered (cfg : Chat.Config) (env : Chat.Env)
    (r : Chat.Request) (sched : list Chat.Event) :
  let ids := token_ids (frames (Chat.trace (Chat.HandleChat cfg env r sched))) in
  sublist ids (map Sequence (Chat_delivered sched)) /\
  (StronglySorted Z.lt (map Sequence (Chat_delivered sched)) ->
   StronglySorted Z.lt ids /\ NoDup ids).
Proof.
  intros ids.
  assert (Hsub : sublist ids (map Sequence (Chat_delivered sched))).
  { subst ids.
    destruct (Chat_handle_cases cfg env r sched)
      as [[_ ->]|[(cid & id & pre & msg & code & -> & H)|(chatReq & _ & ->)]].
    - apply sublist_nil_l.
    - destruct H as (_ & _ & _ & _ & H & _).
      unfold Chat.stop. cbn [Chat.trace]. rewrite frames_app, H. apply sublist_nil_l.
    - match goal with
      | |- context [Chat.run sched ?c0] =>
          pose proof (Chat_run_order sched c0 []) as Hrun
      end.
      unfold Chat_order_inv in Hrun. simpl in Hrun.
      etransitivity; [|apply Hrun; apply sublist_nil_l].
      apply sublist_inserts_r. reflexivity. }
  split; [exact Hsub|]. intros Hsorted.
  assert (Hs : StronglySorted Z.lt ids) by (eapply sublist_StronglySorted; eauto).
  split; [exact Hs|apply StronglySorted_lt_NoDup; exact Hs].
Qed.

Lemma Chat_token_ids_ordered_witness :
  let sched := [Chat.Deliver (Encoded (chat_token 1 false)) false;
                Chat.Deliver (Encoded (chat_token 2 false)) false;
                Chat.Select Chat.CaseMsg;
                Chat.Deliver (Encoded (chat_token 3 true)) false;
                Chat.Select Chat.CaseMsg] in
  let ids := token_ids (frames (Chat.trace
                                  (Chat.HandleChat chat_cfg chat_env chat_request sched))) in
  StronglySorted Z.lt (map Sequence (Chat_delivered sched)) /\
  StronglySorted Z.lt ids /\ NoDup ids.
Proof.
  intros sched ids.
  assert (Hs : StronglySorted Z.lt (map Sequence (Chat_delivered sched))).
  { simpl. repeat constructor. }
  split; [exact Hs|].
  destruct (Chat_token_ids_ordered chat_cfg chat_env chat_request sched) as [_ H].
  apply H. exact Hs.
Defined.

(** ** [HandleChat]: the pace of keep-alives *)

Lemma Chat_step_pace (c : Chat.Conn) (e : Chat.Event) :
  let pace c :=
    (Z.of_nat (count is_keepalive (frames (Chat.trace c)))
     + (if Chat.tickC c then 1 else 0)) * keepAlivePeriod
    <= Chat.nextTick c - keepAlivePeriod /\
    Chat.nextTick c - keepAlivePeriod <= Chat.clock c in
  pace c -> pace (Chat.step c e).
Proof.
  intros pace [Hk Hc]. unfold pace in *. clear pace.
  destruct e as [p pick|d| |res|k]; simpl.
  - destruct (Chat_callback_queue p pick c) as [q ->]. simpl. auto.
  - destruct (negb (Chat.tickerStopped c)); simpl.
    + destruct (Z.leb_spec (Chat.nextTick c) (Chat.clock c + Z.max 0 d)); simpl.
      * apply (keepalive_pace_tick _ (if Chat.tickC c then 1 else 0));
          [destruct (Chat.tickC c); lia|exact Hk|assumption].
      * split; [exact Hk|lia].
    + split; [exact Hk|lia].
  - auto.
  - unfold Chat.forwardDone.
    destruct (Chat.forwarding c); [|auto].
    destruct res; [simpl; auto|].
    destruct (negb _ && negb _); simpl; auto.
  - unfold Chat.select.
    destruct (Chat.returned c); [auto|].
    destruct k.
    + destruct (Chat.ctxDone c); [|auto].
      rewrite Chat_trace_ret. simpl. auto.
    + destruct (Chat.errChan c); [|auto].
      rewrite Chat_trace_ret. simpl.
      rewrite frames_app, count_app. simpl. rewrite Nat.add_0_r. auto.
    + destruct (Chat.timerC c); [|auto]. simpl.
      destruct (Chat.receivedFirstToken c); simpl; [auto|].
      rewrite !frames_app, !count_app. simpl. rewrite !Nat.add_0_r. auto.
    + destruct (Chat.msgChan c) as [|t q]; [auto|].
      destruct (Done t); [rewrite Chat_trace_ret|]; simpl;
        rewrite !frames_app, !count_app; simpl; rewrite !Nat.add_0_r; auto.
    + destruct (Chat.tickC c) eqn:Ht; [|rewrite Ht; auto]. simpl.
      rewrite frames_app, count_app. simpl.
      split; [lia|exact Hc].
Qed.

(** X13.  In every run of [HandleChat], the number of keep-alive comments
    written times 15 seconds never exceeds the time that has passed since
    the timers were started. *)
Theorem Chat_keepalive_pace (cfg : Chat.Config) (env : Chat.Env)
    (r : Chat.Request) (sched : list Chat.Event) :
  let c := Chat.HandleChat cfg env r sched in
  Z.of_nat (count is_keepalive (frames (Chat.trace c))) * keepAlivePeriod
  <= Chat.clock c.
Proof.
  intros c. subst c.
  destruct (Chat_handle_cases cfg env r sched)
    as [[_ ->]|[(cid & id & pre & msg & code & -> & H)|(chatReq & _ & ->)]].
  - simpl. lia.
  - destruct H as (_ & _ & _ & _ & H & _).
    unfold Chat.stop. cbn [Chat.trace Chat.clock]. rewrite frames_app, H. simpl. lia.
  - match goal with
    | |- context [Chat.run sched ?c0] => set (start := c0)
    end.
    assert (H : (Z.of_nat (count is_keepalive (frames (Chat.trace (Chat.run sched start))))
                 + (if Chat.tickC (Chat.run sched start) then 1 else 0))
                * keepAlivePeriod
                <= Chat.nextTick (Chat.run sched start) - keepAlivePeriod /\
                Chat.nextTick (Chat.run sched start) - keepAlivePeriod
                <= Chat.clock (Chat.run sched start)).
    { apply (Chat_run_ind (fun c =>
               (Z.of_nat (count is_keepalive (frames (Chat.trace c)))
                + (if Chat.tickC c then 1 else 0)) * keepAlivePeriod
               <= Chat.nextTick c - keepAlivePeriod /\
               Chat.nextTick c - keepAlivePeriod <= Chat.clock c)).
      - intros c e H. apply (Chat_step_pace c e H).
      - simpl. lia. }
    destruct H as [Hk Hc].
    destruct (Chat.tickC _); unfold keepAlivePeriod, Second in *; lia.
Qed.

(** ** [HandleChat]: error events *)

Lemma after_error_app (fs l : list Frame) :
  count is_error fs = 0%nat -> after_error (fs ++ l) = after_error l.
Proof.
  induction fs as [|f fs IH]; simpl; [reflexivity|].
  destruct (is_error f); [lia|]. exact IH.
Qed.

Lemma after_error_nil_split (fs pre post : list Frame) (cause : ErrorCause) :
  after_error fs = [] ->
  fs = pre ++ FError cause :: post ->
  post = [].
Proof.
  intros Hnil ->. induction pre as [|f pre IH]; simpl in Hnil.
  - exact Hnil.
  - destruct (is_error f); [|exact (IH Hnil)].
    destruct pre; discriminate.
Qed.

Lemma Chat_handle_after_error (cfg : Chat.Config) (env : Chat.Env)
    (r : Chat.Request) (sched : list Chat.Event) :
  after_error (frames (Chat.trace (Chat.HandleChat cfg env r sched))) = [].
Proof.
  destruct (Chat_handle_cases cfg env r sched)
    as [[_ ->]|[(cid & id & pre & msg & code & -> & H)|(chatReq & _ & ->)]].
  - reflexivity.
  - destruct H as (_ & _ & _ & _ & H & _).
    unfold Chat.stop. cbn [Chat.trace]. rewrite frames_app, H. reflexivity.
  - match goal with
    | |- context [Chat.run sched ?c0] => set (start := c0)
    end.
    assert (H : (Chat.returned (Chat.run sched start) = false ->
                 count is_error (frames (Chat.trace (Chat.run sched start))) = 0%nat) /\
                after_error (frames (Chat.trace (Chat.run sched start))) = []);
      [|exact (proj2 H)].
    apply (Chat_run_ind (fun c =>
             (Chat.returned c = false -> count is_error (frames (Chat.trace c)) = 0%nat) /\
             after_error (frames (Chat.trace c)) = [])); [|split; reflexivity].
    intros c e [Hrun Hafter].
    destruct (Chat_step_shape c e) as (extra & -> & Happ & _).
    rewrite frames_app, count_app.
    destruct Happ as [Hr|Hr Hr' _|t Hr Hr' _|t Hr Hr' _|cause Hr Hr'|Hr Hr' _];
      rewrite ?Hr'; simpl; rewrite ?app_nil_r.
    + rewrite Hr. rewrite Nat.add_0_r. auto.
    + rewrite after_error_app by auto. split; [intros _; rewrite Hrun; auto|reflexivity].
    + rewrite after_error_app by auto. split; [intros _; rewrite Hrun; auto|reflexivity].
    + rewrite after_error_app by auto. split; [discriminate|reflexivity].
    + rewrite after_error_app by auto. split; [discriminate|reflexivity].
    + split; [discriminate|exact Hafter].
Qed.

(** X14.  In every run of [HandleChat] an error event, whether it reports
    a forwarding failure or the first-token timeout, is the last frame of
    the connection and the only error event, and the handler has returned. *)
Theorem Chat_error_event_is_last (cfg : Chat.Config) (env : Chat.Env)
    (r : Chat.Request) (sched : list Chat.Event)
    (pre post : list Frame) (cause : ErrorCause) :
  frames (Chat.trace (Chat.HandleChat cfg env r sched)) = pre ++ FError cause :: post ->
  post = [] /\
  count is_error (frames (Chat.trace (Chat.HandleChat cfg env r sched))) = 1%nat /\
  Chat.returned (Chat.HandleChat cfg env r sched) = true.
Proof.
  intros Hfs.
  destruct (Chat_handle_inv cfg env r sched) as (Hrun & _ & _ & _ & _ & _ & Hone & _).
  assert (Hpos : (0 < count is_error
                        (frames (Chat.trace (Chat.HandleChat cfg env r sched))))%nat).
  { apply (count_pos_In _ (FError cause)); [|reflexivity].
    rewrite Hfs. apply in_or_app. right. left. reflexivity. }
  split; [|split].
  - eapply after_error_nil_split; [apply Chat_handle_after_error|exact Hfs].
  - lia.
  - destruct (Chat.returned _); [reflexivity|].
    destruct (Hrun eq_refl). lia.
Qed.

Lemma Chat_error_event_is_last_witness :
  let sched := [Chat.ForwardDone (Status StatusServiceUnavailable);
                Chat.Deliver (Encoded (chat_token 1 false)) false;
                Chat.Select Chat.CaseErr;
                Chat.Select Chat.CaseMsg;
                Chat.Elapse keepAlivePeriod;
                Chat.Select Chat.CaseTick] in
  let c := Chat.HandleChat chat_cfg chat_env chat_request sched in
  frames (Chat.trace c)
  = [FConnected "conv-1"]
    ++ FError (ForwardingFailed (ProxyError StatusServiceUnavailable)) :: [] /\
  [] = @nil Frame /\
  count is_error (frames (Chat.trace c)) = 1%nat /\
  Chat.returned c = true.
Proof.
  intros sched c.
  assert (H : frames (Chat.trace c)
              = [FConnected "conv-1"]
                ++ FError (ForwardingFailed (ProxyError StatusServiceUnavailable)) :: [])
    by reflexivity.
  split; [exact H|].
  apply (Chat_error_event_is_last chat_cfg chat_env chat_request sched _ _ _ H).
Defined.

(** ** [HandleChat]: the error channel and the forwarding goroutine *)

Lemma count_forward_le_error (fs : list Frame) :
  (count is_forward_error fs <= count is_error fs)%nat.
Proof.
  induction fs as [|f fs IH]; simpl; [lia|].
  destruct f as [| | |[]]; simpl; lia.
Qed.

Lemma Chat_step_errChan (c : Chat.Conn) (e : Chat.Event) :
  let budget c :=
    (waiting (Chat.errChan c)
     + count is_forward_error (frames (Chat.trace c))
     <= if Chat.forwarding c then 0 else 1)%nat in
  budget c -> budget (Chat.step c e).
Proof.
  intros budget H. unfold budget, waiting in *. clear budget.
  destruct e as [p pick|d| |res|k]; simpl.
  - destruct (Chat_callback_queue p pick c) as [q ->]. exact H.
  - exact H.
  - exact H.
  - unfold Chat.forwardDone.
    destruct (Chat.forwarding c) eqn:Hf; [|rewrite Hf; exact H].
    destruct res; simpl; [lia|].
    destruct (negb _ && negb _); simpl; [lia|].
    destruct (Chat.errChan c); lia.
  - unfold Chat.select.
    destruct (Chat.returned c); [exact H|].
    destruct k.
    + destruct (Chat.ctxDone c); [|exact H].
      rewrite Chat_trace_ret. exact H.
    + destruct (Chat.errChan c) eqn:He; [|rewrite He; exact H].
      rewrite Chat_trace_ret. simpl.
      rewrite frames_app, count_app. simpl. lia.
    + destruct (Chat.timerC c); [|exact H]. simpl.
      destruct (Chat.receivedFirstToken c); simpl; [exact H|].
      rewrite !frames_app, !count_app. simpl. lia.
    + destruct (Chat.msgChan c) as [|t q]; [exact H|].
      destruct (Done t); [rewrite Chat_trace_ret|]; simpl;
        rewrite !frames_app, !count_app; simpl; lia.
    + destruct (Chat.tickC c); [|exact H]. simpl.
      rewrite frames_app, count_app. simpl. lia.
Qed.

(** X15.  In every run of [HandleChat] the forwarding goroutine reports at
    most one failure in its life: while it has not finished, the error
    channel is empty and no forwarding error was written (so its one send on
    the channel of capacity one finds room and cannot block); afterwards the
    errors waiting in the channel and the forwarding errors written to the
    client are at most one together. *)
Theorem Chat_one_forwarding_error (cfg : Chat.Config) (env : Chat.Env)
    (r : Chat.Request) (sched : list Chat.Event) :
  let c := Chat.HandleChat cfg env r sched in
  (waiting (Chat.errChan c)
   + count is_forward_error (frames (Chat.trace c))
   <= if Chat.forwarding c then 0 else 1)%nat.
Proof.
  intros c. subst c.
  destruct (Chat_handle_cases cfg env r sched)
    as [[_ ->]|[(cid & id & pre & msg & code & -> & H)|(chatReq & _ & ->)]].
  - simpl. lia.
  - destruct H as (_ & _ & _ & _ & H & _).
    unfold Chat.stop. cbn [Chat.trace Chat.errChan Chat.forwarding].
    rewrite frames_app, H. simpl. lia.
  - apply (Chat_run_ind (fun c =>
             (waiting (Chat.errChan c)
              + count is_forward_error (frames (Chat.trace c))
              <= if Chat.forwarding c then 0 else 1)%nat)).
    + intros c e H. apply (Chat_step_errChan c e H).
    + simpl. lia.
Qed.

Lemma Chat_run_accepted (sched : list Chat.Event) (c : Chat.Conn) :
  Forall (fun e => forward_accepted e = true) sched ->
  Chat.errChan c = None ->
  Chat.errChan (Chat.run sched c) = None /\
  count is_forward_error (frames (Chat.trace (Chat.run sched c)))
  = count is_forward_error (frames (Chat.trace c)).
Proof.
  revert c. induction sched as [|e sched IH]; intros c Hall He; [auto|].
  inversion Hall as [|? ? Hacc Hrest]; subst.
  rewrite Chat_run_cons.
  assert (Hstep : Chat.errChan (Chat.step c e) = None /\
                  count is_forward_error (frames (Chat.trace (Chat.step c e)))
                  = count is_forward_error (frames (Chat.trace c))).
  { clear IH Hall Hrest. destruct e as [p pick|d| |res|k]; simpl.
    - destruct (Chat_callback_queue p pick c) as [q ->]. auto.
    - auto.
    - auto.
    - unfold Chat.forwardDone.
      destruct (Chat.forwarding c); [|auto].
      destruct res; [discriminate Hacc|]. simpl in Hacc.
      destruct (code =? StatusOK); destruct (code =? StatusAccepted);
        simpl in *; try discriminate; auto.
    - unfold Chat.select.
      destruct (Chat.returned c); [auto|].
      destruct k.
      + destruct (Chat.ctxDone c); [|auto].
        rewrite Chat_trace_ret. simpl.
        destruct (Chat.drains c); auto.
      + rewrite He. auto.
      + destruct (Chat.timerC c); [|auto]. simpl.
        destruct (Chat.receivedFirstToken c); simpl; [auto|].
        rewrite !frames_app, !count_app. simpl. split; [exact He|lia].
      + destruct (Chat.msgChan c) as [|t q]; [auto|].
        destruct (Done t); [rewrite Chat_trace_ret|]; simpl;
          rewrite !frames_app, !count_app; simpl; split; try exact He; lia.
      + destruct (Chat.tickC c); [|auto]. simpl.
        rewrite frames_app, count_app. simpl. split; [exact He|lia]. }
  destruct Hstep as [He1 Hc1].
  destruct (IH _ Hrest He1) as [He2 Hc2].
  split; [exact He2|congruence].
Qed.

(** X16.  A forwarding that ends with status 200 or 202 is a success: in
    a run of [HandleChat] in which every answer of the proxy is one of the
    two, the error channel stays empty and no forwarding error is ever
    written to the client. *)
Theorem Chat_accepted_status_no_error (cfg : Chat.Config) (env : Chat.Env)
    (r : Chat.Request) (sched : list Chat.Event) :
  Forall (fun e => forward_accepted e = true) sched ->
  let c := Chat.HandleChat cfg env r sched in
  Chat.errChan c = None /\
  count is_forward_error (frames (Chat.trace c)) = 0%nat.
Proof.
  intros Hall c. subst c.
  destruct (Chat_handle_cases cfg env r sched)
    as [[_ ->]|[(cid & id & pre & msg & code & -> & H)|(chatReq & _ & ->)]].
  - split; reflexivity.
  - destruct H as (_ & _ & _ & _ & H & _).
    unfold Chat.stop. cbn [Chat.trace Chat.errChan].
    rewrite frames_app, H. split; reflexivity.
  - match goal with
    | |- context [Chat.run sched ?c0] =>
        destruct (Chat_run_accepted sched c0 Hall eq_refl) as [H1 H2]
    end.
    split; [exact H1|]. rewrite H2. reflexivity.
Qed.

Lemma Chat_accepted_status_no_error_witness :
  let sched := [Chat.Deliver (Encoded (chat_token 1 false)) false;
                Chat.ForwardDone (Status StatusAccepted);
                Chat.Select Chat.CaseErr;
                Chat.Select Chat.CaseMsg] in
  let c := Chat.HandleChat chat_cfg chat_env chat_request sched in
  Forall (fun e => forward_accepted e = true) sched /\
  Chat.errChan c = None /\
  count is_forward_error (frames (Chat.trace c)) = 0%nat.
Proof.
  intros sched c.
  assert (H : Forall (fun e => forward_accepted e = true) sched)
    by (repeat constructor).
  split; [exact H|].
  apply (Chat_accepted_status_no_error chat_cfg chat_env chat_request sched H).
Defined.

(** ** [HandleChat]: the timeout error comes after 30 seconds *)

Lemma Chat_step_clock (c : Chat.Conn) (e : Chat.Event) :
  Chat.clock c <= Chat.clock (Chat.step c e).
Proof.
  destruct e as [p pick|d| |res|k]; simpl.
  - destruct (Chat_callback_queue p pick c) as [q ->]. simpl. lia.
  - lia.
  - lia.
  - unfold Chat.forwardDone.
    destruct (Chat.forwarding c); [|lia].
    destruct res; [simpl; lia|].
    destruct (negb _ && negb _); simpl; lia.
  - unfold Chat.select.
    destruct (Chat.returned c); [lia|].
    destruct k.
    + destruct (Chat.ctxDone c); simpl; lia.
    + destruct (Chat.errChan c); simpl; lia.
    + destruct (Chat.timerC c); [|lia]. simpl.
      destruct (Chat.receivedFirstToken c); simpl; lia.
    + destruct (Chat.msgChan c) as [|t q]; [lia|].
      destruct (Done t); simpl; lia.
    + destruct (Chat.tickC c); simpl; lia.
Qed.

Lemma Chat_step_timeout_count (c : Chat.Conn) (e : Chat.Event) :
  count is_timeout_error (frames (Chat.trace (Chat.step c e)))
  = count is_timeout_error (frames (Chat.trace c)) \/
  Chat.timerC c = true.
Proof.
  destruct e as [p pick|d| |res|k]; simpl.
  - destruct (Chat_callback_queue p pick c) as [q ->]. auto.
  - auto.
  - auto.
  - unfold Chat.forwardDone.
    destruct (Chat.forwarding c); [|auto].
    destruct res; [simpl; auto|].
    destruct (negb _ && negb _); simpl; auto.
  - unfold Chat.select.
    destruct (Chat.returned c); [auto|].
    destruct k.
    + destruct (Chat.ctxDone c); [|auto].
      rewrite Chat_trace_ret. auto.
    + destruct (Chat.errChan c); [|auto].
      rewrite Chat_trace_ret. simpl.
      rewrite frames_app, count_app. simpl. left. lia.
    + destruct (Chat.timerC c); auto.
    + destruct (Chat.msgChan c) as [|t q]; [auto|].
      destruct (Done t); [rewrite Chat_trace_ret|]; simpl;
        rewrite !frames_app, !count_app; simpl; left; lia.
    + destruct (Chat.tickC c); [|auto]. simpl.
      rewrite frames_app, count_app. simpl. left. lia.
Qed.

(** X17.  In every run of [HandleChat] the timeout error is never written
    early: if the frames hold the error event of the first-token timeout,
    at least 30 seconds have passed since the timer was started. *)
Theorem Chat_timeout_not_before_30s (cfg : Chat.Config) (env : Chat.Env)
    (r : Chat.Request) (sched : list Chat.Event) :
  let c := Chat.HandleChat cfg env r sched in
  count is_timeout_error (frames (Chat.trace c)) = 0%nat \/
  firstTokenTimeoutAfter <= Chat.clock c.
Proof.
  intros c. subst c.
  destruct (Chat_handle_cases cfg env r sched)
    as [[_ ->]|[(cid & id & pre & msg & code & -> & H)|(chatReq & _ & ->)]].
  - left. reflexivity.
  - left. destruct H as (_ & _ & _ & _ & H & _).
    unfold Chat.stop. cbn [Chat.trace]. rewrite frames_app, H. reflexivity.
  - match goal with
    | |- context [Chat.run sched ?c0] => set (start := c0)
    end.
    assert (H : Chat_inv (Chat.run sched start) /\
                (count is_timeout_error (frames (Chat.trace (Chat.run sched start))) = 0%nat \/
                 firstTokenTimeoutAfter <= Chat.clock (Chat.run sched start)));
      [|exact (proj2 H)].
    apply (Chat_run_ind (fun c =>
             Chat_inv c /\
             (count is_timeout_error (frames (Chat.trace c)) = 0%nat \/
              firstTokenTimeoutAfter <= Chat.clock c))).
    + intros c e [Hinv H]. split; [apply Chat_step_inv; exact Hinv|].
      pose proof (Chat_step_clock c e) as Hclock.
      destruct H as [H|H]; [|right; lia].
      destruct (Chat_step_timeout_count c e) as [Hsame|HtC]; [left; congruence|].
      right. destruct Hinv as (_ & _ & _ & _ & _ & Hfired & _).
      specialize (Hfired HtC). lia.
    + split; [|left; reflexivity].
      unfold Chat_inv, firstTokenTimeoutAfter, Second. simpl.
      repeat split; intros; try discriminate; try lia; auto.
Qed.

(** ** The bridge: order, completeness, counting *)

Lemma wrap64_add_l (a b : Z) : wrap64 (wrap64 a + b) = wrap64 (a + b).
Proof.
  unfold wrap64. f_equal.
  replace ((a + 2 ^ 63) mod 2 ^ 64 - 2 ^ 63 + b + 2 ^ 63)
    with ((a + 2 ^ 63) mod 2 ^ 64 + b) by lia.
  rewrite Zplus_mod_idemp_l. f_equal. lia.
Qed.

Lemma wrap64_idem (a : Z) : wrap64 (wrap64 a) = wrap64 a.
Proof.
  replace (wrap64 a) with (wrap64 a + 0) at 1 by lia.
  rewrite wrap64_add_l. f_equal. lia.
Qed.

Lemma Bridge_run_stopped (cfg : Bridge.Config) (events : list Bridge.Event)
    (st : Bridge.State) :
  Bridge.stopped st = true -> Bridge.run cfg events st = st.
Proof.
  intros Hs. induction events as [|e events IH]; [reflexivity|].
  assert (Hstep : Bridge.step cfg st e = st)
    by (unfold Bridge.step; rewrite Hs; reflexivity).
  change (Bridge.run cfg (e :: events) st)
    with (Bridge.run cfg events (Bridge.step cfg st e)).
  rewrite Hstep. exact IH.
Qed.

Lemma Bridge_run_characterised (cfg : Bridge.Config) (events : list Bridge.Event)
    (st : Bridge.State) :
  Bridge.stopped st = false ->
  wrap64 (Bridge.msgCount st) = Bridge.msgCount st ->
  Bridge.published (Bridge.run cfg events st)
  = Bridge.published st ++ omap republished (before_quit events) /\
  Bridge.msgCount (Bridge.run cfg events st)
  = wrap64 (Bridge.msgCount st
            + Z.of_nat (length (omap republished (before_quit events)))) /\
  Bridge.stopped (Bridge.run cfg events st) = existsb is_quit events.
Proof.
  revert st. induction events as [|e events IH]; intros st Hs Hc.
  - simpl. rewrite app_nil_r, Z.add_0_r, Hc. auto.
  - assert (Hskip : Bridge.step cfg st e = st -> republished e = None ->
                    is_quit e = false ->
                    before_quit (e :: events) = e :: before_quit events ->
              Bridge.published (Bridge.run cfg (e :: events) st)
              = Bridge.published st ++ omap republished (before_quit (e :: events)) /\
              Bridge.msgCount (Bridge.run cfg (e :: events) st)
              = wrap64 (Bridge.msgCount st
                  + Z.of_nat (length (omap republished (before_quit (e :: events))))) /\
              Bridge.stopped (Bridge.run cfg (e :: events) st)
              = existsb is_quit (e :: events)).
    { intros Hstep Hnone Hq Hb. simpl Bridge.run. simpl existsb.
      rewrite Hstep, Hb, Hq. simpl omap. rewrite Hnone. apply IH; assumption. }
    destruct e as [|instant [m|] ok].
    + change (Bridge.run cfg (Bridge.Quit :: events) st)
        with (Bridge.run cfg events (Bridge.step cfg st Bridge.Quit)).
      unfold Bridge.step. rewrite Hs, Bridge_run_stopped by reflexivity.
      simpl. rewrite app_nil_r, Z.add_0_r, Hc. auto.
    + destruct (json_Unmarshal (Bridge.MsgPayload m)) as [token|] eqn:Hj.
      * destruct ok.
        -- change (Bridge.run cfg (Bridge.Receive instant (Some m) true :: events) st)
             with (Bridge.run cfg events
                     (Bridge.step cfg st (Bridge.Receive instant (Some m) true))).
           unfold Bridge.step. rewrite Hs, Hj.
           match goal with
           | |- context [Bridge.run cfg events ?s1] =>
               destruct (IH s1 eq_refl (wrap64_idem _)) as (H1 & H2 & H3)
           end.
           rewrite H1, H2, H3. simpl. rewrite Hj. simpl.
           rewrite <- app_assoc, wrap64_add_l.
           repeat split; try reflexivity. f_equal.
           rewrite Nat2Z.inj_succ. unfold omap. lia.
        -- apply Hskip; try reflexivity.
           unfold Bridge.step. rewrite Hs, Hj. reflexivity.
      * apply Hskip; try reflexivity;
          try (unfold Bridge.step; rewrite Hs, Hj; reflexivity);
          try (simpl; rewrite Hj; destruct ok; reflexivity).
    + apply Hskip; try reflexivity.
      unfold Bridge.step. rewrite Hs. reflexivity.
Qed.

(** X18.  The whole of the bridge's [main].  If Redis cannot be reached,
    NATS cannot be reached or the subscription to Redis fails, the process
    exits with status 1.  Otherwise what reaches NATS is exactly, and in the
    order of receipt, one publication for each message received before the
    shutdown signal that decodes and whose publish succeeds: its envelope
    unchanged (the sequence is never renumbered), on the subject of its own
    conversation.  Nil messages, malformed payloads and failed publishes are
    skipped without stopping the loop; the message counter counts the
    publications; only the shutdown signal stops the loop. *)
Theorem Bridge_main_republishes_in_order (Getenv : string -> string)
    (defaultInstance : string) (up : Bridge.Startup) (events : list Bridge.Event) :
  match Bridge.main Getenv defaultInstance up events with
  | inl code =>
      code = 1 /\
      Bridge.RedisPingOk up && Bridge.NatsConnectOk up && Bridge.RedisSubscribeOk up
      = false
  | inr st =>
      Bridge.RedisPingOk up && Bridge.NatsConnectOk up && Bridge.RedisSubscribeOk up
      = true /\
      Bridge.published st = omap republished (before_quit events) /\
      Bridge.msgCount st = wrap64 (Z.of_nat (length (Bridge.published st))) /\
      Bridge.stopped st = existsb is_quit events
  end.
Proof.
  unfold Bridge.main.
  destruct (Bridge.RedisPingOk up); simpl; [|auto].
  destruct (Bridge.NatsConnectOk up); simpl; [|auto].
  destruct (Bridge.RedisSubscribeOk up); simpl; [|auto].
  destruct (Bridge_run_characterised
              (Bridge.loadConfig Getenv defaultInstance) events
              (Bridge.mkState 0 [] false) eq_refl eq_refl) as (H1 & H2 & H3).
  simpl in H1, H2. rewrite H1, H2, H3. auto.
Qed.

(** ** The bridge and the handlers agree on subjects *)

Lemma append_inj_head (p a b : string) :
  String.append p a = String.append p b -> a = b.
Proof.
  induction p as [|ch p IH]; simpl; [auto|].
  intros H. inversion H. auto.
Qed.

Lemma append_length (a b : string) :
  String.length (String.append a b) = (String.length a + String.length b)%nat.
Proof. induction a as [|ch a IH]; simpl; [reflexivity|rewrite IH; reflexivity]. Qed.

Lemma append_inj_tail (t a b : string) :
  String.append a t = String.append b t -> a = b.
Proof.
  revert b. induction a as [|ch a IH]; intros b H.
  - destruct b as [|ch' b]; [reflexivity|].
    apply (f_equal String.length) in H. simpl in H.
    rewrite append_length in H. lia.
  - destruct b as [|ch' b].
    + apply (f_equal String.length) in H. simpl in H.
      rewrite append_length in H. lia.
    + simpl in H. inversion H. f_equal. auto.
Qed.

Lemma subject_of_inj (a b : string) : subject_of a = subject_of b -> a = b.
Proof.
  unfold subject_of. intros H.
  apply append_inj_head in H. apply append_inj_tail in H. exact H.
Qed.

(** X19.  The bridge and the handlers name subjects alike: every
    publication of the bridge goes to the subject on which the handlers of
    its own conversation subscribe ([chat.<conversation id>.tokens]), and to
    the subject of no other conversation id. *)
Theorem Bridge_routes_by_conversation (cfg : Bridge.Config)
    (events : list Bridge.Event) (p : Bridge.Publication) (cid : string) :
  In p (Bridge.published (Bridge.run cfg events (Bridge.mkState 0 [] false))) ->
  (Bridge.subject p = subject_of cid <-> ConversationID (Bridge.data p) = cid).
Proof.
  destruct (Bridge_run_characterised cfg events (Bridge.mkState 0 [] false)
              eq_refl eq_refl) as (H & _).
  rewrite H. simpl. clear H.
  intros Hin.
  assert (Hsub : Bridge.subject p = subject_of (ConversationID (Bridge.data p))).
  { induction (before_quit events) as [|e l IH]; simpl in Hin; [contradiction|].
    destruct (republished e) as [q|] eqn:Hq; [|auto].
    destruct Hin as [<-|Hin]; [|auto].
    unfold republished in Hq.
    destruct e as [|instant [m|] [|]]; try discriminate.
    destruct (json_Unmarshal (Bridge.MsgPayload m)); [|discriminate].
    inversion Hq. reflexivity. }
  rewrite Hsub. split; [apply subject_of_inj|intros ->; reflexivity].
Qed.

Lemma Bridge_routes_by_conversation_witness :
  let events := [Bridge.Receive 0 (Some bridge_message) true] in
  let p := Bridge.mkPublication (subject_of "c1") (c1_token 1) in
  In p (Bridge.published
          (Bridge.run (Bridge.loadConfig (fun _ => "") "bridge-1") events
                      (Bridge.mkState 0 [] false))) /\
  (Bridge.subject p = subject_of "c1" <-> ConversationID (Bridge.data p) = "c1").
Proof.
  intros events p.
  assert (H : In p (Bridge.published
                      (Bridge.run (Bridge.loadConfig (fun _ => "") "bridge-1") events
                                  (Bridge.mkState 0 [] false))))
    by (left; reflexivity).
  split; [exact H|].
  apply (Bridge_routes_by_conversation _ events p "c1" H).
Defined.

(** ** The stream proxy: the shape of a conversation *)

Lemma all_open_no_done_split (calls : list Proxy.Attempt)
    (pre post : list TokenMessage) (t : TokenMessage) :
  all_open calls ->
  Proxy.envelopes calls = pre ++ t :: post ->
  Done t = true -> False.
Proof.
  unfold all_open. intros Hopen Heq Hd. rewrite Heq in Hopen.
  apply Forall_app in Hopen. destruct Hopen as [_ Hopen].
  inversion Hopen; subst. congruence.
Qed.

(** X20.  On every path of [streamFromLLM] (failure before the stream, a
    stream that ends with a terminator, a stream that just ends) the
    envelopes of the conversation are numbered 1, 2, 3, ... in the order of
    publication (in [int64] arithmetic), and an envelope with [done = true]
    is the last one published: nothing follows the terminal envelope. *)
Theorem Proxy_numbered_and_done_last (w : Proxy.World) (cid message : string)
    (up : Proxy.Upstream) :
  let calls := Proxy.streamFromLLM w cid message up in
  map Sequence (Proxy.envelopes calls)
  = map (fun i => wrap64 (Z.of_nat i)) (seq 1 (length calls)) /\
  (forall pre t post,
      Proxy.envelopes calls = pre ++ t :: post -> Done t = true -> post = []).
Proof.
  intros calls. destruct (Proxy_stream_shape w cid message up) as [Hn Hd].
  fold calls in Hn, Hd. split; [exact Hn|].
  intros pre t post Heq Ht.
  destruct Hd as [Hopen|(front & a & Hcalls & Hopen & Ha)].
  - exfalso. eapply all_open_no_done_split; eauto.
  - rewrite Hcalls in Heq. unfold Proxy.envelopes in Heq.
    rewrite map_app in Heq. simpl in Heq.
    destruct post as [|p post] using rev_ind; [reflexivity|]. exfalso.
    clear IHpost.
    change (pre ++ t :: post ++ [p]) with (pre ++ (t :: post) ++ [p]) in Heq.
    rewrite app_assoc in Heq. apply app_inj_tail in Heq. destruct Heq as [Heq _].
    eapply all_open_no_done_split; eauto.
Qed.

Lemma Proxy_numbered_and_done_last_witness :
  let calls := Proxy.streamFromLLM plain_world "c1" "hello"
                 (Proxy.Response StatusOK ["data: x"; "data: [DONE]"; "data: y"] Proxy.EOF) in
  Proxy.envelopes calls = [] ++ mkTokenMessage "c1" "[DONE]" 1 true 0 :: [] /\
  Done (mkTokenMessage "c1" "[DONE]" 1 true 0) = true /\
  [] = @nil TokenMessage.
Proof.
  intros calls.
  assert (H1 : Proxy.envelopes calls = [] ++ mkTokenMessage "c1" "[DONE]" 1 true 0 :: [])
    by reflexivity.
  split; [exact H1|]. split; [reflexivity|].
  destruct (Proxy_numbered_and_done_last plain_world "c1" "hello"
              (Proxy.Response StatusOK ["data: x"; "data: [DONE]"; "data: y"] Proxy.EOF))
    as [_ H].
  apply (H [] _ [] H1). reflexivity.
Defined.

(** ** The stream proxy: whose envelopes, and failed publishes *)

Lemma Proxy_publish_belongs (w : Proxy.World) (cid token : string)
    (sequence : Z) (done : bool) (calls : list Proxy.Attempt) :
  Forall (belongs_to cid) calls ->
  Forall (belongs_to cid) (Proxy.publishToken w cid token sequence done calls).
Proof.
  intros H. unfold Proxy.publishToken. apply Forall_app. split; [exact H|].
  repeat constructor.
Qed.

Lemma Proxy_choices_belongs (w : Proxy.World) (cid : string)
    (cs : list Proxy.Choice) (sequence : Z) (calls : list Proxy.Attempt) :
  Forall (belongs_to cid) calls ->
  Forall (belongs_to cid) (snd (Proxy.choices w cid cs sequence calls)).
Proof.
  revert sequence calls. induction cs as [|c cs IH]; intros sequence calls H; simpl.
  - exact H.
  - destruct (negb (String.eqb (Proxy.Content c) ""));
      destruct (Proxy.FinishReason c); simpl;
      first [apply IH | idtac]; repeat apply Proxy_publish_belongs; exact H.
Qed.

Lemma Proxy_readLoop_belongs (w : Proxy.World) (cid : string) (lines : list string)
    (sequence : Z) (calls : list Proxy.Attempt) :
  Forall (belongs_to cid) calls ->
  Forall (belongs_to cid) (Proxy.readLoop w cid lines sequence calls).
Proof.
  revert sequence calls. induction lines as [|l rest IH]; intros sequence calls H; simpl.
  - exact H.
  - destruct (String.eqb (Proxy.TrimSpace w l) "" ||
              negb (HasPrefix (Proxy.TrimSpace w l) "data: ")); [apply IH; exact H|].
    destruct (String.eqb (TrimPrefix (Proxy.TrimSpace w l) "data: ") "[DONE]");
      [apply Proxy_publish_belongs; exact H|].
    destruct (Proxy.Unmarshal w (TrimPrefix (Proxy.TrimSpace w l) "data: "))
      as [chunk|]; [|apply IH; exact H].
    pose proof (Proxy_choices_belongs w cid (Proxy.Choices chunk) sequence calls H) as Hc.
    destruct (Proxy.choices w cid (Proxy.Choices chunk) sequence calls) as [[b s'] k'].
    simpl in Hc. destruct b; [exact Hc|apply IH; exact Hc].
Qed.

Lemma Proxy_stream_belongs (w : Proxy.World) (cid message : string)
    (up : Proxy.Upstream) :
  Forall (belongs_to cid) (Proxy.streamFromLLM w cid message up).
Proof.
  unfold Proxy.streamFromLLM.
  destruct up as [| |status lines last];
    try (apply Proxy_publish_belongs; constructor).
  destruct (negb (status =? StatusOK));
    [apply Proxy_publish_belongs; constructor|].
  apply Proxy_readLoop_belongs. constructor.
Qed.

Lemma Proxy_publish_outcome (w : Proxy.World) (outcome : nat -> bool)
    (cid token : string) (sequence : Z) (done : bool)
    (calls calls' : list Proxy.Attempt) :
  Proxy.envelopes calls = Proxy.envelopes calls' ->
  Proxy.envelopes (Proxy.publishToken w cid token sequence done calls)
  = Proxy.envelopes (Proxy.publishToken (with_publish w outcome) cid token
                       sequence done calls').
Proof.
  intros H. unfold Proxy.publishToken, Proxy.envelopes in *.
  rewrite !map_app, H. simpl.
  replace (length calls') with (length calls); [reflexivity|].
  rewrite <- (length_map Proxy.msg calls), <- (length_map Proxy.msg calls'), H.
  reflexivity.
Qed.

Lemma Proxy_choices_outcome (w : Proxy.World) (outcome : nat -> bool) (cid : string)
    (cs : list Proxy.Choice) (sequence : Z) (calls calls' : list Proxy.Attempt) :
  Proxy.envelopes calls = Proxy.envelopes calls' ->
  let '(b, s, k) := Proxy.choices w cid cs sequence calls in
  let '(b', s', k') := Proxy.choices (with_publish w outcome) cid cs sequence calls' in
  b = b' /\ s = s' /\ Proxy.envelopes k = Proxy.envelopes k'.
Proof.
  revert sequence calls calls'.
  induction cs as [|c cs IH]; intros sequence calls calls' H; simpl.
  - auto.
  - destruct (negb (String.eqb (Proxy.Content c) ""));
      destruct (Proxy.FinishReason c); simpl.
    + repeat split. repeat apply Proxy_publish_outcome. exact H.
    + apply IH. apply Proxy_publish_outcome. exact H.
    + repeat split. apply Proxy_publish_outcome. exact H.
    + apply IH. exact H.
Qed.

Lemma Proxy_readLoop_outcome (w : Proxy.World) (outcome : nat -> bool) (cid : string)
    (lines : list string) (sequence : Z) (calls calls' : list Proxy.Attempt) :
  Proxy.envelopes calls = Proxy.envelopes calls' ->
  Proxy.envelopes (Proxy.readLoop w cid lines sequence calls)
  = Proxy.envelopes (Proxy.readLoop (with_publish w outcome) cid lines sequence calls').
Proof.
  revert sequence calls calls'.
  induction lines as [|l rest IH]; intros sequence calls calls' H; simpl.
  - exact H.
  - destruct (String.eqb (Proxy.TrimSpace w l) "" ||
              negb (HasPrefix (Proxy.TrimSpace w l) "data: ")); [apply IH; exact H|].
    destruct (String.eqb (TrimPrefix (Proxy.TrimSpace w l) "data: ") "[DONE]");
      [apply Proxy_publish_outcome; exact H|].
    destruct (Proxy.Unmarshal w (TrimPrefix (Proxy.TrimSpace w l) "data: "))
      as [chunk|]; [|apply IH; exact H].
    pose proof (Proxy_choices_outcome w outcome cid (Proxy.Choices chunk)
                  sequence calls calls' H) as Hc.
    destruct (Proxy.choices w cid (Proxy.Choices chunk) sequence calls) as [[b s] k].
    destruct (Proxy.choices (with_publish w outcome) cid (Proxy.Choices chunk)
                sequence calls') as [[b' s'] k'].
    destruct Hc as (<- & <- & Hk). destruct b; [exact Hk|apply IH; exact Hk].
Qed.

(** X21.  Every envelope [streamFromLLM] publishes goes to the Redis
    channel [chat.<conversation id>.tokens] of its own conversation and
    carries that conversation id.  And a failed publish changes nothing to
    what is published next: the envelopes handed to Redis, their tokens,
    numbers and terminal marks, are the same whatever the outcomes of the
    publishes, so an envelope lost by Redis leaves a hole in the numbering. *)
Theorem Proxy_envelopes_of_the_conversation (w : Proxy.World)
    (outcome : nat -> bool) (cid message : string) (up : Proxy.Upstream) :
  Forall (belongs_to cid) (Proxy.streamFromLLM w cid message up) /\
  Proxy.envelopes (Proxy.streamFromLLM w cid message up)
  = Proxy.envelopes (Proxy.streamFromLLM (with_publish w outcome) cid message up).
Proof.
  split; [apply Proxy_stream_belongs|].
  unfold Proxy.streamFromLLM.
  destruct up as [| |status lines last];
    try (apply Proxy_publish_outcome; reflexivity).
  destruct (negb (status =? StatusOK));
    [apply Proxy_publish_outcome; reflexivity|].
  apply Proxy_readLoop_outcome. reflexivity.
Qed.

(** ** The stream proxy: nothing is read after the terminator *)

Lemma Proxy_readLoop_terminated (w : Proxy.World) (cid : string) (l : string)
    (post : list string) (sequence : Z) (calls : list Proxy.Attempt) :
  line_terminates w l = true ->
  Proxy.readLoop w cid (l :: post) sequence calls
  = Proxy.readLoop w cid [l] sequence calls.
Proof.
  unfold line_terminates. simpl.
  destruct (String.eqb (Proxy.TrimSpace w l) "" ||
            negb (HasPrefix (Proxy.TrimSpace w l) "data: ")); [discriminate|].
  destruct (String.eqb (TrimPrefix (Proxy.TrimSpace w l) "data: ") "[DONE]");
    [reflexivity|].
  destruct (Proxy.Unmarshal w (TrimPrefix (Proxy.TrimSpace w l) "data: "))
    as [chunk|]; [|discriminate].
  intros Hfin.
  pose proof (Proxy_choices_done w cid (Proxy.Choices chunk) sequence calls) as H.
  destruct (Proxy.choices w cid (Proxy.Choices chunk) sequence calls) as [[b s'] k'].
  destruct H as [Hb _]. rewrite Hfin in Hb. subst b. reflexivity.
Qed.

Lemma Proxy_readLoop_cut (w : Proxy.World) (cid : string) (pre : list string)
    (l : string) (post : list string) (sequence : Z) (calls : list Proxy.Attempt) :
  line_terminates w l = true ->
  Proxy.readLoop w cid (pre ++ l :: post) sequence calls
  = Proxy.readLoop w cid (pre ++ [l]) sequence calls.
Proof.
  intros Hl. revert sequence calls.
  induction pre as [|x pre IH]; intros sequence calls.
  - apply Proxy_readLoop_terminated. exact Hl.
  - simpl.
    destruct (String.eqb (Proxy.TrimSpace w x) "" ||
              negb (HasPrefix (Proxy.TrimSpace w x) "data: ")); [apply IH|].
    destruct (String.eqb (TrimPrefix (Proxy.TrimSpace w x) "data: ") "[DONE]");
      [reflexivity|].
    destruct (Proxy.Unmarshal w (TrimPrefix (Proxy.TrimSpace w x) "data: "))
      as [chunk|]; [|apply IH].
    destruct (Proxy.choices w cid (Proxy.Choices chunk) sequence calls) as [[b s'] k'].
    destruct b; [reflexivity|apply IH].
Qed.

(** X22.  [streamFromLLM] stops reading at the terminator: whatever vLLM
    sends after a [data: [DONE]] line, or after a chunk with a finish
    reason, is never read and changes nothing to what is published. *)
Theorem Proxy_stops_at_terminator (w : Proxy.World) (cid message : string)
    (pre : list string) (l : string) (post : list string)
    (last last' : Proxy.ReadError) :
  line_terminates w l = true ->
  Proxy.streamFromLLM w cid message (Proxy.Response StatusOK (pre ++ l :: post) last)
  = Proxy.streamFromLLM w cid message (Proxy.Response StatusOK (pre ++ [l]) last').
Proof.
  intros Hl. unfold Proxy.streamFromLLM. simpl.
  apply Proxy_readLoop_cut. exact Hl.
Qed.

Lemma Proxy_stops_at_terminator_witness :
  line_terminates plain_world "data: [DONE]" = true /\
  Proxy.streamFromLLM plain_world "c1" "hello"
    (Proxy.Response StatusOK (["event: x"] ++ "data: [DONE]" :: ["data: more"]) Proxy.EOF)
  = Proxy.streamFromLLM plain_world "c1" "hello"
      (Proxy.Response StatusOK (["event: x"] ++ ["data: [DONE]"]) Proxy.OtherReadError).
Proof.
  assert (H : line_terminates plain_world "data: [DONE]" = true) by reflexivity.
  split; [exact H|].
  apply (Proxy_stops_at_terminator plain_world "c1" "hello" ["event: x"]
           "data: [DONE]" ["data: more"] Proxy.EOF Proxy.OtherReadError H).
Defined.

(** ** The stream proxy: from the request to the envelopes *)

(** X23.  [handleChat] of the proxy and the goroutine it starts.  The
    answer is one of three: a request that is not a POST is refused with
    405 [Method not allowed]; a POST whose body does not decode is refused
    with 400 [Invalid request body], and one whose message is empty with
    400 [Message is required]; every other POST is answered with status
    [streaming] and the fresh conversation id.  Each of the three happens
    in exactly these cases.  After a refusal nothing is published at all;
    after the [streaming] answer exactly the envelopes of [streamFromLLM]
    for the fresh id and the message of the request are published, every
    one carrying that id and going to the channel of that id. *)
Theorem ProxyServer_answer_matches_stream (w : Proxy.World) (uuid : string)
    (r : ProxyServer.Request) (up : Proxy.Upstream) :
  let answer := fst (ProxyServer.serve w uuid r up) in
  let calls := snd (ProxyServer.serve w uuid r up) in
  let streaming := ProxyServer.Accepted (ProxyServer.mkChatResponse uuid "streaming") in
  (answer = ProxyServer.Rejected "Method not allowed" StatusMethodNotAllowed <->
   ProxyServer.Method r <> "POST") /\
  (answer = ProxyServer.Rejected "Invalid request body" StatusBadRequest <->
   ProxyServer.Method r = "POST" /\
   exists raw, ProxyServer.ReqBody r = ProxyServer.InvalidBody raw) /\
  (answer = ProxyServer.Rejected "Message is required" StatusBadRequest <->
   ProxyServer.Method r = "POST" /\
   ProxyServer.ReqBody r = ProxyServer.ParsedBody "") /\
  (answer = streaming <->
   ProxyServer.Method r = "POST" /\
   exists message,
     ProxyServer.ReqBody r = ProxyServer.ParsedBody message /\ message <> "") /\
  (answer = streaming \/
   (calls = [] /\
    (answer = ProxyServer.Rejected "Method not allowed" StatusMethodNotAllowed \/
     answer = ProxyServer.Rejected "Invalid request body" StatusBadRequest \/
     answer = ProxyServer.Rejected "Message is required" StatusBadRequest))) /\
  (forall message,
      answer = streaming ->
      ProxyServer.ReqBody r = ProxyServer.ParsedBody message ->
      calls = Proxy.streamFromLLM w uuid message up /\
      Forall (belongs_to uuid) calls).
Proof.
  unfold ProxyServer.serve, ProxyServer.handleChat.
  destruct (String.eqb_spec (ProxyServer.Method r) "POST") as [Hm|Hm];
    cbn [negb].
  - destruct (ProxyServer.ReqBody r) as [raw|message] eqn:Hbody.
    + cbn [fst snd].
      split; [split; [discriminate|contradiction]|].
      split; [split; [intros _; split; [exact Hm|exists raw; reflexivity]|reflexivity]|].
      split; [split; [discriminate|intros [_ H]; discriminate]|].
      split; [split; [discriminate|intros (_ & m & H & _); discriminate]|].
      split; [right; auto|].
      intros m H. discriminate.
    + destruct (String.eqb_spec message "") as [He|He]; cbn [fst snd].
      * subst message.
        split; [split; [discriminate|contradiction]|].
        split; [split; [discriminate|intros (_ & raw & H); discriminate]|].
        split; [split; [auto|reflexivity]|].
        split; [split; [discriminate|
                        intros (_ & m & H & Hne); inversion H; subst; contradiction]|].
        split; [right; auto|].
        intros m H. discriminate.
      * split; [split; [discriminate|contradiction]|].
        split; [split; [discriminate|intros (_ & raw & H); discriminate]|].
        split; [split; [discriminate|intros [_ H]; inversion H; subst; contradiction]|].
        split; [split; [intros _; split; [exact Hm|exists message; auto]|reflexivity]|].
        split; [left; reflexivity|].
        intros m _ H. inversion H; subst m.
        split; [reflexivity|apply Proxy_stream_belongs].
  - cbn [fst snd].
    split; [split; [intros _; exact Hm|reflexivity]|].
    split; [split; [discriminate|intros [H _]; contradiction]|].
    split; [split; [discriminate|intros [H _]; contradiction]|].
    split; [split; [discriminate|intros [H _]; contradiction]|].
    split; [right; auto|].
    intros m H. discriminate.
Qed.

Lemma ProxyServer_answer_matches_stream_witness :
  let up := Proxy.Response StatusOK ["data: Hi"; "data: [DONE]"] Proxy.EOF in
  let post body := ProxyServer.mkRequest "POST" body in
  let serve r := ProxyServer.serve chunk_world "conv-9" r up in
  let streaming := ProxyServer.Accepted (ProxyServer.mkChatResponse "conv-9" "streaming") in
  fst (serve (post (ProxyServer.ParsedBody "hello"))) = streaming /\
  map Sequence (Proxy.envelopes (snd (serve (post (ProxyServer.ParsedBody "hello")))))
  = [1; 2] /\
  Forall (belongs_to "conv-9") (snd (serve (post (ProxyServer.ParsedBody "hello")))) /\
  fst (serve (post (ProxyServer.ParsedBody "")))
  = ProxyServer.Rejected "Message is required" StatusBadRequest /\
  fst (serve (post (ProxyServer.InvalidBody "{")))
  = ProxyServer.Rejected "Invalid request body" StatusBadRequest /\
  fst (serve (ProxyServer.mkRequest "GET" (ProxyServer.ParsedBody "hello")))
  = ProxyServer.Rejected "Method not allowed" StatusMethodNotAllowed.
Proof.
  intros up post serve streaming.
  destruct (ProxyServer_answer_matches_stream chunk_world "conv-9"
              (post (ProxyServer.ParsedBody "hello")) up)
    as (_ & _ & _ & [_ Hacc] & _ & Hcalls).
  assert (H1 : fst (serve (post (ProxyServer.ParsedBody "hello"))) = streaming).
  { apply Hacc. split; [reflexivity|]. exists "hello". split; [reflexivity|discriminate]. }
  destruct (Hcalls "hello" H1 eq_refl) as [_ Hbelongs].
  destruct (ProxyServer_answer_matches_stream chunk_world "conv-9"
              (post (ProxyServer.ParsedBody "")) up) as (_ & _ & [_ Hempty] & _).
  destruct (ProxyServer_answer_matches_stream chunk_world "conv-9"
              (post (ProxyServer.InvalidBody "{")) up) as (_ & [_ Hbad] & _).
  destruct (ProxyServer_answer_matches_stream chunk_world "conv-9"
              (ProxyServer.mkRequest "GET" (ProxyServer.ParsedBody "hello")) up)
    as ([_ Hget] & _).
  split; [exact H1|]. split; [reflexivity|]. split; [exact Hbelongs|].
  split; [apply Hempty; split; reflexivity|].
  split; [apply Hbad; split; [reflexivity|exists "{"; reflexivity]|].
  apply Hget. discriminate.
Defined.

(** ** [HandleStream]: the conversation id in the path *)

Lemma substring_full (s : string) : substring 0 (String.length s) s = s.
Proof. induction s as [|c s IH]; simpl; [reflexivity|rewrite IH; reflexivity]. Qed.

Lemma substring_append_head (a b : string) :
  substring 0 (String.length a) (String.append a b) = a.
Proof.
  induction a as [|c a IH]; simpl.
  - destruct b; reflexivity.
  - rewrite IH. reflexivity.
Qed.

Lemma substring_append_tail (a b : string) :
  substring (String.length a) (String.length b) (String.append a b) = b.
Proof.
  induction a as [|c a IH]; simpl; [apply substring_full|exact IH].
Qed.

Lemma TrimPrefix_stream (s : string) :
  TrimPrefix (String.append "/stream/" s) "/stream/" = s.
Proof.
  unfold TrimPrefix.
  assert (H : HasPrefix (String.append "/stream/" s) "/stream/" = true)
    by (destruct s; reflexivity).
  rewrite H. simpl. rewrite Nat.sub_0_r. apply substring_full.
Qed.

Lemma TrimSuffix_slash (s : string) :
  TrimSuffix (String.append s "/") "/" = s.
Proof.
  unfold TrimSuffix, HasSuffix.
  pose proof (substring_append_tail s "/") as Htail.
  pose proof (substring_append_head s "/") as Hhead.
  rewrite append_length. cbn [String.length] in *.
  replace (String.length s + 1 - 1)%nat with (String.length s) by lia.
  rewrite Htail, Hhead.
  destruct (Nat.leb_spec 1 (String.length s + 1)); [reflexivity|lia].
Qed.

(** X24.  The paths [/stream/<id>] and [/stream/<id>/] name the same
    conversation: for an id that does not itself end with a slash,
    [HandleStream] reads the id back from both, so both requests subscribe
    to the subject of that conversation.  A path that leaves the id empty
    is answered with 400 and nothing else. *)
Theorem Stream_path_names_conversation (id header : string) (flush : bool) :
  HasSuffix id "/" = false ->
  Stream.conversationID_of
    (Stream.mkRequest (String.append "/stream/" id) header flush) = id /\
  Stream.conversationID_of
    (Stream.mkRequest (String.append "/stream/" (String.append id "/")) header flush) = id /\
  (forall env r sched,
      Stream.conversationID_of r = "" ->
      Stream.trace (Stream.HandleStream env r sched)
      = [HttpError "conversation_id required" StatusBadRequest]).
Proof.
  intros Hid. split; [|split].
  - unfold Stream.conversationID_of. cbn [Stream.Path].
    rewrite TrimPrefix_stream. unfold TrimSuffix. rewrite Hid. reflexivity.
  - unfold Stream.conversationID_of. cbn [Stream.Path].
    rewrite TrimPrefix_stream. apply TrimSuffix_slash.
  - intros env r sched Hempty. unfold Stream.HandleStream.
    rewrite Hempty. reflexivity.
Qed.

Lemma Stream_path_names_conversation_witness :
  HasSuffix "c1" "/" = false /\
  Stream.conversationID_of (Stream.mkRequest (String.append "/stream/" "c1") "" true)
  = "c1" /\
  Stream.conversationID_of
    (Stream.mkRequest (String.append "/stream/" (String.append "c1" "/")) "" true)
  = "c1" /\
  (forall env r sched,
      Stream.conversationID_of r = "" ->
      Stream.trace (Stream.HandleStream env r sched)
      = [HttpError "conversation_id required" StatusBadRequest]).
Proof.
  assert (H : HasSuffix "c1" "/" = false) by reflexivity.
  split; [exact H|].
  apply (Stream_path_names_conversation "c1" "" true H).
Defined.

(** ** From the proxy to the client, through the bridge *)

Lemma token_data_app (a b : list Frame) :
  token_data (a ++ b) = token_data a ++ token_data b.
Proof. unfold token_data. apply omap_app. Qed.

Lemma Stream_step_data (c : Stream.Conn) (e : Stream.Event)
    (pub : list TokenMessage) :
  Stream_data_inv c pub ->
  Stream_data_inv (Stream.step c e) (pub ++ Stream.delivered [e]).
Proof.
  unfold Stream_data_inv. intros [H Hid].
  assert (Hkeep : forall k, sublist
            (token_data (frames (Stream.trace c)) ++ Stream.msgChan c) (pub ++ k))
    by (intros k; apply sublist_inserts_r; exact H).
  assert (Hpush : forall t, sublist
            (token_data (frames (Stream.trace c)) ++ (Stream.msgChan c ++ [t]))
            (pub ++ [t])).
  { intros t. rewrite app_assoc. apply sublist_app; [exact H|reflexivity]. }
  destruct e as [p pick|d| |k]; simpl.
  - destruct p as [raw|t]; simpl; [split; [apply Hkeep|exact Hid]|].
    unfold Stream.callback; simpl.
    repeat match goal with
           | |- context [if ?b then _ else _] => destruct b
           end; simpl; (split; [first [apply Hpush | apply Hkeep]|exact Hid]).
  - unfold Stream.elapse.
    destruct (negb _ && _); simpl; (split; [apply Hkeep|exact Hid]).
  - split; [apply Hkeep|exact Hid].
  - rewrite app_nil_r. unfold Stream.select.
    destruct (Stream.returned c); [split; assumption|].
    destruct k.
    + destruct (Stream.ctxDone c); [|split; assumption].
      rewrite Stream_trace_ret. split; assumption.
    + destruct (Stream.msgChan c) as [|t q] eqn:Hq; [rewrite Hq; split; assumption|].
      assert (Hgoal :
        sublist (token_data (frames (Stream.trace c ++
                   [Fprintf (FToken (Sequence t) t); Flush])) ++ q) pub /\
        token_ids (frames (Stream.trace c ++ [Fprintf (FToken (Sequence t) t); Flush]))
        = map Sequence (token_data (frames (Stream.trace c ++
                   [Fprintf (FToken (Sequence t) t); Flush])))).
      { rewrite frames_app, token_data_app, token_ids_app, map_app, Hid. simpl.
        rewrite <- app_assoc. split; [exact H|reflexivity]. }
      destruct (Done t); [rewrite Stream_trace_ret|]; simpl; exact Hgoal.
    + destruct (Stream.tickC c); [|split; assumption]. simpl.
      rewrite frames_app, token_data_app, token_ids_app. simpl.
      rewrite !app_nil_r. split; assumption.
Qed.

Lemma Stream_run_data (sched : list Stream.Event) (c : Stream.Conn)
    (pub : list TokenMessage) :
  Stream_data_inv c pub ->
  Stream_data_inv (Stream.run sched c) (pub ++ Stream.delivered sched).
Proof.
  revert c pub. induction sched as [|e sched IH]; intros c pub H.
  - simpl. rewrite app_nil_r. exact H.
  - change (e :: sched) with ([e] ++ sched).
    rewrite Stream_delivered_app, app_assoc.
    apply (IH (Stream.step c e)). apply Stream_step_data. exact H.
Qed.

Lemma Stream_handle_data (env : Stream.Env) (r : Stream.Request)
    (sched : list Stream.Event) :
  Stream_data_inv (Stream.HandleStream env r sched) (Stream.delivered sched).
Proof.
  unfold Stream.HandleStream.
  destruct (String.eqb _ ""); [split; [apply sublist_nil_l|reflexivity]|].
  destruct (negb (Stream.CanFlush r)); [split; [apply sublist_nil_l|reflexivity]|].
  destruct (negb (Stream.SubscribeOk env)); [split; [apply sublist_nil_l|reflexivity]|].
  apply (Stream_run_data sched _ []). split; [apply sublist_nil_l|reflexivity].
Qed.

Lemma Bridge_published_of_inputs (events : list Bridge.Event) :
  sublist (map Bridge.data (omap republished (before_quit events)))
          (Bridge_inputs events).
Proof.
  induction events as [|e events IH]; [constructor|].
  destruct e as [|instant [m|] ok]; simpl.
  - apply sublist_nil_l.
  - unfold Bridge_inputs; simpl. fold (Bridge_inputs events).
    destruct (json_Unmarshal (Bridge.MsgPayload m)) as [t|]; destruct ok; simpl;
      try exact IH.
    + apply sublist_skip. exact IH.
    + apply sublist_cons. exact IH.
  - exact IH.
Qed.

Lemma Bridge_published_subject (events : list Bridge.Event) :
  Forall (fun p => Bridge.subject p = subject_of (ConversationID (Bridge.data p)))
         (omap republished (before_quit events)).
Proof.
  induction events as [|e events IH]; [constructor|].
  destruct e as [|instant [m|] [|]]; simpl; try exact IH; try constructor.
  destruct (json_Unmarshal (Bridge.MsgPayload m)) as [t|]; [|exact IH].
  constructor; [reflexivity|exact IH].
Qed.

Lemma seq_of_nat_sorted (a n : nat) :
  StronglySorted Z.lt (map Z.of_nat (seq a n)).
Proof.
  revert a. induction n as [|n IH]; intros a; simpl; constructor; [apply IH|].
  apply List.Forall_forall. intros z Hz. apply in_map_iff in Hz.
  destruct Hz as (i & <- & Hi). apply in_seq in Hi. lia.
Qed.

Lemma wrap64_small (z : Z) : - 2^63 <= z < 2^63 -> wrap64 z = z.
Proof. intros H. unfold wrap64. rewrite Z.mod_small; lia. Qed.

Lemma Proxy_numbered_plain (calls : list Proxy.Attempt) :
  numbered calls ->
  Z.of_nat (length calls) < 2^63 ->
  map Sequence (Proxy.envelopes calls) = map Z.of_nat (seq 1 (length calls)).
Proof.
  unfold numbered. intros -> Hlen. apply map_ext_in.
  intros i Hi. apply in_seq in Hi. apply wrap64_small. lia.
Qed.

(** X25.  One conversation from end to end.  The proxy publishes the
    envelopes of a conversation to Redis; the bridge receives some of them
    in order (Redis pub/sub loses, it does not reorder or invent) and
    republishes; NATS hands some of the republished envelopes, in order, to
    the subscription of [HandleStream].  Then, whatever the three schedules:
    the envelopes written to the client are a subsequence of the envelopes
    the proxy published (same tokens, same order, none twice); every event
    id is the sequence number of its envelope; the ids are among 1..n and
    increase strictly; every envelope written belongs to the conversation,
    and the bridge published on the subject of that conversation only. *)
Theorem Pipeline_proxy_to_client (w : Proxy.World) (cid message : string)
    (up : Proxy.Upstream) (Getenv : string -> string) (defaultInstance : string)
    (bup : Bridge.Startup) (events : list Bridge.Event) (st : Bridge.State)
    (env : Stream.Env) (r : Stream.Request) (sched : list Stream.Event) :
  let calls := Proxy.streamFromLLM w cid message up in
  Z.of_nat (length calls) < 2^63 ->
  sublist (Bridge_inputs events) (Proxy.envelopes calls) ->
  Bridge.main Getenv defaultInstance bup events = inr st ->
  sublist (Stream.delivered sched) (map Bridge.data (Bridge.published st)) ->
  let fs := frames (Stream.trace (Stream.HandleStream env r sched)) in
  sublist (token_data fs) (Proxy.envelopes calls) /\
  token_ids fs = map Sequence (token_data fs) /\
  sublist (token_ids fs) (map Z.of_nat (seq 1 (length calls))) /\
  StronglySorted Z.lt (token_ids fs) /\
  Forall (fun t => ConversationID t = cid) (token_data fs) /\
  Forall (fun p => Bridge.subject p = subject_of cid) (Bridge.published st).
Proof.
  intros calls Hlen Hredis Hmain Hnats fs.
  assert (Hpub : Bridge.published st = omap republished (before_quit events)).
  { unfold Bridge.main in Hmain.
    destruct (negb (Bridge.RedisPingOk bup)); [discriminate|].
    destruct (negb (Bridge.NatsConnectOk bup)); [discriminate|].
    destruct (negb (Bridge.RedisSubscribeOk bup)); [discriminate|].
    inversion Hmain; subst st.
    destruct (Bridge_run_characterised
                (Bridge.loadConfig Getenv defaultInstance) events
                (Bridge.mkState 0 [] false) eq_refl eq_refl) as (H & _).
    exact H. }
  assert (Hbridge : sublist (map Bridge.data (Bridge.published st))
                            (Proxy.envelopes calls)).
  { rewrite Hpub. etransitivity; [apply Bridge_published_of_inputs|exact Hredis]. }
  destruct (Stream_handle_data env r sched) as [Hdata Hids]. fold fs in Hdata, Hids.
  assert (Hwritten : sublist (token_data fs) (Proxy.envelopes calls)).
  { etransitivity; [|exact Hbridge]. etransitivity; [|exact Hnats].
    etransitivity; [|exact Hdata]. apply sublist_inserts_r. reflexivity. }
  assert (Hcid : Forall (fun t => ConversationID t = cid) (Proxy.envelopes calls)).
  { unfold Proxy.envelopes. apply Forall_map.
    eapply Forall_impl; [apply Proxy_stream_belongs|].
    intros a [_ Ha]. exact Ha. }
  assert (Hnum : sublist (token_ids fs) (map Z.of_nat (seq 1 (length calls)))).
  { rewrite Hids, <- (Proxy_numbered_plain calls);
      [|apply Proxy_stream_shape|exact Hlen].
    apply (fmap_sublist Sequence _ _ Hwritten). }
  split; [exact Hwritten|]. split; [exact Hids|]. split; [exact Hnum|].
  split; [eapply sublist_StronglySorted; [exact Hnum|apply seq_of_nat_sorted]|].
  split; [eapply sublist_Forall; [exact Hwritten|exact Hcid]|].
  pose proof (Bridge_published_subject events) as Hsubj. rewrite <- Hpub in Hsubj.
  assert (Hpc : Forall (fun t => ConversationID t = cid)
                       (map Bridge.data (Bridge.published st)))
    by (eapply sublist_Forall; [exact Hbridge|exact Hcid]).
  rewrite Forall_map in Hpc.
  rewrite Forall_forall in Hsubj, Hpc. apply Forall_forall.
  intros p Hp. rewrite (Hsubj p Hp). f_equal. apply (Hpc p Hp).
Qed.

Lemma Pipeline_proxy_to_client_witness :
  let calls := Proxy.streamFromLLM chunk_world "c1" "hello"
                 (Proxy.Response StatusOK ["data: Hel"; "data: lo"; "data: [DONE]"]
                                 Proxy.EOF) in
  let events := relayed calls in
  let st := Bridge.run (Bridge.loadConfig (fun _ => "") "bridge-1") events
                       (Bridge.mkState 0 [] false) in
  let sched := handed (Bridge.published st) in
  let fs := frames (Stream.trace (Stream.HandleStream c1_env fresh_request sched)) in
  Z.of_nat (length calls) < 2^63 /\
  sublist (Bridge_inputs events) (Proxy.envelopes calls) /\
  Bridge.main (fun _ => "") "bridge-1" bridge_up events = inr st /\
  sublist (Stream.delivered sched) (map Bridge.data (Bridge.published st)) /\
  sublist (token_data fs) (Proxy.envelopes calls) /\
  token_ids fs = [1; 2; 3] /\
  StronglySorted Z.lt (token_ids fs).
Proof.
  intros calls events st sched fs.
  assert (H1 : Z.of_nat (length calls) < 2^63) by (vm_compute; reflexivity).
  assert (H2 : sublist (Bridge_inputs events) (Proxy.envelopes calls))
    by (vm_compute; reflexivity).
  assert (H3 : Bridge.main (fun _ => "") "bridge-1" bridge_up events = inr st)
    by reflexivity.
  assert (H4 : sublist (Stream.delivered sched) (map Bridge.data (Bridge.published st)))
    by (vm_compute; reflexivity).
  destruct (Pipeline_proxy_to_client chunk_world "c1" "hello"
              (Proxy.Response StatusOK ["data: Hel"; "data: lo"; "data: [DONE]"]
                              Proxy.EOF)
              (fun _ => "") "bridge-1" bridge_up events st c1_env fresh_request sched
              H1 H2 H3 H4) as (Hw & _ & _ & Hs & _).
  split; [exact H1|]. split; [exact H2|]. split; [exact H3|]. split; [exact H4|].
  split; [exact Hw|]. split; [reflexivity|exact Hs].
Defined.

(** ** [HandleChat] and the proxy it forwards to *)

Lemma Chat_handle_order (cfg : Chat.Config) (env : Chat.Env) (r : Chat.Request)
    (sched : list Chat.Event) :
  sublist (token_ids (frames (Chat.trace (Chat.HandleChat cfg env r sched))))
          (map Sequence (Chat_delivered sched)).
Proof.
  destruct (Chat_handle_cases cfg env r sched)
    as [[_ ->]|[(cid & id & pre & msg & code & -> & H)|(chatReq & _ & ->)]].
  - apply sublist_nil_l.
  - destruct H as (_ & _ & _ & _ & H & _).
    unfold Chat.stop. cbn [Chat.trace]. rewrite frames_app, H. apply sublist_nil_l.
  - match goal with
    | |- context [Chat.run sched ?c0] =>
        pose proof (Chat_run_order sched c0 []) as Hrun
    end.
    unfold Chat_order_inv in Hrun. simpl in Hrun.
    etransitivity; [|apply Hrun; apply sublist_nil_l].
    apply sublist_inserts_r. reflexivity.
Qed.

Lemma Chat_forward_in_trace (cfg : Chat.Config) (env : Chat.Env) (r : Chat.Request)
    (sched : list Chat.Event) (url message cid : string) :
  In (GoForward url message cid) (Chat.trace (Chat.HandleChat cfg env r sched)) ->
  message <> "" /\
  In (NatsSubscribe (subject_of cid) true)
     (Chat.trace (Chat.HandleChat cfg env r sched)).
Proof.
  unfold Chat.HandleChat.
  destruct (negb (String.eqb (Chat.Method r) "POST")).
  { destruct (String.eqb (Chat.Method r) "OPTIONS"); simpl;
      intros H; repeat (destruct H as [H|H]; [discriminate|]); contradiction. }
  destruct (String.eqb (Chat.LLMProxyURL cfg) "").
  { simpl. intros H; repeat (destruct H as [H|H]; [discriminate|]); contradiction. }
  destruct (Chat.ReqBody r) as [raw|chatReq].
  { simpl. intros H; repeat (destruct H as [H|H]; [discriminate|]); contradiction. }
  destruct (String.eqb_spec (Chat.Message chatReq) "") as [Hm|Hm].
  { simpl. intros H; repeat (destruct H as [H|H]; [discriminate|]); contradiction. }
  destruct (negb (Chat.CanFlush r)).
  { simpl. intros H; repeat (destruct H as [H|H]; [discriminate|]); contradiction. }
  destruct (negb (Chat.SubscribeOk env)).
  { simpl. intros H; repeat (destruct H as [H|H]; [discriminate|]); contradiction. }
  match goal with
  | |- context [Chat.run sched ?c0] =>
      destruct (Chat_run_effects sched c0) as (extra & -> & Hloop & _)
  end.
  cbn [Chat.entered Chat.trace]. intros H.
  apply in_app_or in H. destruct H as [H|H].
  - simpl in H.
    repeat (destruct H as [H|H]; [try discriminate|]); try contradiction.
    inversion H; subst. split; [exact Hm|].
    apply in_or_app. left. simpl. do 7 right. left. reflexivity.
  - exfalso. rewrite List.Forall_forall in Hloop. specialize (Hloop _ H).
    discriminate.
Qed.

(** X26.  [HandleChat] and the proxy's [handleChat], put together.
    Whenever [HandleChat] forwards a request, it is subscribed to the
    subject of its own conversation id; the proxy accepts every request
    forwarded this way (status [streaming]), but it reads the message only
    and answers under the conversation id it generates itself: all its
    envelopes carry the proxy's id.  So unless the two ids coincide, nothing
    the bridge republishes of this conversation is on the subject
    [HandleChat] subscribed to; and a handler to whose subscription nothing
    is delivered writes no token event. *)
Theorem Chat_proxy_answers_under_its_own_id (cfg : Chat.Config) (env : Chat.Env)
    (r : Chat.Request) (sched : list Chat.Event) (url message cid : string)
    (w : Proxy.World) (uuid : string) (up : Proxy.Upstream)
    (bcfg : Bridge.Config) (events : list Bridge.Event) :
  In (GoForward url message cid) (Chat.trace (Chat.HandleChat cfg env r sched)) ->
  let served := ProxyServer.serve w uuid (forwarded_request message cid) up in
  sublist (Bridge_inputs events) (Proxy.envelopes (snd served)) ->
  In (NatsSubscribe (subject_of cid) true)
     (Chat.trace (Chat.HandleChat cfg env r sched)) /\
  fst served = ProxyServer.Accepted (ProxyServer.mkChatResponse uuid "streaming") /\
  Forall (belongs_to uuid) (snd served) /\
  (uuid <> cid ->
   Forall (fun p => Bridge.subject p <> subject_of cid)
          (Bridge.published (Bridge.run bcfg events (Bridge.mkState 0 [] false)))) /\
  (Chat_delivered sched = [] ->
   token_ids (frames (Chat.trace (Chat.HandleChat cfg env r sched))) = []).
Proof.
  intros Hfwd served Hredis.
  destruct (Chat_forward_in_trace cfg env r sched url message cid Hfwd) as [Hm Hsub].
  assert (Hserved : served
                    = (ProxyServer.Accepted (ProxyServer.mkChatResponse uuid "streaming"),
                       Proxy.streamFromLLM w uuid message up)).
  { subst served. unfold ProxyServer.serve, ProxyServer.handleChat, forwarded_request.
    simpl. destruct (String.eqb_spec message "") as [He|He]; [contradiction|].
    reflexivity. }
  rewrite Hserved in *. simpl in *.
  split; [exact Hsub|]. split; [reflexivity|].
  split; [apply Proxy_stream_belongs|].
  split.
  - intros Hne.
    destruct (Bridge_run_characterised bcfg events (Bridge.mkState 0 [] false)
                eq_refl eq_refl) as (Hpub & _).
    rewrite Hpub. simpl.
    assert (Hcid : Forall (fun t => ConversationID t = uuid)
                     (map Bridge.data (omap republished (before_quit events)))).
    { eapply sublist_Forall;
        [etransitivity; [apply Bridge_published_of_inputs|exact Hredis]|].
      unfold Proxy.envelopes. apply Forall_map.
      eapply Forall_impl; [apply Proxy_stream_belongs|].
      intros a [_ Ha]. exact Ha. }
    rewrite Forall_map in Hcid.
    pose proof (Bridge_published_subject events) as Hsubj.
    rewrite Forall_forall in Hsubj, Hcid. apply Forall_forall.
    intros p Hp Heq. rewrite (Hsubj p Hp) in Heq.
    apply subject_of_inj in Heq. apply Hne. rewrite <- Heq. symmetry.
    apply (Hcid p Hp).
  - intros Hnone.
    pose proof (Chat_handle_order cfg env r sched) as Hord.
    rewrite Hnone in Hord. simpl in Hord. apply sublist_nil_r in Hord. exact Hord.
Qed.

Lemma Chat_proxy_answers_under_its_own_id_witness :
  let url := "http://llm-proxy:8080/chat" in
  let sched := [Chat.ForwardDone (Status StatusOK); Chat.Elapse firstTokenTimeoutAfter;
                Chat.Select Chat.CaseTimeout] in
  let served := ProxyServer.serve chunk_world "conv-2"
                  (forwarded_request "hello" "conv-1")
                  (Proxy.Response StatusOK ["data: Hi"; "data: [DONE]"] Proxy.EOF) in
  let events := relayed (snd served) in
  In (GoForward url "hello" "conv-1")
     (Chat.trace (Chat.HandleChat chat_cfg chat_env chat_request sched)) /\
  sublist (Bridge_inputs events) (Proxy.envelopes (snd served)) /\
  Forall (fun p => Bridge.subject p <> subject_of "conv-1")
         (Bridge.published
            (Bridge.run (Bridge.loadConfig (fun _ => "") "bridge-1") events
                        (Bridge.mkState 0 [] false))) /\
  frames (Chat.trace (Chat.HandleChat chat_cfg chat_env chat_request sched))
  = [FConnected "conv-1"; FError FirstTokenTimeout].
Proof.
  intros url sched served events.
  assert (H1 : In (GoForward url "hello" "conv-1")
                  (Chat.trace (Chat.HandleChat chat_cfg chat_env chat_request sched)))
    by (vm_compute; do 11 right; left; reflexivity).
  assert (H2 : sublist (Bridge_inputs events) (Proxy.envelopes (snd served)))
    by (vm_compute; reflexivity).
  destruct (Chat_proxy_answers_under_its_own_id chat_cfg chat_env chat_request sched
              url "hello" "conv-1" chunk_world "conv-2"
              (Proxy.Response StatusOK ["data: Hi"; "data: [DONE]"] Proxy.EOF)
              (Bridge.loadConfig (fun _ => "") "bridge-1") events H1 H2)
    as (_ & _ & _ & Hne & _).
  split; [exact H1|]. split; [exact H2|].
  split; [apply Hne; discriminate|reflexivity].
Defined.

(** ** [HandleStream]: the id written and the id read back *)

Lemma digit_char_cases (d : Z) (P : Z -> Prop) :
  0 <= d < 10 ->
  P 0 -> P 1 -> P 2 -> P 3 -> P 4 -> P 5 -> P 6 -> P 7 -> P 8 -> P 9 -> P d.
Proof.
  intros Hd. 
  assert (H : d = 0 \/ d = 1 \/ d = 2 \/ d = 3 \/ d = 4 \/ d = 5 \/ d = 6 \/
              d = 7 \/ d = 8 \/ d = 9) by lia.
  intros. repeat (destruct H as [->|H]; [assumption|]). subst. assumption.
Qed.

Lemma digit_of_digit_char (d : Z) :
  0 <= d < 10 -> Scan.digit_of (digit_char d) = Some d.
Proof. intros Hd. apply (digit_char_cases d); auto. Qed.

Lemma reads_as_digit (d : Z) (s : string) (v : Z) (k : nat) :
  0 <= d < 10 ->
  reads_as s v k ->
  reads_as (String (digit_char d) s) (d * 10 ^ Z.of_nat k + v) (S k).
Proof.
  intros Hd [Hlen Hmag].
  assert (Hscan : Scan.scanNumber (String (digit_char d) s)
                  = digit_char d :: Scan.scanNumber s).
  { cbn [Scan.scanNumber]. unfold Scan.accepted.
    rewrite (digit_of_digit_char d Hd). reflexivity. }
  unfold reads_as. rewrite Hscan. split; [cbn [length]; congruence|].
  intros a. cbn [Scan.magnitude]. rewrite (digit_of_digit_char d Hd), Hmag.
  f_equal. rewrite Nat2Z.inj_succ, Z.pow_succ_r by lia. ring.
Qed.

Lemma fmtInteger_reads_as (fuel : nat) (u : Z) (acc : string) (v : Z) (k : nat) :
  0 <= u < 10 ^ Z.of_nat fuel ->
  reads_as acc v k ->
  exists k', reads_as (fmtInteger fuel u acc) (u * 10 ^ Z.of_nat k + v) k'.
Proof.
  revert u acc v k. induction fuel as [|fuel IH]; intros u acc v k Hu Hacc.
  - change (10 ^ Z.of_nat 0) with 1 in Hu. assert (u = 0) by lia. subst u. exists k.
    cbn [fmtInteger].
    replace (0 * 10 ^ Z.of_nat k + v) with v by ring. exact Hacc.
  - cbn [fmtInteger]. destruct (Z.ltb_spec u 10) as [Hlt|Hge].
    + exists (S k). apply reads_as_digit; [lia|exact Hacc].
    + assert (Hmod : 0 <= u mod 10 < 10) by (apply Z.mod_pos_bound; lia).
      assert (Hdiv : 0 <= u / 10 < 10 ^ Z.of_nat fuel).
      { rewrite Nat2Z.inj_succ, Z.pow_succ_r in Hu by lia.
        split; [apply Z.div_pos; lia|apply Z.div_lt_upper_bound; lia]. }
      destruct (IH (u / 10) _ _ _ Hdiv (reads_as_digit _ _ _ _ Hmod Hacc)) as [k' Hk'].
      exists k'.
      replace (u * 10 ^ Z.of_nat k + v)
        with (u / 10 * 10 ^ Z.of_nat (S k) + (u mod 10 * 10 ^ Z.of_nat k + v));
        [exact Hk'|].
      rewrite Nat2Z.inj_succ, Z.pow_succ_r by lia.
      rewrite (Z.div_mod u 10) at 3 by lia. ring.
Qed.

Lemma fmtInteger_starts_with_digit (fuel : nat) (u : Z) (acc : string) :
  0 <= u ->
  (0 < fuel)%nat \/ starts_with_digit acc ->
  starts_with_digit (fmtInteger fuel u acc).
Proof.
  revert u acc. induction fuel as [|fuel IH]; intros u acc Hu H.
  - destruct H as [H|H]; [lia|exact H].
  - cbn [fmtInteger]. destruct (Z.ltb_spec u 10) as [Hlt|Hge].
    + exists u, acc. split; [lia|reflexivity].
    + apply IH; [apply Z.div_pos; lia|]. right.
      exists (u mod 10), acc. split; [apply Z.mod_pos_bound; lia|reflexivity].
Qed.

Lemma SkipSpace_stops (c : ascii) (rest : string) :
  (nat_of_ascii c < 128)%nat ->
  Scan.isSpace c = false ->
  Scan.SkipSpace (String c rest) = Some (String c rest).
Proof.
  intros Hlt Hsp. cbn [Scan.SkipSpace].
  unfold Scan.isNewline, Scan.isSpace2, Scan.isSpace3. rewrite Hsp.
  unfold Scan.isSpace in Hsp.
  set (n := nat_of_ascii c) in *.
  assert (Hn : (n < 9 \/ (13 < n /\ n <> 32))%nat).
  { destruct (Nat.leb_spec 9 n), (Nat.leb_spec n 13), (Nat.eqb_spec n 32);
      simpl in Hsp; try discriminate; lia. }
  replace (n =? 10)%nat with false by (symmetry; apply Nat.eqb_neq; lia).
  replace (n =? 13)%nat with false by (symmetry; apply Nat.eqb_neq; lia).
  replace (n =? 194)%nat with false by (symmetry; apply Nat.eqb_neq; lia).
  replace (n =? 225)%nat with false by (symmetry; apply Nat.eqb_neq; lia).
  replace (n =? 226)%nat with false by (symmetry; apply Nat.eqb_neq; lia).
  replace (n =? 227)%nat with false by (symmetry; apply Nat.eqb_neq; lia).
  cbn [andb orb].
  destruct rest as [|c2 [|c3 s3]]; reflexivity.
Qed.

Lemma SkipSpace_digit (d : Z) (rest : string) :
  0 <= d < 10 ->
  Scan.SkipSpace (String (digit_char d) rest) = Some (String (digit_char d) rest).
Proof.
  intros Hd. apply SkipSpace_stops; apply (digit_char_cases d); auto;
    apply Nat.ltb_lt; reflexivity.
Qed.

Lemma Sscanf_d_Sprintf_d (n : Z) :
  in_int64 n = true -> Scan.Sscanf_d (Sprintf_d n) = Some n /\ Sprintf_d n <> "".
Proof.
  unfold in_int64. intros Hn. apply andb_true_iff in Hn. destruct Hn as [Hlo Hhi].
  apply Z.leb_le in Hlo. apply Z.leb_le in Hhi.
  assert (Hnil : reads_as "" 0 0) by (split; [reflexivity|intros a; cbn [Scan.scanNumber Scan.magnitude];
        change (10 ^ Z.of_nat 0) with 1; f_equal; ring]).
  unfold Sprintf_d. destruct (Z.ltb_spec n 0) as [Hneg|Hpos].
  - assert (Hu : 0 <= - n < 10 ^ Z.of_nat 20) by (change (10 ^ Z.of_nat 20) with 100000000000000000000; lia).
    destruct (fmtInteger_reads_as 20 (- n) "" 0 0 Hu Hnil) as (k & Hlen & Hmag).
    destruct (fmtInteger_starts_with_digit 20 (- n) "" ltac:(lia) ltac:(left; lia))
      as (d & rest & Hd & Hrest).
    split; [|discriminate].
    unfold Scan.Sscanf_d.
    rewrite (SkipSpace_stops "-"%char _ ltac:(apply Nat.ltb_lt; reflexivity) eq_refl).
    change ((nat_of_ascii "-" =? 45)%nat) with true. cbn [orb]. cbv iota zeta.
    specialize (Hmag 0). 
    destruct (Scan.scanNumber (fmtInteger 20 (- n) "")) as [|c tok] eqn:Htok.
    + rewrite Hrest in Htok. cbn [Scan.scanNumber] in Htok.
      unfold Scan.accepted in Htok.
      rewrite (digit_of_digit_char d Hd) in Htok. discriminate.
    + rewrite Hmag.
      replace (- (0 * 10 ^ Z.of_nat k + (- n * 10 ^ Z.of_nat 0 + 0))) with n
        by (change (10 ^ Z.of_nat 0) with 1; ring).
      unfold in_int64.
      destruct (Z.leb_spec (- 2 ^ 63) n); [|lia].
      destruct (Z.leb_spec n (2 ^ 63 - 1)); [|lia]. reflexivity.
  - assert (Hu : 0 <= n < 10 ^ Z.of_nat 20) by (change (10 ^ Z.of_nat 20) with 100000000000000000000; lia).
    destruct (fmtInteger_reads_as 20 n "" 0 0 Hu Hnil) as (k & Hlen & Hmag).
    destruct (fmtInteger_starts_with_digit 20 n "" ltac:(lia) ltac:(left; lia))
      as (d & rest & Hd & Hrest).
    split; [|rewrite Hrest; discriminate].
    unfold Scan.Sscanf_d. 
    specialize (Hmag 0). rewrite Hrest in Hmag |- *.
    rewrite (SkipSpace_digit d rest Hd).
    assert (Hsign : (nat_of_ascii (digit_char d) =? 45)%nat = false /\
                    (nat_of_ascii (digit_char d) =? 43)%nat = false)
      by (apply (digit_char_cases d); auto).
    destruct Hsign as [-> ->]. cbn [orb]. cbv iota zeta.
    destruct (Scan.scanNumber (String (digit_char d) rest)) as [|c tok] eqn:Htok.
    + cbn [Scan.scanNumber] in Htok. unfold Scan.accepted in Htok.
      rewrite (digit_of_digit_char d Hd) in Htok. discriminate.
    + rewrite Hmag.
      replace (0 * 10 ^ Z.of_nat k + (n * 10 ^ Z.of_nat 0 + 0)) with n
        by (change (10 ^ Z.of_nat 0) with 1; ring).
      unfold in_int64.
      destruct (Z.leb_spec (- 2 ^ 63) n); [|lia].
      destruct (Z.leb_spec n (2 ^ 63 - 1)); [|lia]. reflexivity.
Qed.

Lemma Stream_resume_from (env : Stream.Env) (r : Stream.Request)
    (sched : list Stream.Event) (s : Z) :
  Stream.startSequence_of (Stream.LastEventID r) = s ->
  0 < s ->
  Forall (fun id => s < id)
         (token_ids (frames (Stream.trace (Stream.HandleStream env r sched)))).
Proof.
  intros Hstart Hs.
  destruct (Stream_handle_cases env r sched)
    as [(id & es & -> & [[-> ->]|[[-> ->]|[-> ->]]])| ->].
  1-3: constructor.
  assert (H : Stream.startSequence (Stream.run sched (Stream_entered env r)) = s /\
              Forall (fun id => s < id)
                (token_ids (frames (Stream.trace (Stream.run sched (Stream_entered env r))))
                 ++ map Sequence (Stream.msgChan (Stream.run sched (Stream_entered env r))))).
  { apply (Stream_run_ind (fun c =>
             Stream.startSequence c = s /\
             Forall (fun id => s < id)
                    (token_ids (frames (Stream.trace c)) ++ map Sequence (Stream.msgChan c)))).
    - intros c e [Hc H].
      destruct (Stream_step_shape c e) as (_ & _ & _ & _ & Hs' & _).
      split; [congruence|].
      pose proof (Stream_step_resume c e) as Hstep. simpl in Hstep.
      rewrite Hs', Hc in Hstep. apply Hstep; [lia|exact H].
    - split; [exact Hstart|]. simpl. constructor. }
  destruct H as [_ H]. apply Forall_app in H. destruct H as [H _]. exact H.
Qed.

(** X27.  The id of a token event is written with [%d] and comes back in
    the [Last-Event-ID] header of a reconnecting client.  For every [int64]
    value [n], scanning the printed [n] gives [n] back (negative numbers
    and both ends of the range included), so the handler resumes from
    [n + 1] in [int64] arithmetic; and for [0 <= n] below the maximum,
    every token event written on the resumed connection has an id above
    [n + 1]: envelope [n + 1] is filtered together with the replayed ones. *)
Theorem Stream_written_id_read_back (env : Stream.Env) (path : string)
    (flush : bool) (sched : list Stream.Event) (n : Z) :
  in_int64 n = true ->
  let r := Stream.mkRequest path (Sprintf_d n) flush in
  Scan.Sscanf_d (Sprintf_d n) = Some n /\
  Stream.startSequence_of (Stream.LastEventID r) = wrap64 (n + 1) /\
  (0 <= n < 2^63 - 1 ->
   Forall (fun id => n + 1 < id)
          (token_ids (frames (Stream.trace (Stream.HandleStream env r sched))))).
Proof.
  intros Hn r. destruct (Sscanf_d_Sprintf_d n Hn) as [Hscan Hne].
  assert (Hstart : Stream.startSequence_of (Stream.LastEventID r) = wrap64 (n + 1)).
  { unfold Stream.startSequence_of. cbn [Stream.LastEventID r].
    destruct (String.eqb_spec (Sprintf_d n) "") as [He|_]; [contradiction|].
    rewrite Hscan. reflexivity. }
  split; [exact Hscan|]. split; [exact Hstart|].
  intros Hrange. apply Stream_resume_from; [|lia].
  rewrite Hstart. apply wrap64_small. lia.
Qed.

Lemma Stream_written_id_read_back_witness :
  let sched := [Stream.Deliver (Encoded (c1_token 41)) false;
                Stream.Deliver (Encoded (c1_token 42)) false;
                Stream.Deliver (Encoded (c1_token 43)) false;
                Stream.Select Stream.CaseMsg;
                Stream.Select Stream.CaseMsg] in
  let r := Stream.mkRequest "/stream/c1" (Sprintf_d 41) true in
  in_int64 41 = true /\
  Sprintf_d 41 = "41" /\
  Stream.startSequence_of (Stream.LastEventID r) = 42 /\
  token_ids (frames (Stream.trace (Stream.HandleStream c1_env r sched))) = [43] /\
  Forall (fun id => 41 + 1 < id)
         (token_ids (frames (Stream.trace (Stream.HandleStream c1_env r sched)))).
Proof.
  intros sched r.
  assert (H1 : in_int64 41 = true) by reflexivity.
  destruct (Stream_written_id_read_back c1_env "/stream/c1" true sched 41 H1)
    as (_ & Hstart & Hall).
  split; [exact H1|]. split; [reflexivity|]. split; [exact Hstart|].
  split; [reflexivity|]. apply Hall. lia.
Defined.

(** ** The load generator: [RecordLatency] under concurrency *)

Lemma lookup_In {A} (l : list A) (i : nat) (x : A) : l !! i = Some x -> In x l.
Proof.
  revert i. induction l as [|y l IH]; intros [|i] H; try discriminate.
  - inversion H. left. reflexivity.
  - right. apply (IH i). exact H.
Qed.

Lemma sumZ_insert {A} (f : A -> Z) (l : list A) (i : nat) (x y : A) :
  l !! i = Some x ->
  sumZ (map f (<[i := y]> l)) = sumZ (map f l) - f x + f y.
Proof.
  revert i. induction l as [|z l IH]; intros [|i] H; try discriminate.
  - inversion H; subst. simpl. lia.
  - simpl. rewrite (IH i H). lia.
Qed.

Lemma map_insert_same {A B} (f : A -> B) (l : list A) (i : nat) (x y : A) :
  l !! i = Some x -> f y = f x -> map f (<[i := y]> l) = map f l.
Proof.
  revert i. induction l as [|z l IH]; intros [|i] H Hf; try discriminate.
  - inversion H; subst. simpl. rewrite Hf. reflexivity.
  - simpl. rewrite (IH i H Hf). reflexivity.
Qed.

Lemma call_ok_mono (s s' : LoadGen.Stats) (c : LoadGen.Call) :
  (LoadGen.MinLatencyNs s <> 0 ->
   LoadGen.MinLatencyNs s' <> 0 /\ LoadGen.MinLatencyNs s' <= LoadGen.MinLatencyNs s) ->
  LoadGen.MaxLatencyNs s <= LoadGen.MaxLatencyNs s' ->
  call_ok s c -> call_ok s' c.
Proof.
  unfold call_ok. intros Hmin Hmax.
  destruct (LoadGen.pc c); auto; intros H;
    [destruct H as [H0 H1]|destruct H as (H0 & H1 & H2)|destruct H as (H0 & H1 & H2)];
    destruct (Hmin H0); repeat split; auto; lia.
Qed.

Lemma LoadGen_step_call_latency (s : LoadGen.Stats) (c : LoadGen.Call) :
  LoadGen.latencyNs (snd (LoadGen.step_call s c)) = LoadGen.latencyNs c.
Proof.
  unfold LoadGen.step_call.
  destruct (LoadGen.pc c); simpl; try reflexivity;
    match goal with |- context [if ?b then _ else _] => destruct b end; reflexivity.
Qed.

(** One atomic step of one call keeps the invariant of the pool. *)
Lemma LoadGen_step_inv (latencies : list Z) (p : LoadGen.Pool) (i : nat) :
  Forall (fun l => 0 < l) latencies ->
  Pool_inv latencies p -> Pool_inv latencies (LoadGen.step p i).
Proof.
  intros Hpos (Hlat & Hok & Hmin & Hmax & Htot).
  unfold LoadGen.step. destruct (LoadGen.calls p !! i) as [c|] eqn:Hc;
    [|repeat split; assumption].
  assert (Hin : In (LoadGen.latencyNs c) latencies).
  { rewrite <- Hlat. apply in_map. eapply lookup_In; eassumption. }
  assert (Hl : 0 < LoadGen.latencyNs c).
  { rewrite List.Forall_forall in Hpos. apply Hpos. exact Hin. }
  assert (Hc_ok : call_ok (LoadGen.stats p) c).
  { rewrite List.Forall_forall in Hok. apply Hok. eapply lookup_In; eassumption. }
  assert (Hlat' : map LoadGen.latencyNs
                    (<[i := snd (LoadGen.step_call (LoadGen.stats p) c)]> (LoadGen.calls p))
                  = latencies).
  { rewrite (map_insert_same _ _ _ c); auto. apply LoadGen_step_call_latency. }
  unfold Pool_inv. cbn [LoadGen.stats LoadGen.calls].
  split; [exact Hlat'|]. clear Hlat'.
  rewrite (sumZ_insert added _ _ c) by exact Hc.
  destruct p as [s cs]. cbn [LoadGen.stats LoadGen.calls] in *.
  destruct c as [l pc]. cbn [LoadGen.latencyNs] in *.
  unfold call_ok in Hc_ok. cbn [LoadGen.pc LoadGen.latencyNs] in Hc_ok.
  unfold LoadGen.step_call. cbn [LoadGen.pc LoadGen.latencyNs].
  destruct pc as [| |current| |current|].
  - (* the Add *)
    cbn [fst snd]. unfold added at 2 3. cbn [LoadGen.pc LoadGen.latencyNs].
    split.
    { apply Forall_insert; [|exact I].
      eapply Forall_impl; [exact Hok|]. intros c0. apply call_ok_mono; simpl; [intros; split; [assumption|lia]|lia]. }
    split; [exact Hmin|]. split; [exact Hmax|].
    simpl. rewrite Htot, wrap64_add_l. f_equal. lia.
  - (* the Load of the first loop *)
    destruct (Z.eqb_spec (LoadGen.MinLatencyNs s) 0) as [H0|H0]; cbn [negb andb].
    + cbn [fst snd]. unfold added at 2 3. cbn [LoadGen.pc LoadGen.latencyNs].
      split; [apply Forall_insert; [exact Hok|]|].
      { unfold call_ok. simpl. left. exact H0. }
      split; [exact Hmin|]. split; [exact Hmax|]. rewrite Htot. f_equal. lia.
    + destruct (Z.leb_spec (LoadGen.MinLatencyNs s) l) as [Hle|Hgt];
        cbn [fst snd]; unfold added at 2 3; cbn [LoadGen.pc LoadGen.latencyNs].
      * split; [apply Forall_insert; [exact Hok|]|].
        { unfold call_ok. simpl. split; assumption. }
        split; [exact Hmin|]. split; [exact Hmax|]. rewrite Htot. f_equal. lia.
      * split; [apply Forall_insert; [exact Hok|]|].
        { unfold call_ok. simpl. right. exact Hgt. }
        split; [exact Hmin|]. split; [exact Hmax|]. rewrite Htot. f_equal. lia.
  - (* the CompareAndSwap of the first loop *)
    destruct (Z.eqb_spec (LoadGen.MinLatencyNs s) current) as [Heq|Hne];
      cbn [fst snd]; unfold added at 2 3; cbn [LoadGen.pc LoadGen.latencyNs].
    + split.
      { apply Forall_insert.
        - eapply Forall_impl; [exact Hok|]. intros c0.
          apply call_ok_mono; simpl; [|lia].
          intros Hnz. split; [lia|]. destruct Hc_ok as [Hz|Hlt]; lia.
        - unfold call_ok. simpl. split; lia. }
      split; [right; exact Hin|]. split; [exact Hmax|].
      simpl. rewrite Htot. f_equal. lia.
    + split; [apply Forall_insert; [exact Hok|exact I]|].
      split; [exact Hmin|]. split; [exact Hmax|]. rewrite Htot. f_equal. lia.
  - (* the Load of the second loop *)
    destruct Hc_ok as [Hnz Hle].
    destruct (Z.leb_spec l (LoadGen.MaxLatencyNs s)) as [Hmx|Hmx];
      cbn [fst snd]; unfold added at 2 3; cbn [LoadGen.pc LoadGen.latencyNs].
    + split; [apply Forall_insert; [exact Hok|]|].
      { unfold call_ok. simpl. repeat split; assumption. }
      split; [exact Hmin|]. split; [exact Hmax|]. rewrite Htot. f_equal. lia.
    + split; [apply Forall_insert; [exact Hok|]|].
      { unfold call_ok. simpl. repeat split; assumption. }
      split; [exact Hmin|]. split; [exact Hmax|]. rewrite Htot. f_equal. lia.
  - (* the CompareAndSwap of the second loop *)
    destruct Hc_ok as (Hnz & Hle & Hlt).
    destruct (Z.eqb_spec (LoadGen.MaxLatencyNs s) current) as [Heq|Hne];
      cbn [fst snd]; unfold added at 2 3; cbn [LoadGen.pc LoadGen.latencyNs].
    + split.
      { apply Forall_insert.
        - eapply Forall_impl; [exact Hok|]. intros c0.
          apply call_ok_mono; simpl; [intros; split; [assumption|lia]|lia].
        - unfold call_ok. simpl. repeat split; auto; lia. }
      split; [exact Hmin|]. split; [right; exact Hin|].
      simpl. rewrite Htot. f_equal. lia.
    + split; [apply Forall_insert; [exact Hok|]|].
      { unfold call_ok. simpl. split; assumption. }
      split; [exact Hmin|]. split; [exact Hmax|]. rewrite Htot. f_equal. lia.
  - (* returned *)
    cbn [fst snd]. 
    split; [apply Forall_insert; [exact Hok|exact Hc_ok]|].
    split; [exact Hmin|]. split; [exact Hmax|]. rewrite Htot. f_equal. lia.
Qed.

Lemma LoadGen_run_inv (latencies : list Z) (sched : list nat) (p : LoadGen.Pool) :
  Forall (fun l => 0 < l) latencies ->
  Pool_inv latencies p -> Pool_inv latencies (LoadGen.run sched p).
Proof.
  intros Hpos. revert p. induction sched as [|i sched IH]; intros p H; [exact H|].
  simpl. apply IH. apply LoadGen_step_inv; assumption.
Qed.

Lemma LoadGen_start_inv (latencies : list Z) :
  Pool_inv latencies (LoadGen.start LoadGen.fresh latencies).
Proof.
  unfold Pool_inv, LoadGen.start. cbn [LoadGen.stats LoadGen.calls].
  split; [rewrite map_map; simpl; apply map_id|].
  split; [apply Forall_map; apply Forall_true; intros l; exact I|].
  split; [left; reflexivity|]. split; [left; reflexivity|].
  rewrite map_map.
  assert (H : sumZ (map (fun l => added (LoadGen.mkCall l LoadGen.AtAdd)) latencies) = 0)
    by (induction latencies as [|l ls IH]; simpl; [reflexivity|exact IH]).
  rewrite H. reflexivity.
Qed.

Lemma LoadGen_step_call_rank (s : LoadGen.Stats) (c : LoadGen.Call) :
  (rank (fst (LoadGen.step_call s c)) (snd (LoadGen.step_call s c)) <= rank s c - 1)%nat.
Proof.
  unfold rank, LoadGen.step_call. destruct c as [l pc]. cbn [LoadGen.pc LoadGen.latencyNs].
  destruct pc as [| |current| |current|]; cbn [fst snd LoadGen.pc].
  - lia.
  - destruct (negb (LoadGen.MinLatencyNs s =? 0) && (LoadGen.MinLatencyNs s <=? l));
      cbn [fst snd LoadGen.pc]; [lia|]. rewrite Z.eqb_refl. lia.
  - destruct (LoadGen.MinLatencyNs s =? current); cbn [fst snd LoadGen.pc]; lia.
  - destruct (l <=? LoadGen.MaxLatencyNs s); cbn [fst snd LoadGen.pc]; [lia|].
    rewrite Z.eqb_refl. lia.
  - destruct (LoadGen.MaxLatencyNs s =? current); cbn [fst snd LoadGen.pc]; lia.
  - lia.
Qed.

Lemma LoadGen_step_lookup (p : LoadGen.Pool) (i : nat) (c : LoadGen.Call) :
  LoadGen.calls p !! i = Some c ->
  LoadGen.calls (LoadGen.step p i) !! i = Some (snd (LoadGen.step_call (LoadGen.stats p) c)) /\
  LoadGen.stats (LoadGen.step p i) = fst (LoadGen.step_call (LoadGen.stats p) c).
Proof.
  intros H. unfold LoadGen.step. rewrite H. cbn [LoadGen.calls LoadGen.stats].
  split; [|reflexivity].
  apply list_lookup_insert_eq. eapply lookup_lt_Some. exact H.
Qed.

Lemma LoadGen_solo_rank (n : nat) (p : LoadGen.Pool) (i : nat) (c : LoadGen.Call) :
  LoadGen.calls p !! i = Some c ->
  exists c',
    LoadGen.calls (LoadGen.run (repeat i n) p) !! i = Some c' /\
    (rank (LoadGen.stats (LoadGen.run (repeat i n) p)) c' <= rank (LoadGen.stats p) c - n)%nat.
Proof.
  revert p c. induction n as [|n IH]; intros p c H.
  - exists c. split; [exact H|simpl; lia].
  - destruct (LoadGen_step_lookup p i c H) as [Hc Hs].
    destruct (IH _ _ Hc) as (c' & Hc' & Hr).
    exists c'. split; [exact Hc'|].
    cbn [repeat LoadGen.run fold_left]. 
    change (fold_left LoadGen.step (repeat i n) (LoadGen.step p i))
      with (LoadGen.run (repeat i n) (LoadGen.step p i)).
    pose proof (LoadGen_step_call_rank (LoadGen.stats p) c) as Hstep.
    rewrite Hs in Hr. lia.
Qed.

Lemma LoadGen_step_single (s : LoadGen.Stats) (c : LoadGen.Call) :
  LoadGen.step (LoadGen.mkPool s [c]) 0
  = LoadGen.mkPool (fst (LoadGen.step_call s c)) [snd (LoadGen.step_call s c)].
Proof. reflexivity. Qed.

Local Ltac solo_step :=
  rewrite LoadGen_step_single;
  cbn [LoadGen.step_call LoadGen.pc LoadGen.latencyNs
       LoadGen.set_TotalLatencyNs LoadGen.set_MinLatencyNs LoadGen.set_MaxLatencyNs
       LoadGen.TokensPublished LoadGen.TokensReceived LoadGen.ConnectionsOpened
       LoadGen.ConnectionsClosed LoadGen.Errors LoadGen.TotalLatencyNs
       LoadGen.MinLatencyNs LoadGen.MaxLatencyNs];
  rewrite ?Z.eqb_refl;
  repeat match goal with
         | H : ?b = _ |- context [if ?b then _ else _] => rewrite H
         end;
  cbn [fst snd].

Lemma LoadGen_RecordLatency_alone (l : Z) (s : LoadGen.Stats) :
  LoadGen.RecordLatency l s
  = LoadGen.mkStats
      (LoadGen.TokensPublished s) (LoadGen.TokensReceived s)
      (LoadGen.ConnectionsOpened s) (LoadGen.ConnectionsClosed s) (LoadGen.Errors s)
      (wrap64 (LoadGen.TotalLatencyNs s + l))
      (if negb (LoadGen.MinLatencyNs s =? 0) && (LoadGen.MinLatencyNs s <=? l)
       then LoadGen.MinLatencyNs s else l)
      (if l <=? LoadGen.MaxLatencyNs s then LoadGen.MaxLatencyNs s else l).
Proof.
  destruct s as [a b c d e tot mn mx].
  unfold LoadGen.RecordLatency, LoadGen.start, LoadGen.run. cbn [map fold_left].
  cbn [LoadGen.TokensPublished LoadGen.TokensReceived LoadGen.ConnectionsOpened
       LoadGen.ConnectionsClosed LoadGen.Errors LoadGen.TotalLatencyNs
       LoadGen.MinLatencyNs LoadGen.MaxLatencyNs].
  solo_step. generalize (wrap64 (tot + l)). intros tot'.
  destruct (negb (mn =? 0) && (mn <=? l)) eqn:Hmin;
    destruct (l <=? mx) eqn:Hmax;
    do 4 solo_step; reflexivity.
Qed.

(** X28.  [RecordLatency] is called by all consumer goroutines on one
    [Stats].  For positive latencies, whatever the interleaving of the
    atomic operations of the calls: (1) a call that is left alone for five
    steps has returned, from wherever it stood (the loops can only be held
    up by other calls succeeding); (2) once all calls have returned,
    [MinLatencyNs] is the least and [MaxLatencyNs] the greatest of the
    latencies recorded, and [TotalLatencyNs] is their sum in [int64]
    arithmetic: no update is lost; (3) a call nobody interferes with adds
    the latency, lowers the minimum when it is unset (0) or greater, and
    raises the maximum when it is smaller. *)
Theorem LoadGen_RecordLatency_concurrent (latencies : list Z) (sched : list nat) :
  Forall (fun l => 0 < l) latencies ->
  let p := LoadGen.run sched (LoadGen.start LoadGen.fresh latencies) in
  (forall i c,
      LoadGen.calls p !! i = Some c ->
      exists c',
        LoadGen.calls (LoadGen.run (repeat i 5) p) !! i = Some c' /\
        LoadGen.pc c' = LoadGen.Returned) /\
  (latencies <> [] ->
   Forall (fun c => LoadGen.pc c = LoadGen.Returned) (LoadGen.calls p) ->
   In (LoadGen.MinLatencyNs (LoadGen.stats p)) latencies /\
   In (LoadGen.MaxLatencyNs (LoadGen.stats p)) latencies /\
   Forall (fun l => LoadGen.MinLatencyNs (LoadGen.stats p) <= l
                    <= LoadGen.MaxLatencyNs (LoadGen.stats p)) latencies /\
   LoadGen.TotalLatencyNs (LoadGen.stats p) = wrap64 (sumZ latencies)) /\
  (forall l s,
      LoadGen.RecordLatency l s
      = LoadGen.set_MaxLatencyNs
          (if l <=? LoadGen.MaxLatencyNs s then LoadGen.MaxLatencyNs s else l)
          (LoadGen.set_MinLatencyNs
             (if negb (LoadGen.MinLatencyNs s =? 0) && (LoadGen.MinLatencyNs s <=? l)
              then LoadGen.MinLatencyNs s else l)
             (LoadGen.set_TotalLatencyNs (wrap64 (LoadGen.TotalLatencyNs s + l)) s))).
Proof.
  intros Hpos p.
  split; [|split].
  - intros i c Hc.
    destruct (LoadGen_solo_rank 5 p i c Hc) as (c' & Hc' & Hr).
    exists c'. split; [exact Hc'|].
    assert (Hmax : (rank (LoadGen.stats p) c <= 5)%nat).
    { unfold rank. destruct (LoadGen.pc c); try lia;
        match goal with |- context [if ?b then _ else _] => destruct b end; lia. }
    assert (H0 : rank (LoadGen.stats (LoadGen.run (repeat i 5) p)) c' = 0%nat) by lia.
    unfold rank in H0. destruct (LoadGen.pc c'); try discriminate; try reflexivity;
      match type of H0 with context [if ?b then _ else _] => destruct b end;
      discriminate.
  - intros Hne Hall.
    destruct (LoadGen_run_inv latencies sched _ Hpos (LoadGen_start_inv latencies))
      as (Hlat & Hok & Hmin & Hmax & Htot). fold p in Hlat, Hok, Hmin, Hmax, Htot.
    assert (Hbounds : Forall (fun c => LoadGen.MinLatencyNs (LoadGen.stats p) <> 0 /\
                                       LoadGen.MinLatencyNs (LoadGen.stats p)
                                       <= LoadGen.latencyNs c
                                       <= LoadGen.MaxLatencyNs (LoadGen.stats p))
                             (LoadGen.calls p)).
    { rewrite List.Forall_forall in Hok, Hall. apply List.Forall_forall.
      intros c Hc. specialize (Hok c Hc). specialize (Hall c Hc).
      unfold call_ok in Hok. rewrite Hall in Hok. tauto. }
    assert (Hadded : map added (LoadGen.calls p) = latencies).
    { rewrite <- Hlat. apply map_ext_in. intros c Hc.
      rewrite List.Forall_forall in Hall. specialize (Hall c Hc).
      unfold added. rewrite Hall. reflexivity. }
    destruct (LoadGen.calls p) as [|c0 cs] eqn:Hcalls.
    { simpl in Hlat. congruence. }
    inversion Hbounds as [|? ? [Hnz [Hlo Hhi]] _]; subst.
    assert (Hl0 : 0 < LoadGen.latencyNs c0).
    { rewrite List.Forall_forall in Hpos. apply Hpos. left. reflexivity. }
    split; [destruct Hmin as [Hmin|Hmin]; [contradiction|exact Hmin]|].
    split; [destruct Hmax as [Hmax|Hmax]; [lia|exact Hmax]|].
    split; [|rewrite Htot, Hadded; reflexivity].
    apply Forall_map. eapply Forall_impl; [exact Hbounds|].
    intros c (_ & H). exact H.
  - intros l s. rewrite LoadGen_RecordLatency_alone. reflexivity.
Qed.

Lemma LoadGen_RecordLatency_concurrent_witness :
  let latencies := [5; 3; 9] in
  let sched := [0; 1; 2; 0; 1; 2; 0; 1; 2; 0; 1; 2; 0; 1; 2; 0; 1; 2]%nat in
  let p := LoadGen.run sched (LoadGen.start LoadGen.fresh latencies) in
  Forall (fun l => 0 < l) latencies /\
  latencies <> [] /\
  Forall (fun c => LoadGen.pc c = LoadGen.Returned) (LoadGen.calls p) /\
  LoadGen.MinLatencyNs (LoadGen.stats p) = 3 /\
  LoadGen.MaxLatencyNs (LoadGen.stats p) = 9 /\
  LoadGen.TotalLatencyNs (LoadGen.stats p) = wrap64 (sumZ latencies).
Proof.
  intros latencies sched p.
  assert (H1 : Forall (fun l => 0 < l) latencies) by (repeat constructor).
  assert (H2 : latencies <> []) by discriminate.
  assert (H3 : Forall (fun c => LoadGen.pc c = LoadGen.Returned) (LoadGen.calls p))
    by (vm_compute; repeat constructor).
  destruct (LoadGen_RecordLatency_concurrent latencies sched H1) as (_ & H & _).
  destruct (H H2 H3) as (_ & _ & _ & Htot).
  split; [exact H1|]. split; [exact H2|]. split; [exact H3|].
  split; [reflexivity|]. split; [reflexivity|exact Htot].
Defined.

(** ** The load generator: [runProducer] *)

Lemma succeeded_cons (a : LoadGen.Attempt) (l : list LoadGen.Attempt) :
  succeeded (a :: l) = (if LoadGen.ok a then 1 else 0) + succeeded l.
Proof. reflexivity. Qed.

Lemma failed_cons (a : LoadGen.Attempt) (l : list LoadGen.Attempt) :
  failed (a :: l) = (if LoadGen.ok a then 0 else 1) + failed l.
Proof. reflexivity. Qed.

Lemma succeeded_nonneg (l : list LoadGen.Attempt) : 0 <= succeeded l.
Proof.
  induction l as [|a l IH]; [reflexivity|].
  rewrite succeeded_cons. destruct (LoadGen.ok a); lia.
Qed.

Lemma delay_one (d : Z) : 0 < d -> (Z.quot d 2 <=? 0) = true <-> d = 1.
Proof.
  intros Hd. rewrite Z.quot_div_nonneg by lia. rewrite Z.leb_le.
  split; intros H; [|subst; reflexivity].
  assert (d < 2 \/ 2 <= d) as [Hlt|Hge] by lia; [lia|].
  assert (1 <= d / 2) by (apply Z.div_le_lower_bound; lia). lia.
Qed.

Lemma LoadGen_loop_spec (w : LoadGen.World) (cid : string) (N d : Z)
    (n i : nat) (st : LoadGen.Producer) :
  let r := LoadGen.loop w cid N d n i st in
  exists k,
    (k <= n)%nat /\
    LoadGen.attempts (fst r)
    = LoadGen.attempts st ++ map (producer_attempt w cid N) (seq i k) /\
    wrap64 (LoadGen.TokensPublished (LoadGen.counters (fst r)))
    = wrap64 (LoadGen.TokensPublished (LoadGen.counters st)
              + succeeded (map (producer_attempt w cid N) (seq i k))) /\
    wrap64 (LoadGen.Errors (LoadGen.counters (fst r)))
    = wrap64 (LoadGen.Errors (LoadGen.counters st)
              + failed (map (producer_attempt w cid N) (seq i k))) /\
    (snd r = LoadGen.Completed -> k = n) /\
    (snd r = LoadGen.Cancelled -> (k < n)%nat /\ LoadGen.CtxDone w (i + k) = true) /\
    (snd r = LoadGen.Panicked <->
     d = 1 /\ 0 < succeeded (map (producer_attempt w cid N) (seq i k))) /\
    (d = 1 -> succeeded (map (producer_attempt w cid N) (seq i k)) <= 1) /\
    Forall (fun j => LoadGen.CtxDone w j = false) (seq i k).
Proof.
  revert i st. induction n as [|n IH]; intros i st r.
  - exists 0%nat. subst r. cbn [LoadGen.loop fst snd seq map].
    change (succeeded []) with 0. change (failed []) with 0.
    rewrite app_nil_r, !Z.add_0_r.
    split; [lia|]. do 3 (split; [reflexivity|]).
    split; [reflexivity|]. split; [discriminate|].
    split; [split; [discriminate|intros [_ H]; lia]|].
    split; [lia|constructor].
  - subst r. cbn [LoadGen.loop].
    destruct (LoadGen.CtxDone w i) eqn:Hctx.
    { exists 0%nat. cbn [fst snd seq map].
      change (succeeded []) with 0. change (failed []) with 0.
      rewrite app_nil_r, !Z.add_0_r, Nat.add_0_r.
      split; [lia|]. do 3 (split; [reflexivity|]).
      split; [discriminate|]. split; [intros _; split; [lia|exact Hctx]|].
      split; [split; [discriminate|intros [_ H]; lia]|].
      split; [lia|constructor]. }
    fold (producer_attempt w cid N i).
    assert (Hok : LoadGen.ok (producer_attempt w cid N i) = LoadGen.PublishOk w i)
      by reflexivity.
    destruct (LoadGen.PublishOk w i) eqn:Hpub; cbn [negb].
    + destruct (Z.ltb_spec 0 d) as [Hd|Hd].
      * destruct (Z.quot d 2 <=? 0) eqn:Hq.
        { apply (delay_one d Hd) in Hq. exists 1%nat.
          cbn [fst snd LoadGen.attempts LoadGen.counters seq map].
          rewrite succeeded_cons, failed_cons, Hok.
          unfold LoadGen.set_TokensPublished.
          cbn [LoadGen.TokensPublished LoadGen.Errors succeeded failed sumZ map fold_right].
          rewrite wrap64_idem.
          split; [lia|]. split; [reflexivity|].
          split; [f_equal; lia|]. split; [f_equal; lia|].
          split; [discriminate|]. split; [discriminate|].
          split; [split; [intros _; split; [exact Hq|lia]|reflexivity]|].
          split; [lia|].
          constructor; [exact Hctx|constructor]. }
        { match goal with
          | |- context [LoadGen.loop w cid N d n (S i) ?st1] =>
              destruct (IH (S i) st1)
                as (k & Hk & Hatt & Htp & Herr & Hc & Hx & Hp & H1 & Hnc)
          end.
          exists (S k). cbn [seq map]. rewrite succeeded_cons, failed_cons, Hok.
          cbn [LoadGen.attempts LoadGen.counters] in Hatt, Htp, Herr.
          unfold LoadGen.set_TokensPublished in *.
          cbn [LoadGen.TokensPublished LoadGen.Errors] in Htp, Herr.
          rewrite wrap64_add_l in Htp.
          assert (Hd1 : d <> 1).
          { intros ->. discriminate. }
          split; [lia|]. split; [rewrite Hatt, <- app_assoc; reflexivity|].
          split; [rewrite Htp; f_equal; lia|].
          split; [rewrite Herr; f_equal; lia|].
          split; [intros H; f_equal; auto|].
          split; [intros H; destruct (Hx H) as [Ha Hb]; split; [lia|];
                  rewrite <- Hb; f_equal; lia|].
          split; [rewrite Hp; split; intros [Ha Hb]; contradiction|].
          split; [intros; contradiction|].
          constructor; [exact Hctx|exact Hnc]. }
      * match goal with
        | |- context [LoadGen.loop w cid N d n (S i) ?st1] =>
            destruct (IH (S i) st1)
              as (k & Hk & Hatt & Htp & Herr & Hc & Hx & Hp & H1 & Hnc)
        end.
        exists (S k). cbn [seq map]. rewrite succeeded_cons, failed_cons, Hok.
        cbn [LoadGen.attempts LoadGen.counters] in Hatt, Htp, Herr.
        unfold LoadGen.set_TokensPublished in *.
        cbn [LoadGen.TokensPublished LoadGen.Errors] in Htp, Herr.
        rewrite wrap64_add_l in Htp.
        split; [lia|]. split; [rewrite Hatt, <- app_assoc; reflexivity|].
        split; [rewrite Htp; f_equal; lia|].
        split; [rewrite Herr; f_equal; lia|].
        split; [intros H; f_equal; auto|].
        split; [intros H; destruct (Hx H) as [Ha Hb]; split; [lia|];
                rewrite <- Hb; f_equal; lia|].
        split; [rewrite Hp; split; intros [Ha Hb]; lia|].
        split; [intros; lia|].
        constructor; [exact Hctx|exact Hnc].
    + match goal with
      | |- context [LoadGen.loop w cid N d n (S i) ?st1] =>
          destruct (IH (S i) st1)
            as (k & Hk & Hatt & Htp & Herr & Hc & Hx & Hp & H1 & Hnc)
      end.
      exists (S k). cbn [seq map]. rewrite succeeded_cons, failed_cons, Hok.
      cbn [LoadGen.attempts LoadGen.counters] in Hatt, Htp, Herr.
      unfold LoadGen.set_Errors in *.
      cbn [LoadGen.TokensPublished LoadGen.Errors] in Htp, Herr.
      rewrite wrap64_add_l in Herr.
      split; [lia|]. split; [rewrite Hatt, <- app_assoc; reflexivity|].
      split; [rewrite Htp; f_equal; lia|].
      split; [rewrite Herr; f_equal; lia|].
      split; [intros H; f_equal; auto|].
      split; [intros H; destruct (Hx H) as [Ha Hb]; split; [lia|];
              rewrite <- Hb; f_equal; lia|].
      split; [rewrite Hp; rewrite Z.add_0_l; reflexivity|].
      split; [rewrite Z.add_0_l; exact H1|].
      constructor; [exact Hctx|exact Hnc].
Qed.

Lemma LoadGen_loop_counters (w : LoadGen.World) (cid : string) (N d : Z)
    (n i : nat) (st : LoadGen.Producer) :
  wrap64 (LoadGen.TokensPublished (LoadGen.counters st))
  = LoadGen.TokensPublished (LoadGen.counters st) ->
  wrap64 (LoadGen.Errors (LoadGen.counters st)) = LoadGen.Errors (LoadGen.counters st) ->
  let r := LoadGen.loop w cid N d n i st in
  wrap64 (LoadGen.TokensPublished (LoadGen.counters (fst r)))
  = LoadGen.TokensPublished (LoadGen.counters (fst r)) /\
  wrap64 (LoadGen.Errors (LoadGen.counters (fst r)))
  = LoadGen.Errors (LoadGen.counters (fst r)).
Proof.
  revert i st. induction n as [|n IH]; intros i st Htp Herr; [split; assumption|].
  cbn [LoadGen.loop].
  destruct (LoadGen.CtxDone w i); [split; assumption|].
  destruct (LoadGen.PublishOk w i); cbn [negb].
  - destruct (0 <? d); [destruct (Z.quot d 2 <=? 0)|];
      try (apply IH; cbn; [apply wrap64_idem|exact Herr]).
    cbn. split; [apply wrap64_idem|exact Herr].
  - apply IH; cbn; [exact Htp|apply wrap64_idem].
Qed.

(** X29.  [runProducer], for every conversation id, token count, delay and
    course of events (cancellation, failing publishes, jitter).  The
    publishes go to the channel [llm:tokens:<id>] and carry the id; they are
    numbered 1, 2, 3, ... without a gap, failed publishes included; [done]
    is set on the envelope numbered [numTokens] and on no other; there are
    never more than [numTokens] of them, and exactly [numTokens] when the
    loop runs to its end.  [TokensPublished] grows by the number of
    successful publishes and [Errors] by the number of failed ones.  With a
    token delay of 1 ms, [rand.Intn] is called with 0 and panics: the
    producer stops right after its first successful publish, and this is
    the only way it panics. *)
Theorem LoadGen_runProducer_envelopes (w : LoadGen.World) (cid : string)
    (numTokens delayMs : Z) (s : LoadGen.Stats) :
  numTokens < 2^63 ->
  in_int64 (LoadGen.TokensPublished s) = true ->
  in_int64 (LoadGen.Errors s) = true ->
  let r := LoadGen.runProducer w cid numTokens delayMs s in
  let sent := LoadGen.attempts (fst r) in
  map (fun a => Sequence (LoadGen.msg a)) sent
  = map Z.of_nat (seq 1 (length sent)) /\
  Forall (fun a => LoadGen.channel a = String.append "llm:tokens:" cid /\
                   ConversationID (LoadGen.msg a) = cid /\
                   (Done (LoadGen.msg a) = true <->
                    Sequence (LoadGen.msg a) = numTokens)) sent /\
  Z.of_nat (length sent) <= Z.max 0 numTokens /\
  (snd r = LoadGen.Completed -> Z.of_nat (length sent) = Z.max 0 numTokens) /\
  LoadGen.TokensPublished (LoadGen.counters (fst r))
  = wrap64 (LoadGen.TokensPublished s + succeeded sent) /\
  LoadGen.Errors (LoadGen.counters (fst r))
  = wrap64 (LoadGen.Errors s + failed sent) /\
  (snd r = LoadGen.Panicked <-> delayMs = 1 /\ 0 < succeeded sent) /\
  (delayMs = 1 -> succeeded sent <= 1).
Proof.
  intros HN Htp Herr r sent.
  assert (Hint : forall z, in_int64 z = true -> wrap64 z = z).
  { intros z Hz. unfold in_int64 in Hz. apply andb_true_iff in Hz.
    destruct Hz as [Hlo Hhi]. apply Z.leb_le in Hlo. apply Z.leb_le in Hhi.
    apply wrap64_small. lia. }
  destruct (LoadGen_loop_spec w cid numTokens delayMs (Z.to_nat numTokens) 0
              (LoadGen.mkProducer [] [] s))
    as (k & Hk & Hatt & Hp & He & Hc & _ & Hpanic & Hone & _).
  destruct (LoadGen_loop_counters w cid numTokens delayMs (Z.to_nat numTokens) 0
              (LoadGen.mkProducer [] [] s) (Hint _ Htp) (Hint _ Herr)) as [Hp' He'].
  fold (LoadGen.runProducer w cid numTokens delayMs s) in Hatt, Hp, He, Hc, Hpanic, Hp', He'.
  fold r in Hatt, Hp, He, Hc, Hpanic, Hp', He'.
  cbn [LoadGen.attempts LoadGen.counters app] in Hatt, Hp, He. fold sent in Hatt.
  rewrite <- Hatt in Hp, He, Hpanic, Hone.
  assert (Hlen : length sent = k) by (rewrite Hatt, length_map, length_seq; reflexivity).
  rewrite Hlen.
  split.
  { rewrite Hatt, map_map, <- seq_shift, map_map. apply map_ext_in.
    intros j Hj. apply in_seq in Hj. cbn [producer_attempt LoadGen.msg Sequence].
    rewrite wrap64_small; lia. }
  split.
  { rewrite Hatt. apply Forall_map. apply List.Forall_forall. intros j Hj.
    apply in_seq in Hj. cbn [producer_attempt LoadGen.msg LoadGen.channel
                             Sequence ConversationID Done].
    split; [reflexivity|]. split; [reflexivity|].
    rewrite wrap64_small by lia. rewrite Z.eqb_eq. lia. }
  split; [lia|]. split; [intros H; rewrite (Hc H); lia|].
  split; [rewrite <- Hp'; exact Hp|]. split; [rewrite <- He'; exact He|].
  split; [exact Hpanic|exact Hone].
Qed.

Lemma LoadGen_runProducer_envelopes_witness :
  let r := LoadGen.runProducer calm "loadtest-1-0" 3 1 LoadGen.fresh in
  let sent := LoadGen.attempts (fst r) in
  3 < 2^63 /\
  in_int64 (LoadGen.TokensPublished LoadGen.fresh) = true /\
  in_int64 (LoadGen.Errors LoadGen.fresh) = true /\
  map (fun a => Sequence (LoadGen.msg a)) sent = [1] /\
  map (fun a => Token (LoadGen.msg a)) sent = ["The"] /\
  snd r = LoadGen.Panicked /\
  succeeded sent <= 1.
Proof.
  intros r sent.
  assert (H1 : 3 < 2^63) by reflexivity.
  assert (H2 : in_int64 (LoadGen.TokensPublished LoadGen.fresh) = true) by reflexivity.
  assert (H3 : in_int64 (LoadGen.Errors LoadGen.fresh) = true) by reflexivity.
  destruct (LoadGen_runProducer_envelopes calm "loadtest-1-0" 3 1 LoadGen.fresh H1 H2 H3)
    as (_ & _ & _ & _ & _ & _ & _ & Hone).
  split; [exact H1|]. split; [exact H2|]. split; [exact H3|].
  split; [reflexivity|]. split; [reflexivity|]. split; [reflexivity|].
  apply Hone. reflexivity.
Defined.


(** ** From the proxy to the client when nothing is lost *)

Lemma done_last_open_then_one (front last : list TokenMessage) :
  Forall (fun t => Done t = false) front ->
  (length last <= 1)%nat ->
  done_last (front ++ last).
Proof.
  intros Hopen Hlen. unfold done_last.
  induction front as [|f front IH]; intros pre t post Heq Hd.
  - simpl in Heq. subst last. destruct pre as [|x pre]; simpl in Hlen.
    + destruct post; [reflexivity|simpl in Hlen; lia].
    + rewrite length_app in Hlen. simpl in Hlen. lia.
  - inversion Hopen as [|? ? Hf Hrest]; subst.
    destruct pre as [|x pre]; simpl in Heq; inversion Heq; subst.
    + congruence.
    + eapply IH; eauto.
Qed.

Lemma done_last_tail (t : TokenMessage) (ts : list TokenMessage) :
  done_last (t :: ts) -> done_last ts.
Proof.
  unfold done_last. intros H pre u post Heq Hd.
  apply (H (t :: pre) u post); [simpl; rewrite Heq; reflexivity|exact Hd].
Qed.

Lemma Proxy_reached_done_last (calls : list Proxy.Attempt) :
  done_only_last calls ->
  done_last (map Proxy.msg (filter (fun a => Proxy.ok a = true) calls)).
Proof.
  assert (Hkeep : forall l, all_open l ->
            Forall (fun t => Done t = false)
                   (map Proxy.msg (filter (fun a => Proxy.ok a = true) l))).
  { intros l Hl. unfold all_open, Proxy.envelopes in Hl.
    eapply sublist_Forall; [|exact Hl].
    apply (fmap_sublist Proxy.msg). apply sublist_filter. }
  intros [Hopen|(front & a & -> & Hopen & Ha)].
  - rewrite <- (app_nil_r (map _ _)).
    apply done_last_open_then_one; [apply Hkeep; exact Hopen|simpl; lia].
  - rewrite filter_app, map_app.
    apply done_last_open_then_one; [apply Hkeep; exact Hopen|].
    rewrite length_map. 
    etransitivity; [apply length_filter|]. simpl. lia.
Qed.

Lemma Bridge_run_relayed (cfg : Bridge.Config) (calls : list Proxy.Attempt) :
  map Bridge.data
      (Bridge.published (Bridge.run cfg (relayed calls) (Bridge.mkState 0 [] false)))
  = map Proxy.msg (filter (fun a => Proxy.ok a = true) calls).
Proof.
  destruct (Bridge_run_characterised cfg (relayed calls) (Bridge.mkState 0 [] false)
              eq_refl eq_refl) as (H & _).
  rewrite H. cbn [Bridge.published app]. unfold relayed.
  induction (filter (fun a => Proxy.ok a = true) calls) as [|a l IH];
    [reflexivity|].
  simpl. f_equal. exact IH.
Qed.

Lemma Stream_run_handed (pubs : list Bridge.Publication) (c : Stream.Conn) :
  Stream.returned c = false ->
  Stream.msgChan c = [] ->
  Stream.doneClosed c = false ->
  Stream.startSequence c <= 0 ->
  done_last (map Bridge.data pubs) ->
  frames (Stream.trace (Stream.run (handed pubs) c))
  = frames (Stream.trace c) ++ map token_event (map Bridge.data pubs) /\
  Stream.returned (Stream.run (handed pubs) c) = existsb Done (map Bridge.data pubs).
Proof.
  revert c. induction pubs as [|p pubs IH]; intros c Hret Hq Hdone Hstart Hlast.
  - simpl. rewrite app_nil_r. split; [reflexivity|exact Hret].
  - cbn [handed flat_map app]. fold (handed pubs).
    rewrite !Stream_run_cons.
    assert (Hcb : Stream.step c (Stream.Deliver (Encoded (Bridge.data p)) false)
                  = Stream.set_msgChan [Bridge.data p] c).
    { cbn [Stream.step]. unfold Stream.callback. cbn [json_Unmarshal].
      destruct (Z.ltb_spec 0 (Stream.startSequence c)) as [H|_]; [lia|].
      cbn [andb]. rewrite Hq, Hdone. reflexivity. }
    rewrite Hcb. cbn [Stream.step]. unfold Stream.select.
    cbn [Stream.set_msgChan Stream.returned Stream.msgChan]. rewrite Hret.
    cbn [map existsb].
    destruct (Done (Bridge.data p)) eqn:Hd.
    + assert (Hnil : map Bridge.data pubs = []).
      { apply (Hlast [] (Bridge.data p) _ eq_refl Hd). }
      destruct pubs; [|discriminate]. cbn [handed flat_map Stream.run fold_left map].
      rewrite Stream_trace_ret. cbn [Stream.emit Stream.trace Stream.set_msgChan].
      rewrite frames_app. split; reflexivity.
    + cbn [orb].
      match goal with
      | |- context [Stream.run (handed pubs) ?c1] =>
          destruct (IH c1) as [Hf Hr]
      end; try reflexivity; try assumption.
      { apply done_last_tail in Hlast. exact Hlast. }
      rewrite Hf, Hr. cbn [Stream.emit Stream.trace Stream.set_msgChan].
      rewrite frames_app, <- app_assoc. split; reflexivity.
Qed.

(** X30.  The whole conversation when nothing is lost on the way: the
    bridge receives every envelope the proxy published successfully and
    republishes it, and NATS hands each one to the subscription of
    [HandleStream] before the next turn of the loop.  Then the client is
    sent the connection comment followed by one token event per envelope
    that reached Redis, in the proxy's order and with nothing else in
    between; and the handler closes the connection exactly when the
    terminal envelope was among them (a body that ends without a terminator
    leaves the connection open). *)
Theorem Pipeline_whole_conversation (w : Proxy.World) (cid message : string)
    (up : Proxy.Upstream) (Getenv : string -> string) (defaultInstance : string)
    (env : Stream.Env) (r : Stream.Request) :
  Stream.SubscribeOk env = true ->
  Stream.CanFlush r = true ->
  Stream.LastEventID r = "" ->
  Stream.conversationID_of r = cid ->
  cid <> "" ->
  let calls := Proxy.streamFromLLM w cid message up in
  let reached := map Proxy.msg (filter (fun a => Proxy.ok a = true) calls) in
  let st := Bridge.run (Bridge.loadConfig Getenv defaultInstance) (relayed calls)
                       (Bridge.mkState 0 [] false) in
  let c := Stream.HandleStream env r (handed (Bridge.published st)) in
  Bridge.main Getenv defaultInstance (Bridge.mkStartup true true true) (relayed calls)
  = inr st /\
  map Bridge.data (Bridge.published st) = reached /\
  frames (Stream.trace c)
  = FComment (String.append ": connected to " cid) :: map token_event reached /\
  Stream.returned c = existsb Done reached.
Proof.
  intros Hsub Hflush Hid Hcid Hne calls reached st c.
  split; [reflexivity|].
  assert (Hpub : map Bridge.data (Bridge.published st) = reached)
    by apply Bridge_run_relayed.
  split; [exact Hpub|].
  assert (Hlast : done_last (map Bridge.data (Bridge.published st))).
  { rewrite Hpub. apply Proxy_reached_done_last. apply Proxy_stream_shape. }
  subst c. unfold Stream.HandleStream. rewrite Hcid, Hsub, Hflush, Hid.
  destruct (String.eqb_spec cid "") as [He|_]; [contradiction|].
  cbn [negb].
  match goal with
  | |- context [Stream.run _ ?c0] =>
      destruct (Stream_run_handed (Bridge.published st) c0) as [Hf Hr];
        try reflexivity; [exact Hlast|]
  end.
  rewrite Hf, Hr, Hpub. cbn [Stream.trace]. rewrite frames_app. split; reflexivity.
Qed.

Lemma Pipeline_whole_conversation_witness :
  let calls := Proxy.streamFromLLM chunk_world "c1" "hello"
                 (Proxy.Response StatusOK ["data: Hel"; "data: lo"; "data: [DONE]"]
                                 Proxy.EOF) in
  let st := Bridge.run (Bridge.loadConfig (fun _ => "") "bridge-1") (relayed calls)
                       (Bridge.mkState 0 [] false) in
  let c := Stream.HandleStream c1_env fresh_request (handed (Bridge.published st)) in
  Stream.SubscribeOk c1_env = true /\
  Stream.CanFlush fresh_request = true /\
  Stream.LastEventID fresh_request = "" /\
  Stream.conversationID_of fresh_request = "c1" /\
  "c1" <> "" /\
  token_ids (frames (Stream.trace c)) = [1; 2; 3] /\
  Stream.returned c = true.
Proof.
  intros calls st c.
  assert (H1 : Stream.SubscribeOk c1_env = true) by reflexivity.
  assert (H2 : Stream.CanFlush fresh_request = true) by reflexivity.
  assert (H3 : Stream.LastEventID fresh_request = "") by reflexivity.
  assert (H4 : Stream.conversationID_of fresh_request = "c1") by reflexivity.
  assert (H5 : "c1" <> "") by discriminate.
  destruct (Pipeline_whole_conversation chunk_world "c1" "hello"
              (Proxy.Response StatusOK ["data: Hel"; "data: lo"; "data: [DONE]"]
                              Proxy.EOF)
              (fun _ => "") "bridge-1" c1_env fresh_request H1 H2 H3 H4 H5)
    as (_ & _ & _ & Hret).
  split; [exact H1|]. split; [exact H2|]. split; [exact H3|]. split; [exact H4|].
  split; [exact H5|]. split; [reflexivity|].
  etransitivity; [exact Hret|reflexivity].
Defined.

(** ** The first-token timeout and the arrival of envelopes *)











